(** * The PostHog write-request observability pipeline

    A shallow embedding of [backend/libs/posthog/src/posthog.service.ts]
    ([PosthogService]) and of the controller and the request interceptor in
    [backend/libs/posthog/src/posthog.controller.ts] ([PosthogController],
    [PosthogInterceptor]),
    together with the parts of the JavaScript runtime they rely on
    ([JSON.stringify], [JSON.parse], truthiness, property access,
    [Array.prototype.slice]).

    Conventions of the embedding.
    - A JavaScript value is a [value]: [undefined], [null], booleans, numbers,
      strings, arrays and plain objects.  Functions, symbols, [Date]s inside
      payloads and cyclic object graphs are outside the model: payloads are
      JSON-like.
    - A number is a finite decimal [mant * 10 ^ expo]; doubles agree with
      these up to 15 significant digits.  [NaN] and the infinities never
      arise from JSON text and are not modelled.
    - A string is a [string] of code units below 256.
    - An object is an association list in property order; a JavaScript
      object has no key twice, and the statements that depend on it say so
      ([NoDup]).  Keys that are array indices come first, in ascending
      order: [obj_put] is the write that places a new key accordingly.
      Only own properties exist: members inherited from [Object.prototype]
      and the like are functions, not values, and the statements that
      depend on a key not naming one say so ([own_names]).
    - Code that can throw returns a [result]; code that touches the event
      log, the PostHog client, the logger or the network runs in the monad
      [M] over a [World]. *)

From Stdlib Require Import String Ascii List ZArith Bool Lia Arith.
From Stdlib Require Import DecimalString Decimal.
Import ListNotations.

Set Warnings "-register-all".

Open Scope string_scope.
Open Scope list_scope.

Infix "+++" := String.append (at level 60, right associativity).

(** ** JavaScript values *)

Module JS.

Record number : Type := Num { mant : Z; expo : Z }.

Inductive value : Type :=
| VUndefined
| VNull
| VBool (b : bool)
| VNum (n : number)
| VStr (s : string)
| VArr (elems : list value)
| VObj (fields : list (string * value)).

Definition obj : Type := list (string * value).

Definition int (z : Z) : value := VNum (Num z 0).
Definition nat_num (n : nat) : value := int (Z.of_nat n).

(** Exceptions: what is thrown is an [Error] object of one of these
    kinds. *)
Inductive exn : Type :=
| SyntaxError
| TypeError
| RangeError
| OtherError (message : string).

Inductive result (A : Type) : Type :=
| Ok (a : A)
| Throw (e : exn).
Arguments Ok {A} a.
Arguments Throw {A} e.

Definition rbind {A B : Type} (r : result A) (k : A -> result B) : result B :=
  match r with
  | Ok a => k a
  | Throw e => Throw e
  end.

(** [!!v]: everything is truthy but [undefined], [null], [false], [0] and
    the empty string. *)
Definition truthy (v : value) : bool :=
  match v with
  | VUndefined | VNull => false
  | VBool b => b
  | VNum n => negb (mant n =? 0)%Z
  | VStr s => negb (String.eqb s EmptyString)
  | VArr _ | VObj _ => true
  end.

Definition is_undefined (v : value) : bool :=
  match v with VUndefined => true | _ => false end.

Definition is_nullish (v : value) : bool :=
  match v with VUndefined | VNull => true | _ => false end.

(** [a || b]. *)
Definition or_else (a b : value) : value := if truthy a then a else b.

(** [typeof v === 'object' && v !== null && !Array.isArray(v)]. *)
Definition is_plain_object (v : value) : bool :=
  match v with VObj _ => true | _ => false end.

Definition isArray (v : value) : bool :=
  match v with VArr _ => true | _ => false end.

(** *** Keys and property access *)

Definition string_of_nat (i : nat) : string :=
  NilZero.string_of_uint (Nat.to_uint i).

Definition string_of_Z (z : Z) : string :=
  if (z <? 0)%Z
  then "-" +++ NilZero.string_of_uint (N.to_uint (Z.to_N (Z.abs z)))
  else NilZero.string_of_uint (N.to_uint (Z.to_N z)).

Fixpoint lookup (key : string) (fs : obj) : option value :=
  match fs with
  | [] => None
  | (k, v) :: fs' => if String.eqb k key then Some v else lookup key fs'
  end.

(** The element of an array (or the character of a string) whose index
    prints as [key]; [i] is the index of the head of the list. *)
Fixpoint at_index {A : Type} (key : string) (i : nat) (l : list A) : option A :=
  match l with
  | [] => None
  | x :: l' =>
      if String.eqb (string_of_nat i) key then Some x
      else at_index key (S i) l'
  end.

Definition char_value (c : ascii) : value := VStr (String c EmptyString).

(** [o[key]] on an object: own properties only. *)
Definition obj_get (o : obj) (key : string) : value :=
  match lookup key o with
  | Some v => v
  | None => VUndefined
  end.

(** [v?.[key]]: own properties of objects, indices and [length] of arrays
    and strings; [undefined] on everything else. *)
Definition get (v : value) (key : string) : value :=
  match v with
  | VObj fs => obj_get fs key
  | VArr vs =>
      match at_index key 0 vs with
      | Some x => x
      | None =>
          if String.eqb key "length" then nat_num (List.length vs)
          else VUndefined
      end
  | VStr s =>
      match at_index key 0 (list_ascii_of_string s) with
      | Some c => char_value c
      | None =>
          if String.eqb key "length" then nat_num (String.length s)
          else VUndefined
      end
  | _ => VUndefined
  end.

(** [v.key], which throws a [TypeError] on [null] and [undefined]. *)
Definition member (v : value) (key : string) : result value :=
  if is_nullish v then Throw TypeError else Ok (get v key).

(** [o[key] = v] where a new key goes last (a name, or an index written in
    ascending order as when an object is copied key by key): overwrite in
    place, or append a new property. *)
Fixpoint obj_set (o : obj) (key : string) (v : value) : obj :=
  match o with
  | [] => [(key, v)]
  | (k, x) :: o' =>
      if String.eqb k key then (k, v) :: o'
      else (k, x) :: obj_set o' key v
  end.

(** An array index: the canonical decimal of an integer below [2^32 - 1].
    An object enumerates the keys that are array indices first, in
    ascending order, and then the other keys in the order in which they
    were written. *)
Definition digit_of_char (c : ascii) : option N :=
  let n := nat_of_ascii c in
  if (48 <=? n)%nat && (n <=? 57)%nat then Some (N.of_nat (n - 48)) else None.

Fixpoint decimal (acc : N) (s : string) : option N :=
  match s with
  | EmptyString => Some acc
  | String c s' =>
      match digit_of_char c with
      | Some d => decimal (10 * acc + d)%N s'
      | None => None
      end
  end.

Definition index_of (key : string) : option N :=
  match key with
  | EmptyString => None
  | String c rest =>
      if Ascii.eqb c "0"%char then
        if String.eqb rest EmptyString then Some 0%N else None
      else
        match decimal 0 key with
        | Some n => if (n <? 4294967295)%N then Some n else None
        | None => None
        end
  end.

Definition is_index (key : string) : bool :=
  match index_of key with Some _ => true | None => false end.

(** The place of a new index among the properties: before the first
    property that is a name or a larger index. *)
Fixpoint insert_index (i : N) (key : string) (v : value) (o : obj) : obj :=
  match o with
  | [] => [(key, v)]
  | (k, x) :: o' =>
      match index_of k with
      | Some j =>
          if (j <? i)%N then (k, x) :: insert_index i key v o'
          else (key, v) :: o
      | None => (key, v) :: o
      end
  end.

(** [o[key] = v] for any key: overwrite in place; a new index takes its
    place among the indices, a new name goes last. *)
Definition obj_put (o : obj) (key : string) (v : value) : obj :=
  match lookup key o with
  | Some _ => obj_set o key v
  | None =>
      match index_of key with
      | Some i => insert_index i key v o
      | None => o ++ [(key, v)]
      end
  end.

Fixpoint indexed {A : Type} (f : A -> value) (i : nat) (l : list A) : obj :=
  match l with
  | [] => []
  | x :: l' => (string_of_nat i, f x) :: indexed f (S i) l'
  end.

(** [Object.entries(v)] and the spread [{ ...v }]: the own enumerable
    properties, in order. *)
Definition entries (v : value) : obj :=
  match v with
  | VObj fs => fs
  | VArr vs => indexed (fun x => x) 0 vs
  | VStr s => indexed char_value 0 (list_ascii_of_string s)
  | _ => []
  end.

(** [Object.keys(v || {})]. *)
Definition keys (v : value) : list string := map fst (entries v).

Definition mem (k : string) (l : list string) : bool :=
  existsb (String.eqb k) l.

(** The iteration order of [new Set(l)]: first occurrences, in order. *)
Fixpoint set_of (seen l : list string) : list string :=
  match l with
  | [] => []
  | k :: l' =>
      if mem k seen then set_of seen l' else k :: set_of (k :: seen) l'
  end.

(** An object literal with the given properties written in order, as in
    [{ ...a, k1: v1, k2: v2 }]. *)
Definition assign (o : obj) (props : obj) : obj :=
  fold_left (fun acc kv => obj_set acc (fst kv) (snd kv)) props o.

End JS.

Import JS.

(** ** JSON: [JSON.stringify] and [JSON.parse] *)

Module JSON.

Definition dquote : ascii := "034"%char.
Definition backslash : ascii := "092"%char.

Definition str1 (c : ascii) : string := String c EmptyString.

Definition hex_digit (n : nat) : ascii :=
  nth n (list_ascii_of_string "0123456789abcdef") "0"%char.

(** One code unit of a quoted string (QuoteJSONString). *)
Definition quote_char (c : ascii) : string :=
  let n := nat_of_ascii c in
  if Ascii.eqb c dquote then String backslash (str1 dquote)
  else if Ascii.eqb c backslash then String backslash (str1 backslash)
  else if (n =? 8)%nat then String backslash "b"
  else if (n =? 9)%nat then String backslash "t"
  else if (n =? 10)%nat then String backslash "n"
  else if (n =? 12)%nat then String backslash "f"
  else if (n =? 13)%nat then String backslash "r"
  else if (n <? 32)%nat then
    String backslash ("u00" +++ String (hex_digit (n / 16)) (str1 (hex_digit (n mod 16))))
  else str1 c.

Fixpoint quote_body (s : string) : string :=
  match s with
  | EmptyString => EmptyString
  | String c s' => quote_char c +++ quote_body s'
  end.

Definition quote (s : string) : string :=
  String dquote (quote_body s +++ str1 dquote).

Fixpoint zeros (n : nat) : string :=
  match n with
  | O => EmptyString
  | S n' => String "0"%char (zeros n')
  end.

Fixpoint strip_zeros (rev_digits : list ascii) : list ascii * nat :=
  match rev_digits with
  | c :: l => if Ascii.eqb c "0"%char
              then let '(l', z) := strip_zeros l in (l', S z)
              else (rev_digits, 0)
  | [] => ([], 0)
  end.

(** Number::toString for a finite decimal: [s] holds the [k] significant
    digits and the value is [s * 10 ^ (n - k)]. *)
Definition Number_toString (x : number) : string :=
  if (mant x =? 0)%Z then "0"
  else
    let all := list_ascii_of_string (string_of_Z (Z.abs (mant x))) in
    let '(rs, z) := strip_zeros (List.rev all) in
    let s := string_of_list_ascii (List.rev rs) in
    let k := String.length s in
    let n := (Z.of_nat k + expo x + Z.of_nat z)%Z in
    let sign := if (mant x <? 0)%Z then "-" else EmptyString in
    let kz := Z.of_nat k in
    sign +++
    (if (kz <=? n)%Z && (n <=? 21)%Z then s +++ zeros (Z.to_nat (n - kz))
     else if (0 <? n)%Z && (n <=? 21)%Z then
       substring 0 (Z.to_nat n) s +++ "." +++ substring (Z.to_nat n) (k - Z.to_nat n) s
     else if (-6 <? n)%Z && (n <=? 0)%Z then
       "0." +++ zeros (Z.to_nat (- n)) +++ s
     else
       let e := (n - 1)%Z in
       let es := (if (e <? 0)%Z then "-" else "+") +++ string_of_Z (Z.abs e) in
       if (k =? 1)%nat then s +++ "e" +++ es
       else substring 0 1 s +++ "." +++ substring 1 (k - 1) s +++ "e" +++ es).

Definition join (sep : string) (l : list string) : string := String.concat sep l.

(** [JSON.stringify(v)]; [None] is the result [undefined].  Inside an array
    [undefined] prints as [null]; inside an object a property holding
    [undefined] is left out. *)
Fixpoint stringify (v : value) : option string :=
  match v with
  | VUndefined => None
  | VNull => Some "null"
  | VBool true => Some "true"
  | VBool false => Some "false"
  | VNum n => Some (Number_toString n)
  | VStr s => Some (quote s)
  | VArr vs =>
      Some ("[" +++ join ","
              (map (fun x => match stringify x with
                             | Some t => t
                             | None => "null"
                             end) vs) +++ "]")
  | VObj fs =>
      Some ("{" +++ join ","
              (flat_map (fun kv => match stringify (snd kv) with
                                   | Some t => [quote (fst kv) +++ ":" +++ t]
                                   | None => []
                                   end) fs) +++ "}")
  end.

(** [JSON.stringify(a) !== JSON.stringify(b)]. *)
Definition stringify_differs (a b : value) : bool :=
  match stringify a, stringify b with
  | Some s, Some t => negb (String.eqb s t)
  | None, None => false
  | _, _ => true
  end.

(** *** [JSON.parse]

    The parser reads the text one character at a time.  Its state is the
    lexer mode (between tokens, inside a string, a number or a literal),
    what the grammar expects next, and the stack of the containers that are
    still open. *)

Inductive frame : Type :=
| FArr (acc : list value)
| FObj (acc : obj)
| FKey (acc : obj) (key : string).

Inductive expect : Type :=
| XValue
| XValueOrClose
| XKeyOrClose
| XKey
| XColon
| XCommaOrClose
| XEnd (v : value).

Inductive escape : Type :=
| ENone
| EBackslash
| EUnicode (count code : nat).

Inductive numphase : Type :=
| NMinus | NZero | NInt | NDot | NFrac | NExpMark | NExpSign | NExp.

Record numacc : Type := NumAcc {
  neg : bool;
  mantissa : Z;
  fraction_digits : Z;
  exp_neg : bool;
  exponent : Z
}.

Inductive literal : Type := LitTrue | LitFalse | LitNull.

Inductive lexer : Type :=
| LIdle
| LStr (acc : list ascii) (esc : escape)
| LNum (ph : numphase) (a : numacc)
| LLit (l : literal) (pos : nat).

Record pstate : Type := PState {
  lex : lexer;
  expecting : expect;
  stack : list frame
}.

Definition initial : pstate := PState LIdle XValue [].

Definition is_ws (c : ascii) : bool :=
  let n := nat_of_ascii c in
  (n =? 32)%nat || (n =? 9)%nat || (n =? 10)%nat || (n =? 13)%nat.

Definition digit_of (c : ascii) : option Z :=
  let n := nat_of_ascii c in
  if (48 <=? n)%nat && (n <=? 57)%nat then Some (Z.of_nat (n - 48)) else None.

Definition hex_of (c : ascii) : option nat :=
  let n := nat_of_ascii c in
  if (48 <=? n)%nat && (n <=? 57)%nat then Some (n - 48)
  else if (65 <=? n)%nat && (n <=? 70)%nat then Some (n - 55)
  else if (97 <=? n)%nat && (n <=? 102)%nat then Some (n - 87)
  else None.

Definition is_exp_mark (c : ascii) : bool :=
  Ascii.eqb c "e"%char || Ascii.eqb c "E"%char.

Definition literal_text (l : literal) : list ascii :=
  list_ascii_of_string
    match l with LitTrue => "true" | LitFalse => "false" | LitNull => "null" end.

Definition literal_value (l : literal) : value :=
  match l with LitTrue => VBool true | LitFalse => VBool false | LitNull => VNull end.

Definition number_of (a : numacc) : number :=
  Num (if neg a then - mantissa a else mantissa a)%Z
      ((if exp_neg a then - exponent a else exponent a) - fraction_digits a)%Z.

(** A complete value is handed to the innermost open container. *)
Definition deliver (v : value) (stk : list frame) : option pstate :=
  match stk with
  | [] => Some (PState LIdle (XEnd v) [])
  | FArr acc :: stk' => Some (PState LIdle XCommaOrClose (FArr (v :: acc) :: stk'))
  | FKey acc key :: stk' =>
      Some (PState LIdle XCommaOrClose (FObj ((key, v) :: acc) :: stk'))
  | FObj _ :: _ => None
  end.

Definition close_array (stk : list frame) : option pstate :=
  match stk with
  | FArr acc :: stk' => deliver (VArr (List.rev acc)) stk'
  | _ => None
  end.

(** A repeated key keeps its first position and its last value. *)
Definition close_object (stk : list frame) : option pstate :=
  match stk with
  | FObj acc :: stk' => deliver (VObj (assign [] (List.rev acc))) stk'
  | _ => None
  end.

Definition start_value (c : ascii) (stk : list frame) : option pstate :=
  if Ascii.eqb c "{"%char then Some (PState LIdle XKeyOrClose (FObj [] :: stk))
  else if Ascii.eqb c "["%char then Some (PState LIdle XValueOrClose (FArr [] :: stk))
  else if Ascii.eqb c dquote then Some (PState (LStr [] ENone) XValue stk)
  else if Ascii.eqb c "-"%char then
    Some (PState (LNum NMinus (NumAcc true 0 0 false 0)) XValue stk)
  else if Ascii.eqb c "0"%char then
    Some (PState (LNum NZero (NumAcc false 0 0 false 0)) XValue stk)
  else
    match digit_of c with
    | Some d => Some (PState (LNum NInt (NumAcc false d 0 false 0)) XValue stk)
    | None =>
        if Ascii.eqb c "t"%char then Some (PState (LLit LitTrue 1) XValue stk)
        else if Ascii.eqb c "f"%char then Some (PState (LLit LitFalse 1) XValue stk)
        else if Ascii.eqb c "n"%char then Some (PState (LLit LitNull 1) XValue stk)
        else None
    end.

Definition step_idle (c : ascii) (x : expect) (stk : list frame) : option pstate :=
  if is_ws c then Some (PState LIdle x stk)
  else
    match x with
    | XValue => start_value c stk
    | XValueOrClose =>
        if Ascii.eqb c "]"%char then close_array stk else start_value c stk
    | XKeyOrClose =>
        if Ascii.eqb c dquote then Some (PState (LStr [] ENone) XKeyOrClose stk)
        else if Ascii.eqb c "}"%char then close_object stk
        else None
    | XKey =>
        if Ascii.eqb c dquote then Some (PState (LStr [] ENone) XKey stk) else None
    | XColon =>
        if Ascii.eqb c ":"%char then Some (PState LIdle XValue stk) else None
    | XCommaOrClose =>
        if Ascii.eqb c ","%char then
          match stk with
          | FArr _ :: _ => Some (PState LIdle XValue stk)
          | FObj _ :: _ => Some (PState LIdle XKey stk)
          | _ => None
          end
        else if Ascii.eqb c "]"%char then close_array stk
        else if Ascii.eqb c "}"%char then close_object stk
        else None
    | XEnd _ => None
    end.

Definition finish_string (s : string) (x : expect) (stk : list frame) : option pstate :=
  match x with
  | XKey | XKeyOrClose =>
      match stk with
      | FObj acc :: stk' => Some (PState LIdle XColon (FKey acc s :: stk'))
      | _ => None
      end
  | _ => deliver (VStr s) stk
  end.

Definition step_string (c : ascii) (acc : list ascii) (esc : escape)
    (x : expect) (stk : list frame) : option pstate :=
  let push (d : ascii) := Some (PState (LStr (d :: acc) ENone) x stk) in
  match esc with
  | ENone =>
      if Ascii.eqb c dquote then
        finish_string (string_of_list_ascii (List.rev acc)) x stk
      else if Ascii.eqb c backslash then Some (PState (LStr acc EBackslash) x stk)
      else if (nat_of_ascii c <? 32)%nat then None
      else push c
  | EBackslash =>
      if Ascii.eqb c dquote || Ascii.eqb c backslash || Ascii.eqb c "/"%char then push c
      else if Ascii.eqb c "b"%char then push (ascii_of_nat 8)
      else if Ascii.eqb c "f"%char then push (ascii_of_nat 12)
      else if Ascii.eqb c "n"%char then push (ascii_of_nat 10)
      else if Ascii.eqb c "r"%char then push (ascii_of_nat 13)
      else if Ascii.eqb c "t"%char then push (ascii_of_nat 9)
      else if Ascii.eqb c "u"%char then Some (PState (LStr acc (EUnicode 0 0)) x stk)
      else None
  | EUnicode count code =>
      match hex_of c with
      | None => None
      | Some d =>
          let code' := (16 * code + d)%nat in
          if (count =? 3)%nat then push (ascii_of_nat (code' mod 256))
          else Some (PState (LStr acc (EUnicode (S count) code')) x stk)
      end
  end.

Definition add_digit (a : numacc) (d : Z) : numacc :=
  NumAcc (neg a) (10 * mantissa a + d) (fraction_digits a) (exp_neg a) (exponent a).

Definition add_fraction_digit (a : numacc) (d : Z) : numacc :=
  NumAcc (neg a) (10 * mantissa a + d) (fraction_digits a + 1) (exp_neg a) (exponent a).

Definition add_exp_digit (a : numacc) (d : Z) : numacc :=
  NumAcc (neg a) (mantissa a) (fraction_digits a) (exp_neg a) (10 * exponent a + d).

Definition set_exp_neg (a : numacc) : numacc :=
  NumAcc (neg a) (mantissa a) (fraction_digits a) true (exponent a).

Definition step_number (c : ascii) (ph : numphase) (a : numacc)
    (x : expect) (stk : list frame) : option pstate :=
  let goto (ph' : numphase) (a' : numacc) := Some (PState (LNum ph' a') x stk) in
  (* the number ends before [c], which is then read between tokens *)
  let finish :=
    match deliver (VNum (number_of a)) stk with
    | Some st => step_idle c (expecting st) (stack st)
    | None => None
    end in
  match ph with
  | NMinus =>
      match digit_of c with
      | Some d => if (d =? 0)%Z then goto NZero a else goto NInt (add_digit a d)
      | None => None
      end
  | NZero =>
      if Ascii.eqb c "."%char then goto NDot a
      else if is_exp_mark c then goto NExpMark a
      else finish
  | NInt =>
      match digit_of c with
      | Some d => goto NInt (add_digit a d)
      | None =>
          if Ascii.eqb c "."%char then goto NDot a
          else if is_exp_mark c then goto NExpMark a
          else finish
      end
  | NDot =>
      match digit_of c with
      | Some d => goto NFrac (add_fraction_digit a d)
      | None => None
      end
  | NFrac =>
      match digit_of c with
      | Some d => goto NFrac (add_fraction_digit a d)
      | None => if is_exp_mark c then goto NExpMark a else finish
      end
  | NExpMark =>
      match digit_of c with
      | Some d => goto NExp (add_exp_digit a d)
      | None =>
          if Ascii.eqb c "+"%char then goto NExpSign a
          else if Ascii.eqb c "-"%char then goto NExpSign (set_exp_neg a)
          else None
      end
  | NExpSign =>
      match digit_of c with
      | Some d => goto NExp (add_exp_digit a d)
      | None => None
      end
  | NExp =>
      match digit_of c with
      | Some d => goto NExp (add_exp_digit a d)
      | None => finish
      end
  end.

Definition step_literal (c : ascii) (l : literal) (pos : nat)
    (x : expect) (stk : list frame) : option pstate :=
  match nth_error (literal_text l) pos with
  | Some e =>
      if Ascii.eqb c e then
        if (S pos =? List.length (literal_text l))%nat then deliver (literal_value l) stk
        else Some (PState (LLit l (S pos)) x stk)
      else None
  | None => None
  end.

Definition step (st : pstate) (c : ascii) : option pstate :=
  match lex st with
  | LIdle => step_idle c (expecting st) (stack st)
  | LStr acc esc => step_string c acc esc (expecting st) (stack st)
  | LNum ph a => step_number c ph a (expecting st) (stack st)
  | LLit l pos => step_literal c l pos (expecting st) (stack st)
  end.

Fixpoint run (st : pstate) (text : string) : option pstate :=
  match text with
  | EmptyString => Some st
  | String c text' =>
      match step st c with
      | Some st' => run st' text'
      | None => None
      end
  end.

(** The end of the text closes a pending number like white space does;
    the text is accepted when a value is complete and nothing is open. *)
Definition accept (st : pstate) : result value :=
  match step st " "%char with
  | Some (PState LIdle (XEnd v) []) => Ok v
  | _ => Throw SyntaxError
  end.

Definition parse (text : string) : result value :=
  match run initial text with
  | Some st => accept st
  | None => Throw SyntaxError
  end.

End JSON.

(** ** The world around the service *)

Module Runtime.

(** The environment of the process and the parts of the world the code
    reads but does not own.  Every call to the outside is numbered by the
    [ticks] of the world, so the clock, the network and the PostHog client
    may answer differently each time. *)

Record Request : Type := MkRequest {
  req_method : string;
  req_url : string;
  req_authorization : string;
  req_body : option string
}.

Record Response : Type := MkResponse {
  ok : bool;
  status : Z;
  statusText : string;
  text : result string;
  json : result value
}.

Inductive FetchOutcome : Type :=
| Resolved (r : Response)
| Rejected (e : exn).

Record CaptureData : Type := MkCapture {
  cap_distinctId : string;
  cap_event : string;
  cap_properties : obj
}.

Record Env : Type := MkEnv {
  POSTHOG_API_KEY : option string;
  POSTHOG_PERSONAL_API_KEY : option string;
  POSTHOG_HOST : option string;
  POSTHOG_PROJECT_ID : option string;
  (** [Date.now()] at the given tick, in milliseconds. *)
  clock : nat -> Z;
  (** [new Date(v)]: the time value, [None] for an Invalid Date. *)
  Date_of : value -> option Z;
  (** [new Date(t).toISOString()] for a valid time value. *)
  Date_toISOString : Z -> string;
  (** ToNumber on a value that is not a number; [None] is [NaN]. *)
  ToNumber : value -> option number;
  (** [fetch(request)] at the given tick. *)
  fetch_outcome : nat -> Request -> FetchOutcome;
  (** Whether [client.capture(data)] throws at the given tick. *)
  capture_throws : nat -> CaptureData -> bool
}.

Inductive level : Type := LOG | WARN | ERROR.

Record TrackedEvent : Type := MkTrackedEvent {
  distinctId : string;
  eventName : string;
  properties : obj;
  timestamp : Z
}.

Record World : Type := MkWorld {
  (** [PosthogService.eventLog] *)
  eventLog : list TrackedEvent;
  (** what [client.capture] accepted, oldest first *)
  outbox : list CaptureData;
  (** the requests handed to [fetch], oldest first *)
  requests : list Request;
  (** the lines written through the logger, oldest first *)
  logs : list (level * string);
  ticks : nat
}.

(** State and exceptions: effects made before a throw stay. *)
Definition M (A : Type) : Type := World -> result A * World.

Definition ret {A : Type} (a : A) : M A := fun w => (Ok a, w).

Definition bind {A B : Type} (c : M A) (k : A -> M B) : M B :=
  fun w =>
    match c w with
    | (Ok a, w') => k a w'
    | (Throw e, w') => (Throw e, w')
    end.

Definition throw {A : Type} (e : exn) : M A := fun w => (Throw e, w).

Definition lift {A : Type} (r : result A) : M A := fun w => (r, w).

(** [try { c } catch (error) { handler(error) }] *)
Definition try_catch {A : Type} (c : M A) (handler : exn -> M A) : M A :=
  fun w =>
    match c w with
    | (Ok a, w') => (Ok a, w')
    | (Throw e, w') => handler e w'
    end.

Definition when (b : bool) (c : M unit) : M unit := if b then c else ret tt.

Definition tick (w : World) : World :=
  MkWorld (eventLog w) (outbox w) (requests w) (logs w) (S (ticks w)).

Definition log (l : level) (line : string) : M unit :=
  fun w => (Ok tt, MkWorld (eventLog w) (outbox w) (requests w)
                           (logs w ++ [(l, line)]) (ticks w)).

(** [Date.now()] *)
Definition Date_now (env : Env) : M Z :=
  fun w => (Ok (clock env (ticks w)), tick w).

(** [await fetch(request)] *)
Definition fetch (env : Env) (r : Request) : M Response :=
  fun w =>
    let w' := MkWorld (eventLog w) (outbox w) (requests w ++ [r]) (logs w)
                      (S (ticks w)) in
    match fetch_outcome env (ticks w) r with
    | Resolved resp => (Ok resp, w')
    | Rejected e => (Throw e, w')
    end.

(** [client.capture(data)] *)
Definition capture (env : Env) (data : CaptureData) : M unit :=
  fun w =>
    if capture_throws env (ticks w) data
    then (Throw (OtherError "capture failed"), tick w)
    else (Ok tt, MkWorld (eventLog w) (outbox w ++ [data]) (requests w) (logs w)
                         (S (ticks w))).

Definition set_eventLog (l : list TrackedEvent) : M unit :=
  fun w => (Ok tt, MkWorld l (outbox w) (requests w) (logs w) (ticks w)).

Definition get_eventLog : M (list TrackedEvent) := fun w => (Ok (eventLog w), w).

(** [process.env.X || fallback] *)
Definition env_or (x : option string) (fallback : string) : string :=
  match x with
  | Some s => if String.eqb s EmptyString then fallback else s
  | None => fallback
  end.

(** The truthiness of [process.env.X]. *)
Definition env_set (x : option string) : bool :=
  match x with
  | Some s => negb (String.eqb s EmptyString)
  | None => false
  end.

(** [l.slice(start)] for an integer [start]. *)
Definition slice {A : Type} (start : Z) (l : list A) : list A :=
  let len := Z.of_nat (List.length l) in
  let k := if (start <? 0)%Z then Z.max (len + start) 0 else Z.min start len in
  skipn (Z.to_nat k) l.

(** [v > 0] *)
Definition gt0 (env : Env) (v : value) : bool :=
  match v with
  | VNum n => (0 <? mant n)%Z
  | _ => match ToNumber env v with
         | Some n => (0 <? mant n)%Z
         | None => false
         end
  end.

End Runtime.

Import Runtime.

Declare Scope m_scope.
Delimit Scope m_scope with M.
Notation "'let*' x ':=' c 'in' k" := (bind c (fun x => k))
  (at level 10, x name, c at level 100, k at level 200) : m_scope.
Notation "c ';;' k" := (bind c (fun _ => k))
  (at level 100, k at level 200, right associativity) : m_scope.
Open Scope m_scope.

(** ** [PosthogService] *)

Module PosthogService.

Definition MAX_LOG_SIZE : nat := 100.

Definition placeholder : string := "phc_your_api_key_here".

Definition default_host : string := "https://app.posthog.com".

Definition REDACTED : value := VStr "[REDACTED]".

(** [!apiKey || apiKey === 'phc_your_api_key_here'] *)
Definition unconfigured (apiKey : string) : bool :=
  String.eqb apiKey EmptyString || String.eqb apiKey placeholder.

Definition now_iso (env : Env) : M string :=
  let* t := Date_now env in ret (Date_toISOString env t).

(** *** [track], lines 59-100 *)
Definition track (env : Env) (distinctId eventName : string) (properties : obj)
  : M unit :=
  let apiKey := env_or (POSTHOG_API_KEY env) placeholder in
  if unconfigured apiKey then ret tt
  else
    let* iso := now_iso env in
    let eventData :=
      MkCapture distinctId eventName
        (assign properties
           [("timestamp", VStr iso);
            ("$lib", VStr "posthog-node");
            ("$lib_version", VStr "4.0.0")]) in
    try_catch
      (capture env eventData ;;
       log LOG ("Event sent to PostHog: " +++ eventName))
      (fun _ => log ERROR "Failed to send event to PostHog") ;;
    let* t := Date_now env in
    let trackedEvent := MkTrackedEvent distinctId eventName properties t in
    let* l := get_eventLog in
    let l := l ++ [trackedEvent] in
    if (MAX_LOG_SIZE <? List.length l)%nat
    then set_eventLog (slice (- Z.of_nat MAX_LOG_SIZE) l)
    else set_eventLog l.

(** *** [getRecentEvents], lines 125-135 *)
Record TrackedEventDto : Type := MkDto {
  dto_distinctId : string;
  dto_eventName : string;
  dto_properties : obj;
  dto_timestamp : Z
}.

Definition to_dto (event : TrackedEvent) : TrackedEventDto :=
  MkDto (distinctId event) (eventName event) (properties event) (timestamp event).

Definition getRecentEvents (w : World) (limit : option Z) : list TrackedEventDto :=
  let limit := match limit with Some n => n | None => 50%Z end in
  map to_dto (List.rev (slice (- limit) (eventLog w))).

(** *** [sanitizeHeaders], lines 237-252 *)
Definition lower_char (c : ascii) : ascii :=
  let n := nat_of_ascii c in
  if (65 <=? n)%nat && (n <=? 90)%nat then ascii_of_nat (n + 32) else c.

Fixpoint toLowerCase (s : string) : string :=
  match s with
  | EmptyString => EmptyString
  | String c s' => String (lower_char c) (toLowerCase s')
  end.

Definition sanitizeHeadersWith (sensitiveHeaders : list string) (headers : value)
  : value :=
  if negb (truthy headers) then VNull
  else
    VObj (fold_left
            (fun sanitized kv =>
               if mem (toLowerCase (fst kv)) sensitiveHeaders
               then obj_set sanitized (fst kv) REDACTED
               else obj_set sanitized (fst kv) (snd kv))
            (entries headers) []).

Definition sanitizeHeaders : value -> value :=
  sanitizeHeadersWith ["authorization"; "cookie"; "x-api-key"; "x-session-id"].

(** *** [sanitizeBody], lines 257-276

    The interceptor has its own copy of this function with a shorter list
    of fields, so the list is a parameter here. *)
Definition redact (sanitized : obj) (field : string) : obj :=
  if truthy (obj_get sanitized field)
  then obj_set sanitized field REDACTED
  else sanitized.

Definition sanitizeBodyWith (sensitiveFields : list string) (body : value)
  : result value :=
  if negb (truthy body) then Ok VNull
  else
    let sanitized := fold_left redact sensitiveFields (entries body) in
    match JSON.stringify (VObj sanitized) with
    | None => Throw TypeError
    | Some bodyStr =>
        if (1000 <? String.length bodyStr)%nat
        then JSON.parse (substring 0 1000 bodyStr +++ "...")
        else Ok (VObj sanitized)
    end.

Definition sensitiveFields : list string :=
  ["password"; "token"; "secret"; "apiKey"; "apikey"; "access_token"].

Definition sanitizeBody : value -> result value :=
  sanitizeBodyWith sensitiveFields.

(** *** [sanitizeResponse], lines 784-795 *)
Definition sanitizeResponse (data : value) : result value :=
  if negb (truthy data) then Ok VNull
  else
    match JSON.stringify data with
    | None => Throw TypeError
    | Some dataStr =>
        if (2000 <? String.length dataStr)%nat
        then
          rbind (JSON.parse (substring 0 2000 dataStr +++ "..."))
            (fun preview =>
               Ok (VObj [("_truncated", VBool true);
                         ("_size", nat_num (String.length dataStr));
                         ("preview", preview)]))
        else Ok data
    end.

(** *** [deepDiff], lines 751-779

    The recursive call is on [prev[key]], a property of [prev]: [descend]
    looks that property up and hands back the recursive call on it, which
    keeps the recursion structural.  [deepDiff_unfold] below states the
    function in the shape of the source.

    The keys come from both sides, so they are written to [diff] in an
    order of their own: [diff[key] = ...] is [obj_put], which gives an
    index its place before the names.  [prev?.[key]] and [curr?.[key]]
    are read as own properties; when a key of one side names a member
    that the other side inherits ([constructor], [toString], ...), the
    code reads that member, a function, which is no [value]: such pairs
    are outside the model ([own_names] below says which values are
    inside). *)
Definition diff_key (descend : string -> option (value -> obj))
    (prev curr : value) (diff : obj) (key : string) : obj :=
  let prevVal := get prev key in
  let currVal := get curr key in
  if is_undefined prevVal && negb (is_undefined currVal) then
    obj_put diff key (VObj [("added", currVal)])
  else if negb (is_undefined prevVal) && is_undefined currVal then
    obj_put diff key (VObj [("removed", prevVal)])
  else if JSON.stringify_differs prevVal currVal then
    if is_plain_object prevVal && is_plain_object currVal then
      let nestedDiff :=
        match descend key with
        | Some deepDiff_prevVal => deepDiff_prevVal currVal
        | None => []
        end in
      if (0 <? List.length nestedDiff)%nat
      then obj_put diff key (VObj nestedDiff)
      else diff
    else
      obj_put diff key (VObj [("previous", prevVal); ("current", currVal)])
  else diff.

Definition allKeys (prev curr : value) : list string :=
  set_of [] (keys prev ++ keys curr).

Fixpoint deepDiff (prev curr : value) {struct prev} : obj :=
  let descend (key : string) : option (value -> obj) :=
    match prev with
    | VObj fs =>
        (fix find (l : obj) : option (value -> obj) :=
           match l with
           | [] => None
           | (k, v) :: l' =>
               if String.eqb k key then Some (deepDiff v) else find l'
           end) fs
    | VArr vs =>
        (fix find (i : nat) (l : list value) : option (value -> obj) :=
           match l with
           | [] => None
           | v :: l' =>
               if String.eqb (string_of_nat i) key then Some (deepDiff v)
               else find (S i) l'
           end) 0 vs
    | _ => None
    end in
  fold_left (diff_key descend prev curr) (allKeys prev curr) [].

(** *** [calculateChanges], lines 692-745 *)
Record CallRecord : Type := MkCallRecord {
  requestBody : value;
  responseBody : value;
  call_timestamp : option Z;
  userId : value;
  eventId : value;
  statusCode : value;
  duration : value;
  method : value;
  path : value;
  url : value
}.

Record Current : Type := MkCurrent {
  cur_requestBody : value;
  cur_responseBody : value
}.

Record Changes : Type := MkChanges {
  hasChanges : bool;
  changes : obj;
  summary : string
}.

(** The two comparisons: the change map and the list of descriptions. *)
Definition compareRequest (previous : CallRecord) (current : Current)
    (acc : obj * list string) : obj * list string :=
  let '(changes, changeList) := acc in
  if truthy (requestBody previous) && truthy (cur_requestBody current) then
    let requestDiff := deepDiff (requestBody previous) (cur_requestBody current) in
    if (0 <? List.length requestDiff)%nat
    then (obj_set changes "request_body" (VObj requestDiff),
          changeList ++ ["Request body changed"])
    else (changes, changeList)
  else if truthy (cur_requestBody current) && negb (truthy (requestBody previous)) then
    (obj_set changes "request_body" (VObj [("added", cur_requestBody current)]),
     changeList ++ ["Request body added"])
  else if truthy (requestBody previous) && negb (truthy (cur_requestBody current)) then
    (obj_set changes "request_body" (VObj [("removed", requestBody previous)]),
     changeList ++ ["Request body removed"])
  else (changes, changeList).

Definition compareResponse (previous : CallRecord) (current : Current)
    (acc : obj * list string) : obj * list string :=
  let '(changes, changeList) := acc in
  if truthy (responseBody previous) && truthy (cur_responseBody current) then
    let responseDiff := deepDiff (responseBody previous) (cur_responseBody current) in
    if (0 <? List.length responseDiff)%nat
    then (obj_set changes "response_body" (VObj responseDiff),
          changeList ++ ["Response body changed"])
    else (changes, changeList)
  else if truthy (cur_responseBody current) && negb (truthy (responseBody previous)) then
    (obj_set changes "response_body" (VObj [("added", cur_responseBody current)]),
     changeList ++ ["Response body added"])
  else if truthy (responseBody previous) && negb (truthy (cur_responseBody current)) then
    (obj_set changes "response_body" (VObj [("removed", responseBody previous)]),
     changeList ++ ["Response body removed"])
  else (changes, changeList).

Definition compareCalls (previous : CallRecord) (current : Current)
  : obj * list string :=
  compareResponse previous current (compareRequest previous current ([], [])).

Definition calculateChanges (previous : option CallRecord) (current : Current)
  : Changes :=
  match previous with
  | None => MkChanges false [] "First call to this endpoint"
  | Some previous =>
      let '(changes, changeList) := compareCalls previous current in
      let hasChanges := (0 <? List.length changes)%nat in
      let summary :=
        if (0 <? List.length changeList)%nat
        then String.concat "; " changeList
        else "No changes detected" in
      MkChanges hasChanges changes summary
  end.

(** *** [getProjectId], lines 504-526 *)

Fixpoint take_until_underscore (s : string) : string :=
  match s with
  | EmptyString => EmptyString
  | String c s' =>
      if Ascii.eqb c "_"%char then EmptyString
      else String c (take_until_underscore s')
  end.

(** [apiKey.match(/phc_([^_]+)/)]: the group of the leftmost match. *)
Fixpoint match_phc (s : string) : option string :=
  match s with
  | EmptyString => None
  | String _ s' =>
      if prefix "phc_" s then
        let group := take_until_underscore (substring 4 (String.length s - 4) s) in
        if String.eqb group EmptyString then match_phc s' else Some group
      else match_phc s'
  end.

Definition is_digit (c : ascii) : bool :=
  let n := nat_of_ascii c in (48 <=? n)%nat && (n <=? 57)%nat.

(** [/^\d+$/.test(s)] *)
Definition all_digits (s : string) : bool :=
  negb (String.eqb s EmptyString) && forallb is_digit (list_ascii_of_string s).

Definition getProjectId (env : Env) (apiKey : string) : M (option string) :=
  if env_set (POSTHOG_PROJECT_ID env) then ret (POSTHOG_PROJECT_ID env)
  else
    match match_phc apiKey with
    | Some extracted =>
        if all_digits extracted then ret (Some extracted)
        else
          log WARN "PostHog project ID not found. Set POSTHOG_PROJECT_ID in .env file" ;;
          ret None
    | None =>
        log WARN "PostHog project ID not found. Set POSTHOG_PROJECT_ID in .env file" ;;
        ret None
    end.

(** *** [tryEventsApiEndpoint], lines 418-498 *)

Definition hex_upper (n : nat) : ascii :=
  nth n (list_ascii_of_string "0123456789ABCDEF") "0"%char.

Definition percent (byte : nat) : string :=
  String "%"%char (String (hex_upper (byte / 16)) (JSON.str1 (hex_upper (byte mod 16)))).

(** One character of [URLSearchParams.prototype.toString()]. *)
Definition form_encode_char (c : ascii) : string :=
  let n := nat_of_ascii c in
  if is_digit c
     || ((65 <=? n)%nat && (n <=? 90)%nat)
     || ((97 <=? n)%nat && (n <=? 122)%nat)
     || Ascii.eqb c "*"%char || Ascii.eqb c "-"%char
     || Ascii.eqb c "."%char || Ascii.eqb c "_"%char
  then JSON.str1 c
  else if Ascii.eqb c " "%char then "+"
  else if (n <? 128)%nat then percent n
  else percent (192 + n / 64) +++ percent (128 + n mod 64).

Fixpoint form_encode (s : string) : string :=
  match s with
  | EmptyString => EmptyString
  | String c s' => form_encode_char c +++ form_encode s'
  end.

Definition URLSearchParams_toString (params : list (string * string)) : string :=
  String.concat "&"
    (map (fun kv => form_encode (fst kv) +++ "=" +++ form_encode (snd kv)) params).

Definition stringify_or_empty (v : value) : string :=
  match JSON.stringify v with Some s => s | None => EmptyString end.

(** [new Date(a || b || Date.now())] *)
Definition new_Date_or_now (env : Env) (a b : value) : M (option Z) :=
  let ts := or_else a b in
  if truthy ts then ret (Date_of env ts)
  else let* t := Date_now env in ret (Date_of env (int t)).

Definition status_line (response : Response) : string :=
  string_of_Z (status response).

(** Lines 421-445: the URL of the events endpoint with its filters. *)
Definition events_url (host projectId method path : string)
    (userId : option string) : string :=
  let propertyFilters :=
    VArr [VObj [("key", VStr "method"); ("value", VStr method);
                ("operator", VStr "exact")];
          VObj [("key", VStr "path"); ("value", VStr path);
                ("operator", VStr "exact")]] in
  let queryParams :=
    [("event", "api_write_request"); ("limit", "1"); ("orderBy", "-timestamp");
     ("properties", stringify_or_empty propertyFilters)]
    ++ match userId with
       | Some u =>
           if negb (String.eqb u EmptyString) && negb (String.eqb u "anonymous")
           then [("distinct_id", u)] else []
       | None => []
       end in
  host +++ "/api/projects/" +++ projectId +++ "/events/?"
  +++ URLSearchParams_toString queryParams.

Definition tryEventsApiEndpoint (env : Env)
    (host projectId apiKey method path : string) (userId : option string)
  : M (option CallRecord) :=
  try_catch
    (let apiUrl := events_url host projectId method path userId in
     let* response := fetch env (MkRequest "GET" apiUrl ("Bearer " +++ apiKey) None) in
     if negb (ok response) then
       let* errorText := lift (text response) in
       log WARN ("Events API also failed: " +++ status_line response
                 +++ ". Response: " +++ errorText) ;;
       ret None
     else
       let* data := lift (json response) in
       let* results := lift (member data "results") in
       let* events :=
         if truthy results then ret results
         else if isArray data then ret data
         else
           let* data_events := lift (member data "events") in
           if truthy data_events then ret data_events else ret (VArr []) in
       if gt0 env (get events "length") then
         let event := get events "0" in
         let* event_properties := lift (member event "properties") in
         let properties :=
           or_else (or_else event_properties (get event "event")) (VObj []) in
         log LOG ("Found previous call via Events API: " +++ method +++ " " +++ path) ;;
         let* timestamp :=
           new_Date_or_now env (get event "timestamp") (get event "created_at") in
         ret (Some
                (MkCallRecord
                   (get properties "request_body")
                   (get properties "response_body")
                   timestamp
                   (or_else (get event "distinct_id") (get event "user_id"))
                   (or_else (or_else (get event "uuid") (get event "id"))
                            (get event "event_id"))
                   (get properties "status_code")
                   (get properties "duration_ms")
                   (get properties "method")
                   (get properties "path")
                   (get properties "url")))
       else ret None)
    (fun _ => log ERROR "Events API fallback also failed" ;; ret None).

(** *** [getPreviousCallFromPostHog], lines 302-413 *)

Definition queryBody (method path : string) : value :=
  VObj [("query",
         VObj [("kind", VStr "EventsQuery");
               ("select", VArr [VStr "*"]);
               ("event", VStr "api_write_request");
               ("where", VArr [VStr ("properties.method = '" +++ method +++ "'");
                               VStr ("properties.path = '" +++ path +++ "'")]);
               ("orderBy", VArr [VStr "timestamp DESC"]);
               ("limit", int 1)])].

Definition query_url (host projectId : string) : string :=
  host +++ "/api/projects/" +++ projectId +++ "/query/".

Definition getPreviousCallFromPostHog (env : Env) (method path : string)
    (userId : option string) : M (option CallRecord) :=
  try_catch
    (let personalApiKey := POSTHOG_PERSONAL_API_KEY env in
     let projectApiKey := POSTHOG_API_KEY env in
     let apiKey := if env_set personalApiKey then personalApiKey else projectApiKey in
     let host := env_or (POSTHOG_HOST env) default_host in
     match apiKey with
     | None =>
         log WARN "PostHog API key not configured - cannot query for previous calls" ;;
         ret None
     | Some apiKey =>
         if unconfigured apiKey then
           log WARN "PostHog API key not configured - cannot query for previous calls" ;;
           ret None
         else
           when (negb (env_set personalApiKey) && env_set projectApiKey)
             (log WARN "Using Project API Key for querying - this may fail!" ;;
              log WARN "   PostHog Query API requires Personal API Key" ;;
              log WARN "   Get one from: https://app.posthog.com/personal-api-keys" ;;
              log WARN "   Set it as POSTHOG_PERSONAL_API_KEY in your .env file") ;;
           let* projectId := getProjectId env apiKey in
           match projectId with
           | None =>
               log WARN "Could not extract project ID from API key - cannot query for previous calls" ;;
               log WARN "   Set POSTHOG_PROJECT_ID in your .env file" ;;
               ret None
           | Some projectId =>
               let apiUrl := query_url host projectId in
               let* response :=
                 fetch env (MkRequest "POST" apiUrl ("Bearer " +++ apiKey)
                              (JSON.stringify (queryBody method path))) in
               if negb (ok response) then
                 let* errorText := lift (text response) in
                 log WARN ("PostHog Query API failed: " +++ status_line response
                           +++ " " +++ statusText response) ;;
                 log WARN ("Response: " +++ errorText) ;;
                 tryEventsApiEndpoint env host projectId apiKey method path userId
               else
                 let* data := lift (json response) in
                 let* results := lift (member data "results") in
                 if truthy results && gt0 env (get results "length") then
                   let result := get results "0" in
                   let eventData := if isArray result then get result "0" else result in
                   let properties :=
                     or_else (or_else (get eventData "properties") eventData) (VObj []) in
                   log LOG ("Found previous call in PostHog: " +++ method +++ " " +++ path) ;;
                   let* timestamp :=
                     new_Date_or_now env (get properties "timestamp")
                       (get eventData "timestamp") in
                   ret (Some
                          (MkCallRecord
                             (get properties "request_body")
                             (get properties "response_body")
                             timestamp
                             (or_else (get properties "user_id")
                                      (get eventData "distinct_id"))
                             (or_else (get eventData "uuid") (get eventData "id"))
                             (get properties "status_code")
                             (get properties "duration_ms")
                             (get properties "method")
                             (get properties "path")
                             (get properties "url")))
                 else
                   log WARN ("No events found in PostHog Query API response for "
                             +++ method +++ " " +++ path) ;;
                   ret None
           end
     end)
    (fun _ => log ERROR "Error querying PostHog for previous call" ;; ret None).

(** *** [trackError], lines 169-232 *)

Record ErrorDetails : Type := MkErrorDetails {
  errorName : string;
  errorMessage : value;
  errorStack : option string;
  err_userId : string;
  err_sessionId : option string;
  context : option obj;
  errorType : option string
}.

Definition not_anonymous (userId : string) : bool :=
  negb (String.eqb userId EmptyString) && negb (String.eqb userId "anonymous").

Definition trackError (env : Env) (details : ErrorDetails) : M unit :=
  let errorType := env_or (errorType details) "backend_error" in
  let posthogHost := env_or (POSTHOG_HOST env) default_host in
  let* iso := now_iso env in
  let properties : obj :=
    [("error_name", VStr (errorName details));
     ("error_message", errorMessage details);
     ("error_type", VStr errorType);
     ("timestamp", VStr iso)] in
  let properties :=
    match errorStack details with
    | Some stack =>
        if String.eqb stack EmptyString then properties
        else obj_set properties "error_stack" (VStr stack)
    | None => properties
    end in
  let* properties :=
    match context details with
    | Some context =>
        let sanitizedContext := context in
        let sanitizedContext :=
          if truthy (obj_get sanitizedContext "requestHeaders")
          then obj_set sanitizedContext "requestHeaders"
                 (sanitizeHeaders (obj_get sanitizedContext "requestHeaders"))
          else sanitizedContext in
        let* sanitizedContext :=
          if truthy (obj_get sanitizedContext "requestBody")
          then
            let* b := lift (sanitizeBody (obj_get sanitizedContext "requestBody")) in
            ret (obj_set sanitizedContext "requestBody" b)
          else ret sanitizedContext in
        ret (obj_set properties "context" (VObj sanitizedContext))
    | None => ret properties
    end in
  let* properties :=
    match err_sessionId details with
    | Some sessionId =>
        if String.eqb sessionId EmptyString then ret properties
        else
          let apiKey := env_or (POSTHOG_API_KEY env) placeholder in
          let* projectId := getProjectId env apiKey in
          let properties := obj_set properties "$session_id" (VStr sessionId) in
          let* properties :=
            match projectId with
            | Some projectId =>
                ret (obj_set properties "session_replay_url"
                       (VStr (posthogHost +++ "/project/" +++ projectId
                              +++ "/replay/" +++ sessionId)))
            | None =>
                let properties :=
                  obj_set properties "session_replay_url"
                    (VStr (posthogHost +++ "/replay/" +++ sessionId)) in
                log WARN "Could not extract project ID for session replay URL" ;;
                ret properties
            end in
          ret (obj_set properties "$error_with_session_replay" (VBool true))
    | None => ret properties
    end in
  let properties :=
    if not_anonymous (err_userId details)
    then obj_set properties "user_id" (VStr (err_userId details))
    else properties in
  track env (err_userId details) "error_occurred" properties.

(** *** [trackWriteRequestWithComparison], lines 532-633 *)

Record WriteDetails : Type := MkWriteDetails {
  wd_method : string;
  wd_path : string;
  wd_url : string;
  wd_requestBody : value;
  wd_responseBody : value;
  wd_statusCode : Z;
  wd_userId : string;
  wd_duration : Z;
  wd_sessionId : option string
}.

(** [date.toISOString()], a [RangeError] on an Invalid Date. *)
Definition toISOString (env : Env) (date : option Z) : result string :=
  match date with
  | Some t => Ok (Date_toISOString env t)
  | None => Throw RangeError
  end.

(** Lines 547-558: the lookup, with its own [try]/[catch]. *)
Definition lookupPreviousCall (env : Env) (details : WriteDetails)
  : M (option CallRecord) :=
  try_catch
    (let* previousCall :=
       getPreviousCallFromPostHog env (wd_method details) (wd_path details)
         (Some (wd_userId details)) in
     match previousCall with
     | None =>
         log WARN ("No previous call found for " +++ wd_method details +++ " "
                   +++ wd_path details
                   +++ " - Try waiting 10-30 seconds between API calls") ;;
         ret None
     | Some _ => ret previousCall
     end)
    (fun _ =>
       log ERROR "Error getting previous call from PostHog API" ;;
       ret None).

(** Lines 560-629: the properties of the event, built from the previous
    call the lookup gave and the time stamp read at line 572. *)
Definition writeProperties (env : Env) (details : WriteDetails)
    (previousCall : option CallRecord) (iso : string) : result obj :=
  let changes :=
    calculateChanges previousCall
      (MkCurrent (wd_requestBody details) (wd_responseBody details)) in
  let properties : obj :=
    [("method", VStr (wd_method details));
     ("path", VStr (wd_path details));
     ("url", VStr (wd_url details));
     ("status_code", int (wd_statusCode details));
     ("duration_ms", int (wd_duration details));
     ("timestamp", VStr iso)] in
  rbind
    (if truthy (wd_requestBody details)
     then rbind (sanitizeBody (wd_requestBody details))
            (fun b => Ok (obj_set properties "request_body" b))
     else Ok properties)
    (fun properties =>
  rbind
    (if truthy (wd_responseBody details)
     then rbind (sanitizeResponse (wd_responseBody details))
            (fun b => Ok (obj_set properties "response_body" b))
     else Ok properties)
    (fun properties =>
  rbind
    match previousCall with
    | Some previousCall =>
        rbind (sanitizeBody (requestBody previousCall)) (fun request_body =>
        rbind (sanitizeResponse (responseBody previousCall)) (fun response_body =>
        rbind (toISOString env (call_timestamp previousCall)) (fun timestamp =>
        let properties :=
          obj_set properties "previous_call"
            (VObj [("request_body", request_body);
                   ("response_body", response_body);
                   ("timestamp", VStr timestamp);
                   ("status_code", statusCode previousCall);
                   ("duration_ms", duration previousCall);
                   ("method", method previousCall);
                   ("path", path previousCall);
                   ("url", url previousCall);
                   ("user_id", userId previousCall);
                   ("event_id", eventId previousCall)]) in
        rbind (sanitizeBody (requestBody previousCall)) (fun previous_request_body =>
        let properties :=
          obj_set properties "previous_request_body" previous_request_body in
        rbind (sanitizeResponse (responseBody previousCall)) (fun previous_response_body =>
        let properties :=
          obj_set properties "previous_response_body" previous_response_body in
        rbind (toISOString env (call_timestamp previousCall)) (fun previous_timestamp =>
        let properties :=
          obj_set properties "previous_timestamp" (VStr previous_timestamp) in
        let properties :=
          obj_set properties "previous_status_code" (statusCode previousCall) in
        let properties :=
          obj_set properties "previous_duration_ms" (duration previousCall) in
        Ok (if truthy (eventId previousCall)
            then obj_set properties "previous_event_id" (eventId previousCall)
            else properties)))))))
    | None => Ok properties
    end
    (fun properties =>
  let properties :=
    if hasChanges changes then
      let properties := obj_set properties "changes" (VObj (PosthogService.changes changes)) in
      let properties := obj_set properties "change_summary" (VStr (summary changes)) in
      obj_set properties "is_first_call" (VBool false)
    else
      obj_set properties "is_first_call"
        (VBool match previousCall with None => true | Some _ => false end) in
  let properties :=
    match wd_sessionId details with
    | Some sessionId =>
        if String.eqb sessionId EmptyString then properties
        else obj_set properties "$session_id" (VStr sessionId)
    | None => properties
    end in
  Ok (if not_anonymous (wd_userId details)
      then obj_set properties "user_id" (VStr (wd_userId details))
      else properties)))).

Definition trackWriteRequestWithComparison (env : Env) (details : WriteDetails)
  : M unit :=
  let* previousCall := lookupPreviousCall env details in
  let* iso := now_iso env in
  let* properties := lift (writeProperties env details previousCall iso) in
  track env (wd_userId details) "api_write_request" properties.

(** *** [clearEventLog], lines 140-143 *)
Definition clearEventLog : M unit :=
  set_eventLog [] ;; log LOG "PostHog event log cleared".

(** *** [getStatus], lines 281-290

    [configured] is [apiKey && apiKey !== 'phc_your_api_key_here']; the
    key read with its fallback is never empty, so this is a boolean. *)
Record Status : Type := MkStatus {
  configured : bool;
  status_host : string;
  eventLogSize : nat
}.

Definition getStatus (env : Env) (w : World) : Status :=
  let apiKey := env_or (POSTHOG_API_KEY env) placeholder in
  let host := env_or (POSTHOG_HOST env) default_host in
  MkStatus (negb (String.eqb apiKey EmptyString)
            && negb (String.eqb apiKey placeholder))
           host
           (List.length (eventLog w)).

(** *** [trackApiRequest], lines 639-687 *)
Record ApiDetails : Type := MkApiDetails {
  ad_method : string;
  ad_path : string;
  ad_url : string;
  ad_requestBody : value;
  ad_responseBody : value;
  ad_statusCode : Z;
  ad_userId : string;
  ad_duration : Z;
  ad_sessionId : option string;
  ad_query : value
}.

(** Lines 651-683: the properties of the event. *)
Definition apiProperties (details : ApiDetails) (iso : string) : result obj :=
  let properties : obj :=
    [("method", VStr (ad_method details));
     ("path", VStr (ad_path details));
     ("url", VStr (ad_url details));
     ("status_code", int (ad_statusCode details));
     ("duration_ms", int (ad_duration details));
     ("timestamp", VStr iso)] in
  rbind
    (if truthy (ad_requestBody details)
     then rbind (sanitizeBody (ad_requestBody details))
            (fun b => Ok (obj_set properties "request_body" b))
     else Ok properties)
    (fun properties =>
  let properties :=
    if truthy (ad_query details)
       && (0 <? List.length (keys (ad_query details)))%nat
    then obj_set properties "query_params" (ad_query details)
    else properties in
  rbind
    (if truthy (ad_responseBody details)
     then rbind (sanitizeResponse (ad_responseBody details))
            (fun b => Ok (obj_set properties "response_body" b))
     else Ok properties)
    (fun properties =>
  let properties :=
    match ad_sessionId details with
    | Some sessionId =>
        if String.eqb sessionId EmptyString then properties
        else obj_set properties "$session_id" (VStr sessionId)
    | None => properties
    end in
  Ok (if not_anonymous (ad_userId details)
      then obj_set properties "user_id" (VStr (ad_userId details))
      else properties))).

Definition trackApiRequest (env : Env) (details : ApiDetails) : M unit :=
  let* iso := now_iso env in
  let* properties := lift (apiProperties details iso) in
  track env (ad_userId details) "api_request" properties.

End PosthogService.

(** ** [PosthogInterceptor] *)

Module PosthogInterceptor.

Record HttpRequest : Type := MkHttpRequest {
  http_method : string;
  http_url : string;
  route_path : option string;
  http_path : string;
  query : value;
  body : value;
  headers : obj;
  (** [request.user?.id?.toString()] *)
  user_id : option string
}.

Record HttpError : Type := MkHttpError {
  constructor_name : option string;
  message : value;
  stack : option string;
  error_status : option Z
}.

(** What [next.handle()] delivers: the handler's result, or its error. *)
Inductive Handled : Type :=
| Returns (responseData : value)
| Fails (error : HttpError).

(** Lines 211-231: the interceptor's copy of [sanitizeBody]. *)
Definition sensitiveFields : list string :=
  ["password"; "token"; "secret"; "apiKey"; "apikey"].

Definition sanitizeBody : value -> result value :=
  PosthogService.sanitizeBodyWith sensitiveFields.

(** Lines 233-249. *)
Definition sanitizeHeaders : value -> value :=
  PosthogService.sanitizeHeadersWith ["authorization"; "cookie"; "x-api-key"].

(** Lines 251-265: the same text as the service's [sanitizeResponse]. *)
Definition sanitizeResponse : value -> result value :=
  PosthogService.sanitizeResponse.

(** [['POST', 'PUT', 'PATCH'].includes(method)] *)
Definition shouldTrack (method : string) : bool :=
  mem method ["POST"; "PUT"; "PATCH"].

(** [x || fallback] on a status code. *)
Definition status_or (x : option Z) (fallback : Z) : Z :=
  match x with
  | Some n => if (n =? 0)%Z then fallback else n
  | None => fallback
  end.

(** [headers['x-session-id'] || undefined] *)
Definition session_id (headers : obj) : option string :=
  match obj_get headers "x-session-id" with
  | VStr s => if String.eqb s EmptyString then None else Some s
  | _ => None
  end.

(** Lines 142-209.  [statusCode] is [response.statusCode]; [handled] is
    what the route handler does once the interceptor lets the call
    through. *)
Definition intercept (env : Env) (request : HttpRequest)
    (statusCode : option Z) (handled : Handled) : M unit :=
  let* startTime := Date_now env in
  let method := http_method request in
  let url := http_url request in
  let path := env_or (route_path request) (http_path request) in
  let query := query request in
  let* body := lift (sanitizeBody (body request)) in
  let headers := sanitizeHeaders (VObj (headers request)) in
  let sessionId := session_id (PosthogInterceptor.headers request) in
  let shouldTrack := shouldTrack method in
  let currentUserId := env_or (user_id request) "anonymous" in
  match handled with
  | Returns responseData =>
      if shouldTrack then
        let* now := Date_now env in
        let duration := (now - startTime)%Z in
        let statusCode := status_or statusCode 200 in
        let* response := lift (sanitizeResponse responseData) in
        PosthogService.trackWriteRequestWithComparison env
          (PosthogService.MkWriteDetails method path url body response
             statusCode currentUserId duration sessionId)
      else ret tt
  | Fails error =>
      let* now := Date_now env in
      let duration := (now - startTime)%Z in
      let statusCode := status_or (error_status error) 500 in
      let currentUserId := env_or (user_id request) "anonymous" in
      let* iso := PosthogService.now_iso env in
      PosthogService.trackError env
        (PosthogService.MkErrorDetails
           (env_or (constructor_name error) "Error")
           (message error)
           (option_map (substring 0 1000) (stack error))
           currentUserId
           sessionId
           (Some [("method", VStr method);
                  ("url", VStr url);
                  ("path", VStr path);
                  ("query", query);
                  ("requestBody", body);
                  ("requestHeaders", headers);
                  ("statusCode", int statusCode);
                  ("duration", int duration);
                  ("timestamp", VStr iso)])
           None)
  end.

End PosthogInterceptor.

(** ** [PosthogController] *)

Module PosthogController.

(** White space as [parseInt] skips it, among the code units below 256. *)
Definition is_space (c : ascii) : bool :=
  let n := nat_of_ascii c in
  ((9 <=? n)%nat && (n <=? 13)%nat) || (n =? 32)%nat || (n =? 160)%nat.

Fixpoint skip_spaces (s : string) : string :=
  match s with
  | String c s' => if is_space c then skip_spaces s' else s
  | EmptyString => EmptyString
  end.

(** The value of the longest prefix of decimal digits; [None] when there
    is no digit. *)
Fixpoint digits_value (acc : Z) (seen : bool) (s : string) : option Z :=
  match s with
  | String c s' =>
      match JSON.digit_of c with
      | Some d => digits_value (10 * acc + d) true s'
      | None => if seen then Some acc else None
      end
  | EmptyString => if seen then Some acc else None
  end.

(** [parseInt(s, 10)]; [None] is [NaN]. *)
Definition parseInt (s : string) : option Z :=
  match skip_spaces s with
  | String c s' =>
      if Ascii.eqb c "-"%char then option_map Z.opp (digits_value 0 false s')
      else if Ascii.eqb c "+"%char then digits_value 0 false s'
      else digits_value 0 false (String c s')
  | EmptyString => None
  end.

Record EventsResponse : Type := MkEventsResponse {
  events : list PosthogService.TrackedEventDto;
  count : nat;
  note : string;
  dashboardUrl : string
}.

(** Lines 89-99.  [limit] is the query parameter, [None] when absent.
    When [parseInt] gives [NaN] so does [Math.min], and the service
    evaluates [slice(-NaN)], which is [slice(0)] as for the limit 0. *)
Definition getRecentEvents (w : World) (limit : option string) : EventsResponse :=
  let limitNum :=
    match limit with
    | Some s =>
        if String.eqb s EmptyString then 50%Z
        else match parseInt s with
             | Some n => Z.min n 100
             | None => 0%Z
             end
    | None => 50%Z
    end in
  let events := PosthogService.getRecentEvents w (Some limitNum) in
  MkEventsResponse events (List.length events)
    "These are local logs. View all events in PostHog dashboard at https://app.posthog.com"
    "https://app.posthog.com".

(** Lines 123-129. *)
Definition clearEvents : M (string * string) :=
  PosthogService.clearEventLog ;;
  ret ("Event log cleared successfully",
       "This only clears local logs. Events in PostHog Cloud are not affected.").

End PosthogController.

(** ** The specification's wording, for comparison *)

Module Spec.

(** Section 4.1: the configured sensitive-field set. *)
Definition sensitive_set : list string :=
  ["password"; "token"; "secret"; "apiKey"; "access_token"].

(** Section 4.1: "replaces any field whose key case-insensitively matches
    a configured sensitive-field set with a redaction marker". *)
Definition matches_case_insensitively (key : string) : bool :=
  mem (PosthogService.toLowerCase key)
      (map PosthogService.toLowerCase sensitive_set).

Definition redact_fields (fs : obj) : obj :=
  map (fun kv => if matches_case_insensitively (fst kv)
                 then (fst kv, PosthogService.REDACTED) else kv) fs.

End Spec.

(** ** Sample payloads *)

Module Samples.

Fixpoint repeat_char (c : ascii) (n : nat) : string :=
  match n with
  | O => EmptyString
  | S n' => String c (repeat_char c n')
  end.

(** [{"note": "aaa...a"}] with a thousand letters. *)
Definition long_note : value :=
  VObj [("note", VStr (repeat_char "a"%char 1000))].

(** A string of two thousand letters. *)
Definition long_text : value := VStr (repeat_char "a"%char 2000).

(** [{"token": "a", "pad": "xxx...x"}]: its own serialization has exactly
    1000 characters, the serialization of its redacted copy has 1009. *)
Definition padded_token : value :=
  VObj [("token", VStr "a"); ("pad", VStr (repeat_char "x"%char 978))].

Definition scenario_D : value :=
  VObj [("password", VStr "secret123"); ("name", VStr "x")].

Definition capitalised_password : value :=
  VObj [("Password", VStr "secret123"); ("name", VStr "x")].

(** A sensitive key inside a nested object, and falsy sensitive fields. *)
Definition nested_and_falsy : value :=
  VObj [("user", VObj [("password", VStr "secret123")]);
        ("password", VStr EmptyString);
        ("token", int 0);
        ("secret", VBool false);
        ("apiKey", VNull);
        ("name", VStr "x")].

End Samples.

Module LogSamples.

Definition first_event : TrackedEvent :=
  MkTrackedEvent "user_1" "api_write_request" [("method", VStr "POST")] 1.

Definition second_event : TrackedEvent :=
  MkTrackedEvent "user_1" "error_occurred" [("error_name", VStr "Error")] 2.

(** A world whose event log holds two entries, oldest first. *)
Definition two_events : World :=
  MkWorld [first_event; second_event] [] [] [] 0.

End LogSamples.


(** * Notions used in the statements *)

Import JSON.
Import PosthogService.

(** ** The parser *)

(** After a dot the parser is inside a string or waits for the first digit
    of a fraction. *)
Definition after_dot (st : pstate) : Prop :=
  match lex st with
  | LStr _ _ => True
  | LNum NDot _ => True
  | _ => False
  end.

(** ** Redaction *)

(** What the loop of [sanitizeBody] computes on a body with the fields
    [fs]: a field is replaced when its key is one of [fields], exactly as
    spelt, and its value is truthy. *)
Definition redacts (fields : list string) (kv : string * value) : bool :=
  mem (fst kv) fields && truthy (snd kv).

Definition redacted (fields : list string) (fs : obj) : obj :=
  map (fun kv => if redacts fields kv then (fst kv, REDACTED) else kv) fs.

Definition serialized_length (v : value) : nat :=
  match JSON.stringify v with
  | Some s => String.length s
  | None => 0
  end.

(** The output [out] of the sanitizer against the fields [fs] of the body:
    the same keys, the same values but for the listed keys with a truthy
    value, and every other field kept as it is. *)
Definition redaction_of (fields : list string) (fs out : obj) : Prop :=
  map fst out = map fst fs
  /\ (forall key,
        obj_get out key =
        if mem key fields && truthy (obj_get fs key)
        then REDACTED else obj_get fs key)
  /\ (forall key v, In (key, v) fs ->
        mem key fields = false \/ truthy v = false -> In (key, v) out).

(** ** The differ *)

Definition descend_into (prev : value) (key : string) : option (value -> obj) :=
  match prev with
  | VObj fs => option_map deepDiff (lookup key fs)
  | VArr vs => option_map deepDiff (at_index key 0 vs)
  | _ => None
  end.

(** The body of the loop as the source has it, with the recursive call on
    [prevVal]. *)
Definition deepDiff_step (prev curr : value) (diff : obj) (key : string) : obj :=
  let prevVal := get prev key in
  let currVal := get curr key in
  if is_undefined prevVal && negb (is_undefined currVal) then
    obj_put diff key (VObj [("added", currVal)])
  else if negb (is_undefined prevVal) && is_undefined currVal then
    obj_put diff key (VObj [("removed", prevVal)])
  else if JSON.stringify_differs prevVal currVal then
    if is_plain_object prevVal && is_plain_object currVal then
      let nestedDiff := deepDiff prevVal currVal in
      if (0 <? List.length nestedDiff)%nat
      then obj_put diff key (VObj nestedDiff)
      else diff
    else
      obj_put diff key (VObj [("previous", prevVal); ("current", currVal)])
  else diff.

(** ** The change summary *)

Definition descriptions : list string :=
  ["Request body changed"; "Request body added"; "Request body removed";
   "Response body changed"; "Response body added"; "Response body removed"].

Definition old_item : value := VObj [("name", VStr "Old Item")].
Definition new_item : value := VObj [("name", VStr "New Item")].








(** ** Effects *)

(** [c] keeps the relation [P] between the world before and after. *)
Definition frame {A : Type} (P : World -> World -> Prop) (c : M A) : Prop :=
  forall w, P w (snd (c w)).

(** Nothing is emitted: the event log and the outbox stay as they are. *)
Definition quiet (w w' : World) : Prop :=
  eventLog w' = eventLog w /\ outbox w' = outbox w.

(** ** The lookup of the previous call *)

Definition events_request (host pid key method path : string)
    (userId : option string) : Request :=
  MkRequest "GET" (events_url host pid method path userId) ("Bearer " +++ key) None.

(** The key used for querying: the personal key before the project key,
    [None] when neither is usable. *)
Definition query_key (env : Env) : option string :=
  match (if env_set (POSTHOG_PERSONAL_API_KEY env)
         then POSTHOG_PERSONAL_API_KEY env else POSTHOG_API_KEY env) with
  | Some key => if unconfigured key then None else Some key
  | None => None
  end.

(** The project id: the configured one, or the digits of a key of the
    shape [phc_<digits>]. *)
Definition project_of (env : Env) (apiKey : string) : option string :=
  if env_set (POSTHOG_PROJECT_ID env) then POSTHOG_PROJECT_ID env
  else match match_phc apiKey with
       | Some extracted => if all_digits extracted then Some extracted else None
       | None => None
       end.

(** Host, project id and key of the queries, when the configuration
    allows querying at all. *)
Definition query_target (env : Env) : option (string * string * string) :=
  match query_key env with
  | Some key =>
      match project_of env key with
      | Some pid => Some (env_or (POSTHOG_HOST env) default_host, pid, key)
      | None => None
      end
  | None => None
  end.

Definition query_request (host pid key method path : string) : Request :=
  MkRequest "POST" (query_url host pid) ("Bearer " +++ key)
            (JSON.stringify (queryBody method path)).

(** What a response of either endpoint with no usable event leads to. *)
Definition no_event (response : Response) (r : option CallRecord) : Prop :=
  match json response with
  | Throw _ => r = None
  | Ok data => get data "results" = VArr [] -> r = None
  end.

(** The decision table of the lookup. *)
Definition lookup_outcome (env : Env) (method path : string)
    (userId : option string) (w w' : World) (r : option CallRecord) : Prop :=
  match query_target env with
  | None => r = None /\ requests w' = requests w
  | Some (host, pid, key) =>
      let q := query_request host pid key method path in
      let e := events_request host pid key method path userId in
      match fetch_outcome env (ticks w) q with
      | Rejected _ => r = None /\ requests w' = requests w ++ [q]
      | Resolved response =>
          if ok response then
            requests w' = requests w ++ [q] /\ no_event response r
          else
            match text response with
            | Throw _ => r = None /\ requests w' = requests w ++ [q]
            | Ok _ =>
                requests w' = requests w ++ [q; e] /\
                match fetch_outcome env (S (ticks w)) e with
                | Rejected _ => r = None
                | Resolved fallback =>
                    if ok fallback then no_event fallback r else r = None
                end
            end
      end
  end.

(** ** Emissions *)

(** The ingestion key is absent, empty or the placeholder. *)
Definition key_unconfigured (env : Env) : Prop :=
  POSTHOG_API_KEY env = None
  \/ POSTHOG_API_KEY env = Some EmptyString
  \/ POSTHOG_API_KEY env = Some placeholder.

(** From [w] to [w'] the events [sent] went to the PostHog client and the
    events [logged] to the local log, which may have dropped its oldest
    entries. *)
Definition emitted_since (w w' : World)
    (sent : list CaptureData) (logged : list TrackedEvent) : Prop :=
  outbox w' = outbox w ++ sent
  /\ exists k, eventLog w' = skipn k (eventLog w ++ logged).

(** [c] emits at most one event, and only one that satisfies [S] (as handed
    to the client) and [L] (as kept in the local log). *)
Definition emits {A : Type} (S : CaptureData -> Prop) (L : TrackedEvent -> Prop)
    (c : M A) : Prop :=
  forall w, exists sent logged,
    emitted_since w (snd (c w)) sent logged
    /\ List.length sent <= 1 /\ List.length logged <= 1
    /\ Forall S sent /\ Forall L logged.

(** What the client receives: the properties with the three stamps. *)
Definition stamped (properties : obj) (iso : string) : obj :=
  assign properties
    [("timestamp", VStr iso); ("$lib", VStr "posthog-node");
     ("$lib_version", VStr "4.0.0")].

Definition sent_as (distinctId eventName : string) (properties : obj)
    (data : CaptureData) : Prop :=
  cap_distinctId data = distinctId /\ cap_event data = eventName
  /\ exists iso, cap_properties data = stamped properties iso.

Definition logged_as (id name : string) (props : obj)
    (event : TrackedEvent) : Prop :=
  distinctId event = id /\ eventName event = name /\ properties event = props.

(** ** The write event *)

Definition is_none {A : Type} (x : option A) : bool :=
  match x with None => true | Some _ => false end.


(** ** The interceptor *)

Definition sent_named (name : string) (data : CaptureData) : Prop :=
  cap_event data = name.

Definition logged_named (name : string) (event : TrackedEvent) : Prop :=
  eventName event = name.

(** What the interceptor may emit for a call. *)
Definition allowed (request : PosthogInterceptor.HttpRequest)
    (handled : PosthogInterceptor.Handled) (name : string) : Prop :=
  (name = "api_write_request" ->
   In (PosthogInterceptor.http_method request) ["POST"; "PUT"; "PATCH"]
   /\ exists responseData, handled = PosthogInterceptor.Returns responseData)
  /\ (forall error, handled = PosthogInterceptor.Fails error ->
      name = "error_occurred").

(** ** Sample environments *)

Module Envs.

(** An environment with the given ingestion key and project id 42, a
    clock that counts the ticks, and a PostHog client that accepts every
    event; [answer] is the remote store. *)
Definition sample (key : option string) (answer : nat -> Request -> FetchOutcome)
  : Env :=
  MkEnv key None None (Some "42")
        (fun n => Z.of_nat n) (fun _ => Some 0%Z)
        (fun _ => "2024-01-15T10:30:00.000Z") (fun _ => None)
        answer (fun _ _ => false).

Definition answers (data : value) : FetchOutcome :=
  Resolved (MkResponse true 200 "OK" (Ok EmptyString) (Ok data)).

Definition unauthorized : FetchOutcome :=
  Resolved (MkResponse false 401 "Unauthorized" (Ok "no") (Throw SyntaxError)).

(** No ingestion key at all. *)
Definition no_key : Env := sample None (fun _ _ => unauthorized).

(** A store that knows no event. *)
Definition empty_store : Env :=
  sample (Some "phc_test") (fun _ _ => answers (VObj [("results", VArr [])])).

(** A store that holds an earlier [POST /items] with the old item. *)
Definition with_history : Env :=
  sample (Some "phc_test")
    (fun _ _ =>
       answers
         (VObj [("results",
                 VArr [VArr [VObj [("properties",
                                    VObj [("request_body", old_item);
                                          ("method", VStr "POST");
                                          ("path", VStr "/items")]);
                                   ("timestamp", VStr "2024-01-01")]]])])).

(** A store that refuses both endpoints. *)
Definition refusing : Env := sample (Some "phc_test") (fun _ _ => unauthorized).

(** A store whose connection fails. *)
Definition unreachable : Env :=
  sample (Some "phc_test") (fun _ _ => Rejected (OtherError "fetch failed")).

Definition nothing : World := MkWorld [] [] [] [] 0.

Definition post_item : WriteDetails :=
  MkWriteDetails "POST" "/items" "/api/items" new_item VUndefined 201 "7" 12
                 (Some "s1").


Definition http (method : string) : PosthogInterceptor.HttpRequest :=
  PosthogInterceptor.MkHttpRequest method "/api/items" (Some "/items") "/items"
    (VObj []) new_item [("x-session-id", VStr "s1")] (Some "7").

Definition not_found : PosthogInterceptor.HttpError :=
  PosthogInterceptor.MkHttpError (Some "NotFoundException") (VStr "Item not found")
    (Some "NotFoundException: Item not found") (Some 404%Z).

End Envs.

(** * Further notions *)

(** ** The event log *)

(** The last [n] entries of a list. *)
Definition last_n {A : Type} (n : nat) (l : list A) : list A :=
  skipn (List.length l - n) l.

(** What a call of [track] is about: the id, the event name, the
    properties. *)
Definition call_of (event : TrackedEvent) : string * string * obj :=
  (distinctId event, eventName event, properties event).

(** A run of calls of [track], one after the other. *)
Fixpoint track_all (env : Env) (calls : list (string * string * obj)) : M unit :=
  match calls with
  | [] => ret tt
  | (id, name, props) :: rest =>
      track env id name props ;; track_all env rest
  end.

(** How many entries [getRecentEvents] returns from a log of [len]
    entries: the limit when it is positive, all of them when it is 0, and
    all but that many of the oldest when it is negative. *)
Definition returned (len : nat) (limit : option Z) : nat :=
  let n := match limit with Some n => n | None => 50%Z end in
  if (0 <? n)%Z then Nat.min (Z.to_nat n) len else len - Z.to_nat (- n).

(** ** Sanitizers *)

(** The field [f] of [s] is marked or falsy. *)
Definition marked (s : obj) (f : string) : Prop :=
  truthy (obj_get s f) = true -> obj_get s f = REDACTED.

(** No listed field of [v] holds a truthy value other than the marker. *)
Definition no_clear_secret (fields : list string) (v : value) : Prop :=
  forall f, In f fields -> truthy (get v f) = true -> get v f = REDACTED.

(** The request bodies an event carries (the current one, and those of
    the previous call) hold no listed field in clear. *)
Definition request_bodies_redacted (props : obj) : Prop :=
  no_clear_secret sensitiveFields (obj_get props "request_body")
  /\ no_clear_secret sensitiveFields (obj_get props "previous_request_body")
  /\ no_clear_secret sensitiveFields
       (get (obj_get props "previous_call") "request_body").

(** ** Headers *)


(** ** The entries of a diff *)

(** What the loop of [deepDiff] writes at [key], if anything. *)
Definition diff_entry (prev curr : value) (key : string) : option value :=
  let prevVal := get prev key in
  let currVal := get curr key in
  if is_undefined prevVal && negb (is_undefined currVal) then
    Some (VObj [("added", currVal)])
  else if negb (is_undefined prevVal) && is_undefined currVal then
    Some (VObj [("removed", prevVal)])
  else if JSON.stringify_differs prevVal currVal then
    if is_plain_object prevVal && is_plain_object currVal then
      match deepDiff prevVal currVal with
      | [] => None
      | nestedDiff => Some (VObj nestedDiff)
      end
    else Some (VObj [("previous", prevVal); ("current", currVal)])
  else None.

(** The keys for which the loop writes an entry, in the order in which it
    meets them. *)
Definition written (prev curr : value) : list string :=
  filter (fun key => match diff_entry prev curr key with
                     | Some _ => true
                     | None => false
                     end)
         (allKeys prev curr).

(** The keys that are names, not array indices. *)
Definition named_keys (l : list string) : list string :=
  filter (fun key => negb (is_index key)) l.

Definition index_le (i : N) (key : string) : bool :=
  match index_of key with
  | Some j => (i <=? j)%N
  | None => true
  end.

(** The order in which an object enumerates its keys: the array indices
    first, in ascending order, and then the names. *)
Fixpoint js_ordered (l : list string) : bool :=
  match l with
  | [] => true
  | key :: l' =>
      match index_of key with
      | Some i => forallb (index_le i) l' && js_ordered l'
      | None => forallb (fun k => negb (is_index k)) l'
      end
  end.

(** The members that every object inherits from [Object.prototype]. *)
Definition Object_prototype_members : list string :=
  ["constructor"; "__defineGetter__"; "__defineSetter__"; "hasOwnProperty";
   "__lookupGetter__"; "__lookupSetter__"; "isPrototypeOf";
   "propertyIsEnumerable"; "toString"; "valueOf"; "__proto__";
   "toLocaleString"].

(** No object inside [v] has a key that names an inherited member: on
    such values reading [o[key]] for a key that [o] does not own gives
    [undefined], as [get] has it. *)
Fixpoint own_names (v : value) : bool :=
  match v with
  | VObj fs =>
      (fix fields (l : list (string * value)) : bool :=
         match l with
         | [] => true
         | (k, x) :: l' =>
             negb (mem k Object_prototype_members) && own_names x && fields l'
         end) fs
  | VArr vs =>
      (fix elems (l : list value) : bool :=
         match l with
         | [] => true
         | x :: l' => own_names x && elems l'
         end) vs
  | _ => true
  end.

(** ** A change of password *)


Definition new_login : WriteDetails :=
  MkWriteDetails "POST" "/login" "/api/login"
    (VObj [("user", VStr "ann"); ("password", VStr "hunter2")])
    VUndefined 201 "7" 12 None.

(** A store that holds that call. *)
Definition login_store : Env :=
  Envs.sample (Some "phc_test")
    (fun _ _ =>
       Envs.answers
         (VObj [("results",
                 VArr [VArr [VObj [("properties",
                                    VObj [("request_body",
                                           VObj [("user", VStr "ann");
                                                 ("password", VStr "[REDACTED]")])]);
                                   ("timestamp", VStr "2024-01-01")]]])])).


(** ** The error event *)

(** The properties [trackError] hands to [track], as a function of the
    time stamp it reads: lines 178-228 without the logger. *)
Definition errorProperties (env : Env) (details : ErrorDetails) (iso : string)
  : result obj :=
  let errorType := env_or (errorType details) "backend_error" in
  let posthogHost := env_or (POSTHOG_HOST env) default_host in
  let properties : obj :=
    [("error_name", VStr (errorName details));
     ("error_message", errorMessage details);
     ("error_type", VStr errorType);
     ("timestamp", VStr iso)] in
  let properties :=
    match errorStack details with
    | Some stack =>
        if String.eqb stack EmptyString then properties
        else obj_set properties "error_stack" (VStr stack)
    | None => properties
    end in
  rbind
    match context details with
    | Some context =>
        let sanitizedContext :=
          if truthy (obj_get context "requestHeaders")
          then obj_set context "requestHeaders"
                 (sanitizeHeaders (obj_get context "requestHeaders"))
          else context in
        rbind
          (if truthy (obj_get sanitizedContext "requestBody")
           then rbind (sanitizeBody (obj_get sanitizedContext "requestBody"))
                  (fun b => Ok (obj_set sanitizedContext "requestBody" b))
           else Ok sanitizedContext)
          (fun sanitizedContext =>
             Ok (obj_set properties "context" (VObj sanitizedContext)))
    | None => Ok properties
    end
    (fun properties =>
  let properties :=
    match err_sessionId details with
    | Some sessionId =>
        if String.eqb sessionId EmptyString then properties
        else
          let properties := obj_set properties "$session_id" (VStr sessionId) in
          let properties :=
            match project_of env (env_or (POSTHOG_API_KEY env) placeholder) with
            | Some projectId =>
                obj_set properties "session_replay_url"
                  (VStr (posthogHost +++ "/project/" +++ projectId
                         +++ "/replay/" +++ sessionId))
            | None =>
                obj_set properties "session_replay_url"
                  (VStr (posthogHost +++ "/replay/" +++ sessionId))
            end in
          obj_set properties "$error_with_session_replay" (VBool true)
    | None => properties
    end in
  Ok (if not_anonymous (err_userId details)
      then obj_set properties "user_id" (VStr (err_userId details))
      else properties)).

(** The replay of a session: under the project when its id is known. *)
Definition replay_url (env : Env) (sessionId : string) : string :=
  let posthogHost := env_or (POSTHOG_HOST env) default_host in
  match project_of env (env_or (POSTHOG_API_KEY env) placeholder) with
  | Some projectId =>
      posthogHost +++ "/project/" +++ projectId +++ "/replay/" +++ sessionId
  | None => posthogHost +++ "/replay/" +++ sessionId
  end.

Definition no_replay_link (props : obj) : Prop :=
  lookup "$session_id" props = None
  /\ lookup "session_replay_url" props = None
  /\ lookup "$error_with_session_replay" props = None.

(** The link of an error event to the replay of the session it came
    with, if it came with one. *)
Definition replay_link (env : Env) (sessionId : option string) (props : obj)
  : Prop :=
  match sessionId with
  | Some sid =>
      if String.eqb sid EmptyString then no_replay_link props
      else
        obj_get props "$session_id" = VStr sid
        /\ obj_get props "session_replay_url" = VStr (replay_url env sid)
        /\ obj_get props "$error_with_session_replay" = VBool true
  | None => no_replay_link props
  end.

Definition sensitiveHeaders : list string :=
  ["authorization"; "cookie"; "x-api-key"; "x-session-id"].

(** The context of an error event holds no listed field of the request
    body in clear, and no listed header. *)
Definition context_sanitized (props : obj) : Prop :=
  let context := obj_get props "context" in
  no_clear_secret sensitiveFields (get context "requestBody")
  /\ forall name,
       mem (toLowerCase name) sensitiveHeaders = true ->
       get (get context "requestHeaders") name = VUndefined
       \/ get (get context "requestHeaders") name = REDACTED.

(** ** More samples *)

(** An environment with no project id configured. *)
Definition no_project : Env :=
  MkEnv (Some "phc_12345_live") None None None
        (fun n => Z.of_nat n) (fun _ => Some 0%Z)
        (fun _ => "2024-01-15T10:30:00.000Z") (fun _ => None)
        (fun _ _ => Envs.unauthorized) (fun _ _ => false).

(** A write whose request body is over the threshold. *)
Definition large_write : WriteDetails :=
  MkWriteDetails "POST" "/items" "/api/items" Samples.long_note VUndefined 201
                 "7" 12 None.

(** What the store of [Envs.with_history] answers. *)
Definition stored_properties : obj :=
  [("request_body", old_item); ("method", VStr "POST"); ("path", VStr "/items")].

Definition stored_answer : value :=
  VObj [("results",
         VArr [VArr [VObj [("properties", VObj stored_properties);
                           ("timestamp", VStr "2024-01-01")]]])].

(** An events endpoint that holds the same call. *)
Definition stored_events : value :=
  VObj [("results",
         VArr [VObj [("properties", VObj stored_properties);
                     ("timestamp", VStr "2024-01-01")]])].

Definition events_store : Env :=
  Envs.sample (Some "phc_test") (fun _ _ => Envs.answers stored_events).


(** * Proofs *)

(** ** Facts about the runtime *)

(** *** Strings *)

Lemma append_assoc (a b c : string) : (a +++ b) +++ c = a +++ (b +++ c).
Proof. induction a as [|x a IH]; simpl; [reflexivity | now rewrite IH]. Qed.

(** *** [JSON.parse] rejects every text that ends in three dots *)

Lemma run_append (a b : string) : forall st,
  run st (a +++ b) = match run st a with
                     | Some st' => run st' b
                     | None => None
                     end.
Proof.
  induction a as [|c a IH]; intros st; simpl; [reflexivity|].
  destruct (step st c); [apply IH | reflexivity].
Qed.

Lemma step_idle_dot x stk : step_idle "."%char x stk = None.
Proof. destruct x; reflexivity. Qed.

Lemma step_literal_dot l pos x stk : step_literal "."%char l pos x stk = None.
Proof.
  destruct l; do 6 (try destruct pos as [|pos]); reflexivity.
Qed.

Lemma step_dot (st st' : pstate) :
  step st "."%char = Some st' -> after_dot st'.
Proof.
  destruct st as [lx x stk]; unfold step, after_dot; simpl.
  destruct lx as [|acc esc|ph a|l pos].
  - now rewrite step_idle_dot.
  - destruct esc; simpl; intros H; inversion H; exact I.
  - destruct ph; simpl;
      try (destruct (deliver (VNum (number_of a)) stk) as [s|];
           [rewrite step_idle_dot|]);
      intros H; try discriminate; inversion H; exact I.
  - now rewrite step_literal_dot.
Qed.

Lemma after_dot_rejected (st : pstate) :
  after_dot st -> accept st = Throw SyntaxError.
Proof.
  destruct st as [lx x stk]; unfold after_dot, accept, step; simpl.
  destruct lx as [|acc esc|ph a|l pos]; try contradiction.
  - intros _. destruct esc; reflexivity.
  - destruct ph; try contradiction. reflexivity.
Qed.

Lemma parse_ellipsis (s : string) : parse (s +++ "...") = Throw SyntaxError.
Proof.
  unfold parse.
  replace (s +++ "...") with ((s +++ "..") +++ ".")
    by (rewrite append_assoc; reflexivity).
  rewrite run_append.
  destruct (run initial (s +++ "..")) as [st|]; [|reflexivity].
  simpl. destruct (step st ".") as [st'|] eqn:E; [|reflexivity].
  now apply after_dot_rejected, (step_dot st).
Qed.

(** *** Objects as association lists *)

Lemma mem_In (k : string) (l : list string) : mem k l = true <-> In k l.
Proof.
  unfold mem. rewrite existsb_exists. split.
  - intros (x & Hx & E). apply String.eqb_eq in E. now subst.
  - intros H. exists k. split; [assumption | apply String.eqb_refl].
Qed.

Lemma obj_get_cons (k key : string) (v : value) (o : obj) :
  obj_get ((k, v) :: o) key = if String.eqb k key then v else obj_get o key.
Proof. unfold obj_get; simpl. now destruct (String.eqb k key). Qed.

Lemma obj_get_obj_set_same (o : obj) (key : string) (v : value) :
  obj_get (obj_set o key v) key = v.
Proof.
  induction o as [|[k x] o IH]; simpl.
  - rewrite obj_get_cons. now rewrite String.eqb_refl.
  - destruct (String.eqb k key) eqn:E; rewrite obj_get_cons, E; auto.
Qed.

Lemma obj_get_obj_set_other (o : obj) (key key' : string) (v : value) :
  String.eqb key' key = false ->
  obj_get (obj_set o key' v) key = obj_get o key.
Proof.
  intros Hne. induction o as [|[k x] o IH]; simpl.
  - rewrite obj_get_cons, Hne. reflexivity.
  - destruct (String.eqb k key') eqn:E; rewrite !obj_get_cons.
    + apply String.eqb_eq in E; subst k. now rewrite Hne.
    + now rewrite IH.
Qed.

Lemma lookup_obj_set_other (o : obj) (key key' : string) (v : value) :
  String.eqb key' key = false ->
  lookup key (obj_set o key' v) = lookup key o.
Proof.
  intros Hne. induction o as [|[k x] o IH]; simpl.
  - now rewrite Hne.
  - destruct (String.eqb k key') eqn:E; simpl.
    + apply String.eqb_eq in E; subst k. now rewrite Hne.
    + now rewrite IH.
Qed.

(** *** The redaction loop in closed form *)

Lemma redacted_keys fields fs : map fst (redacted fields fs) = map fst fs.
Proof.
  unfold redacted. rewrite map_map. apply map_ext.
  intros kv. now destruct (redacts fields kv).
Qed.

Lemma redacted_absent f fs :
  ~ In f (map fst fs) -> redacted [f] fs = fs.
Proof.
  induction fs as [|[k v] fs IH]; simpl; intros H; [reflexivity|].
  unfold redacts; simpl. destruct (String.eqb k f) eqn:E.
  - apply String.eqb_eq in E. tauto.
  - simpl. f_equal. apply IH. tauto.
Qed.

Lemma redact_one f fs :
  NoDup (map fst fs) -> redact fs f = redacted [f] fs.
Proof.
  unfold redact. induction fs as [|[k v] fs IH]; simpl; intros ND.
  - reflexivity.
  - inversion ND as [|? ? Hk ND']; subst.
    rewrite obj_get_cons. unfold redacts at 1; simpl.
    destruct (String.eqb k f) eqn:E; simpl.
    + apply String.eqb_eq in E; subst k.
      rewrite (redacted_absent f fs Hk).
      destruct (truthy v); reflexivity.
    + specialize (IH ND').
      destruct (truthy (obj_get fs f)); simpl; now rewrite <- IH.
Qed.

Lemma redacted_cons f fields fs :
  redacted fields (redacted [f] fs) = redacted (f :: fields) fs.
Proof.
  unfold redacted. rewrite map_map. apply map_ext. intros [k v].
  unfold redacts; simpl. rewrite orb_false_r.
  destruct (String.eqb k f) eqn:E; simpl.
  - destruct (truthy v) eqn:T; simpl.
    + now destruct (mem k fields).
    + rewrite T, andb_false_r. reflexivity.
  - reflexivity.
Qed.

Lemma redact_all fields : forall fs,
  NoDup (map fst fs) -> fold_left redact fields fs = redacted fields fs.
Proof.
  induction fields as [|f fields IH]; intros fs ND; simpl.
  - unfold redacted. rewrite <- (map_id fs) at 1. apply map_ext.
    intros kv. reflexivity.
  - rewrite (redact_one f fs ND), IH, redacted_cons; [reflexivity|].
    now rewrite redacted_keys.
Qed.

Lemma stringify_object fs : exists s, JSON.stringify (VObj fs) = Some s.
Proof. simpl. eauto. Qed.

(** Within the threshold [sanitizeBody] returns the redacted copy. *)
Lemma sanitizeBodyWith_within fields fs :
  NoDup (map fst fs) ->
  serialized_length (VObj (redacted fields fs)) <= 1000 ->
  sanitizeBodyWith fields (VObj fs) = Ok (VObj (redacted fields fs)).
Proof.
  intros ND Hlen. unfold sanitizeBodyWith. simpl truthy. simpl negb. cbv iota.
  change (entries (VObj fs)) with fs.
  rewrite (redact_all fields fs ND).
  unfold serialized_length in Hlen.
  destruct (JSON.stringify (VObj (redacted fields fs))) as [s|] eqn:E.
  - destruct (Nat.ltb_spec 1000 (String.length s)); [lia | reflexivity].
  - destruct (stringify_object (redacted fields fs)) as [s Hs]. congruence.
Qed.

(** Over the threshold it throws: the cut text with three dots is not
    JSON. *)
Lemma sanitizeBodyWith_oversized fields body s :
  truthy body = true ->
  JSON.stringify (VObj (fold_left redact fields (entries body))) = Some s ->
  1000 < String.length s ->
  sanitizeBodyWith fields body = Throw SyntaxError.
Proof.
  intros T E Hlen. unfold sanitizeBodyWith. rewrite T. simpl negb. cbv iota.
  rewrite E.
  destruct (Nat.ltb_spec 1000 (String.length s)); [|lia].
  apply parse_ellipsis.
Qed.

Lemma sanitizeResponse_oversized data s :
  truthy data = true ->
  JSON.stringify data = Some s ->
  2000 < String.length s ->
  sanitizeResponse data = Throw SyntaxError.
Proof.
  intros T E Hlen. unfold sanitizeResponse. rewrite T. simpl negb. cbv iota.
  rewrite E.
  destruct (Nat.ltb_spec 2000 (String.length s)); [|lia].
  now rewrite parse_ellipsis.
Qed.

Lemma sanitizeBodyWith_falsy fields body :
  truthy body = false -> sanitizeBodyWith fields body = Ok VNull.
Proof. intros T. unfold sanitizeBodyWith. now rewrite T. Qed.

Lemma sanitizeResponse_falsy data :
  truthy data = false -> sanitizeResponse data = Ok VNull.
Proof. intros T. unfold sanitizeResponse. now rewrite T. Qed.

Lemma obj_get_redacted fields fs key :
  obj_get (redacted fields fs) key =
  if mem key fields && truthy (obj_get fs key)
  then PosthogService.REDACTED else obj_get fs key.
Proof.
  induction fs as [|[k v] fs IH]; simpl.
  - now rewrite andb_false_r.
  - unfold redacts at 1; simpl.
    destruct (String.eqb k key) eqn:E.
    + apply String.eqb_eq in E; subst k.
      destruct (mem key fields && truthy v) eqn:B;
        rewrite !obj_get_cons, String.eqb_refl, ?B; reflexivity.
    + destruct (mem k fields && truthy v);
        rewrite !obj_get_cons; simpl; rewrite E; apply IH.
Qed.

(** C1 (the code departs from the claim): on a body whose serialization
    is over 1000 characters [sanitizeBody] does not return a marked,
    truncated value: it throws a [SyntaxError], in the service and in the
    interceptor alike, and so does [sanitizeResponse] over 2000 characters.
    [Samples.long_note] serializes to 1011 characters and
    [Samples.long_text] to 2002. *)
Theorem sanitizeBody_oversized_throws :
  serialized_length Samples.long_note = 1011 /\
  PosthogService.sanitizeBody Samples.long_note = Throw SyntaxError /\
  PosthogInterceptor.sanitizeBody Samples.long_note = Throw SyntaxError /\
  serialized_length Samples.long_text = 2002 /\
  PosthogService.sanitizeResponse Samples.long_text = Throw SyntaxError /\
  PosthogInterceptor.sanitizeResponse Samples.long_text = Throw SyntaxError /\
  PosthogService.sanitizeBody VNull = Ok VNull /\
  PosthogService.sanitizeBody VUndefined = Ok VNull.
Proof. vm_compute. repeat split. Qed.

(** C6, as stated, fails: the key [Password] matches [password] without
    regard to case, and [sanitizeBody] returns the body as it is; and a
    [password] that holds the empty string is kept, not replaced. *)
Lemma sanitizeBody_keeps_capitalised_password :
  Spec.matches_case_insensitively "Password" = true
  /\ PosthogService.sanitizeBody Samples.capitalised_password
     = Ok Samples.capitalised_password
  /\ PosthogService.sanitizeBody Samples.capitalised_password
     <> Ok (VObj (Spec.redact_fields
                    [("Password", VStr "secret123"); ("name", VStr "x")]))
  /\ PosthogService.sanitizeBody (VObj [("password", VStr EmptyString)])
     = Ok (VObj [("password", VStr EmptyString)]).
Proof.
  split; [reflexivity|]. split; [reflexivity|]. split; [|reflexivity].
  vm_compute. intros H. discriminate H.
Qed.

(** C6, amended: for a body object whose serialization after redaction is
    at most 1000 characters, [sanitizeBody] replaces by ["[REDACTED]"] the
    value of every top-level field whose key is, exactly as spelt, one of
    [password], [token], [secret], [apiKey], [apikey], [access_token] and
    whose value is truthy, and leaves every other field as it is. *)
Theorem sanitizeBody_redacts_listed_fields (fs : obj) :
  NoDup (map fst fs) ->
  serialized_length (VObj (redacted PosthogService.sensitiveFields fs)) <= 1000 ->
  PosthogService.sanitizeBody (VObj fs)
    = Ok (VObj (redacted PosthogService.sensitiveFields fs)).
Proof. apply sanitizeBodyWith_within. Qed.

(** Scenario D: [{"password":"secret123","name":"x"}] is sanitized to
    [{"password":"[REDACTED]","name":"x"}]. *)
Lemma sanitizeBody_scenario_D :
  NoDup ["password"; "name"] /\
  serialized_length
    (VObj (redacted PosthogService.sensitiveFields
             [("password", VStr "secret123"); ("name", VStr "x")])) <= 1000 /\
  PosthogService.sanitizeBody Samples.scenario_D
    = Ok (VObj [("password", VStr "[REDACTED]"); ("name", VStr "x")]).
Proof.
  assert (ND : NoDup (map fst [("password", VStr "secret123"); ("name", VStr "x")])).
  { repeat constructor; simpl; intuition discriminate. }
  assert (L : serialized_length
                (VObj (redacted PosthogService.sensitiveFields
                         [("password", VStr "secret123"); ("name", VStr "x")])) <= 1000).
  { apply Nat.leb_le. vm_compute. reflexivity. }
  split; [exact ND|]. split; [exact L|].
  exact (sanitizeBody_redacts_listed_fields _ ND L).
Defined.

(** C9, as stated, fails: the serialization of [Samples.padded_token] has
    exactly 1000 characters, within the threshold, yet [sanitizeBody] gives
    no value, because the size is measured on the redacted copy, which has
    1009.  And a body that is not an object does not come back as it was:
    a falsy one becomes [null], an array becomes an object. *)
Lemma sanitizeBody_measures_redacted_copy :
  serialized_length Samples.padded_token = 1000
  /\ PosthogService.sanitizeBody Samples.padded_token = Throw SyntaxError
  /\ PosthogInterceptor.sanitizeBody Samples.padded_token = Throw SyntaxError
  /\ PosthogService.sanitizeBody (int 0) = Ok VNull
  /\ PosthogService.sanitizeBody (VArr [int 1]) = Ok (VObj [("0", int 1)]).
Proof. vm_compute. repeat split. Qed.

Lemma sanitizeBodyWith_redaction fields fs :
  NoDup (map fst fs) ->
  serialized_length (VObj (redacted fields fs)) <= 1000 ->
  exists out,
    PosthogService.sanitizeBodyWith fields (VObj fs) = Ok (VObj out)
    /\ redaction_of fields fs out.
Proof.
  intros ND Hlen. exists (redacted fields fs).
  split; [now apply sanitizeBodyWith_within|].
  split; [apply redacted_keys|].
  split; [intros key; apply obj_get_redacted|].
  intros key v Hin Hpass. unfold redacted.
  apply in_map_iff. exists (key, v). split; [|assumption].
  unfold redacts; simpl.
  destruct Hpass as [-> | ->]; [reflexivity | now rewrite andb_false_r].
Qed.

(** C9, amended: for a body object whose serialization after redaction is
    within the 1000-character threshold, the output of [sanitizeBody] (the
    service's and the interceptor's copy, each with its own list) has the
    keys of the input and equals the input at every key, except that a
    top-level key of the list whose value is truthy holds ["[REDACTED]"].
    So a sensitive key inside a nested object, and a top-level sensitive
    field with a falsy value, pass through as they are. *)
Theorem sanitizeBody_top_level_truthy_only (fs : obj) :
  NoDup (map fst fs) ->
  (serialized_length (VObj (redacted PosthogService.sensitiveFields fs)) <= 1000 ->
   exists out,
     PosthogService.sanitizeBody (VObj fs) = Ok (VObj out)
     /\ redaction_of PosthogService.sensitiveFields fs out)
  /\
  (serialized_length (VObj (redacted PosthogInterceptor.sensitiveFields fs)) <= 1000 ->
   exists out,
     PosthogInterceptor.sanitizeBody (VObj fs) = Ok (VObj out)
     /\ redaction_of PosthogInterceptor.sensitiveFields fs out).
Proof.
  intros ND. split; intros Hlen; now apply sanitizeBodyWith_redaction.
Qed.

(** On [Samples.nested_and_falsy] every field passes: the password inside
    [user] is nested, and the four sensitive fields at the top are falsy. *)
Lemma sanitizeBody_nested_and_falsy_pass :
  NoDup ["user"; "password"; "token"; "secret"; "apiKey"; "name"]
  /\ (exists out,
        PosthogService.sanitizeBody Samples.nested_and_falsy = Ok (VObj out)
        /\ obj_get out "user" = VObj [("password", VStr "secret123")]
        /\ obj_get out "password" = VStr EmptyString
        /\ obj_get out "token" = int 0)
  /\ (exists out,
        PosthogInterceptor.sanitizeBody Samples.nested_and_falsy = Ok (VObj out)
        /\ obj_get out "secret" = VBool false
        /\ obj_get out "apiKey" = VNull).
Proof.
  assert (ND : NoDup ["user"; "password"; "token"; "secret"; "apiKey"; "name"]).
  { repeat constructor; simpl; intuition discriminate. }
  split; [exact ND|].
  destruct (sanitizeBody_top_level_truthy_only
              [("user", VObj [("password", VStr "secret123")]);
               ("password", VStr EmptyString);
               ("token", int 0);
               ("secret", VBool false);
               ("apiKey", VNull);
               ("name", VStr "x")] ND) as [HS HI].
  split.
  - destruct HS as (out & Hout & _ & Hget & _).
    { apply Nat.leb_le. vm_compute. reflexivity. }
    exists out. split; [exact Hout|]. rewrite !Hget. repeat split.
  - destruct HI as (out & Hout & _ & Hget & _).
    { apply Nat.leb_le. vm_compute. reflexivity. }
    exists out. split; [exact Hout|]. rewrite !Hget. repeat split.
Defined.

(** *** [deepDiff] *)

Lemma fold_left_ext_in {A B : Type} (f g : A -> B -> A) (l : list B) :
  (forall a b, f a b = g a b) -> forall a, fold_left f l a = fold_left g l a.
Proof.
  intros E. induction l as [|b l IH]; intros a; simpl; [reflexivity|].
  now rewrite E, IH.
Qed.

Lemma fold_left_fixed {A B : Type} (f : A -> B -> A) (l : list B) (a : A) :
  (forall b, f a b = a) -> fold_left f l a = a.
Proof.
  intros E. induction l as [|b l IH]; simpl; [reflexivity|].
  now rewrite E.
Qed.

Lemma diff_key_ext (d d' : string -> option (value -> obj)) prev curr diff key :
  d key = d' key -> diff_key d prev curr diff key = diff_key d' prev curr diff key.
Proof. unfold diff_key. now intros ->. Qed.

Lemma deepDiff_descend (prev curr : value) :
  deepDiff prev curr
  = fold_left (diff_key (descend_into prev) prev curr) (allKeys prev curr) [].
Proof.
  destruct prev as [| |b|n|s|vs|fs]; try reflexivity.
  - (* arrays *)
    simpl. apply fold_left_ext_in. intros diff key. apply diff_key_ext.
    unfold descend_into. generalize 0 as i.
    induction vs as [|v l IH]; intros i; [reflexivity|].
    cbn [at_index]. destruct (String.eqb (string_of_nat i) key);
      [reflexivity | apply IH].
  - (* objects *)
    simpl. apply fold_left_ext_in. intros diff key. apply diff_key_ext.
    unfold descend_into.
    induction fs as [|[k v] l IH]; [reflexivity|].
    cbn [lookup]. destruct (String.eqb k key); [reflexivity | apply IH].
Qed.

Lemma descend_into_plain (prev : value) (key : string) :
  is_plain_object (get prev key) = true ->
  descend_into prev key = Some (deepDiff (get prev key)).
Proof.
  destruct prev as [| |b|n|s|vs|fs]; simpl; try discriminate.
  - destruct (at_index key 0 (list_ascii_of_string s)); simpl;
      [discriminate|]. destruct (String.eqb key "length"); discriminate.
  - destruct (at_index key 0 vs); simpl; [reflexivity|].
    destruct (String.eqb key "length"); discriminate.
  - unfold obj_get. destruct (lookup key fs); simpl; [reflexivity | discriminate].
Qed.

(** [deepDiff] in the shape of the source: one pass over the union of the
    keys, with the recursive call on the two values of a key. *)
Lemma deepDiff_unfold (prev curr : value) :
  deepDiff prev curr = fold_left (deepDiff_step prev curr) (allKeys prev curr) [].
Proof.
  rewrite deepDiff_descend. apply fold_left_ext_in. intros diff key.
  unfold diff_key, deepDiff_step.
  destruct (is_plain_object (get prev key)) eqn:P; [|reflexivity].
  now rewrite (descend_into_plain prev key P).
Qed.

Lemma stringify_differs_same (v : value) : JSON.stringify_differs v v = false.
Proof.
  unfold JSON.stringify_differs. destruct (JSON.stringify v); [|reflexivity].
  now rewrite String.eqb_refl.
Qed.

(** Two values that agree on every key have an empty diff. *)
Lemma deepDiff_agree (prev curr : value) :
  (forall key, get prev key = get curr key) -> deepDiff prev curr = [].
Proof.
  intros E. rewrite deepDiff_unfold. apply fold_left_fixed. intros key.
  unfold deepDiff_step. rewrite E, stringify_differs_same.
  destruct (is_undefined (get curr key)); reflexivity.
Qed.

(** C3: for every value [a], [deepDiff a a] is the empty diff: no key is
    reported as added, removed, changed or nested, whether [a] is a leaf,
    an array or an object of any depth. *)
Theorem deepDiff_same_value_absent (a : value) : deepDiff a a = [].
Proof. apply deepDiff_agree. reflexivity. Qed.

(** *** [calculateChanges] *)

Ltac split_comparisons :=
  unfold calculateChanges, compareCalls, compareResponse, compareRequest;
  repeat match goal with
         | |- context [truthy ?v] => destruct (truthy v) eqn:?
         | |- context [(0 <? List.length (deepDiff ?a ?b))%nat] =>
             destruct (0 <? List.length (deepDiff a b))%nat eqn:?
         end;
  cbn.

(** The change map is empty exactly when the list of descriptions is, every
    description is one of the six, and the summary joins them. *)
Lemma compareCalls_shape (previous : CallRecord) (current : Current) :
  let r := calculateChanges (Some previous) current in
  let changeList := snd (compareCalls previous current) in
  PosthogService.changes r = fst (compareCalls previous current) /\
  (hasChanges r = false <-> changeList = []) /\
  incl changeList descriptions /\
  summary r <> "First call to this endpoint" /\
  (changeList = [] -> summary r = "No changes detected") /\
  (changeList <> [] ->
   summary r = String.concat "; " changeList /\ summary r <> "No changes detected").
Proof.
  split_comparisons;
    (split; [reflexivity|]);
    (split; [split; intros H; (reflexivity || discriminate H)|]);
    (split; [unfold incl, descriptions; simpl; intuition|]);
    (split; [discriminate|]);
    (split; [intros H; (reflexivity || discriminate H)|]);
    intros H; (split; [reflexivity || now elim H | discriminate || now elim H]).
Qed.





(** ** Effects *)

Section Frames.

Variable P : World -> World -> Prop.
Hypothesis P_refl : forall w, P w w.
Hypothesis P_trans : forall w1 w2 w3, P w1 w2 -> P w2 w3 -> P w1 w3.

Lemma frame_ret {A} (a : A) : frame P (ret a).
Proof. intros w. apply P_refl. Qed.

Lemma frame_lift {A} (r : result A) : frame P (lift r).
Proof. intros w. apply P_refl. Qed.

Lemma frame_throw {A} (e : exn) : frame P (@throw A e).
Proof. intros w. apply P_refl. Qed.

Lemma frame_bind {A B} (c : M A) (k : A -> M B) :
  frame P c -> (forall a, frame P (k a)) -> frame P (bind c k).
Proof.
  intros Hc Hk w. unfold bind. specialize (Hc w).
  destruct (c w) as [[a|e] w1]; simpl in *; [|assumption].
  eapply P_trans; [eassumption | apply Hk].
Qed.

Lemma frame_try_catch {A} (c : M A) (h : exn -> M A) :
  frame P c -> (forall e, frame P (h e)) -> frame P (try_catch c h).
Proof.
  intros Hc Hh w. unfold try_catch. specialize (Hc w).
  destruct (c w) as [[a|e] w1]; simpl in *; [assumption|].
  eapply P_trans; [eassumption | apply Hh].
Qed.

Lemma frame_when (b : bool) (c : M unit) : frame P c -> frame P (when b c).
Proof. intros Hc. destruct b; [assumption | apply frame_ret]. Qed.

End Frames.

Lemma quiet_refl w : quiet w w.
Proof. split; reflexivity. Qed.

Lemma quiet_trans w1 w2 w3 : quiet w1 w2 -> quiet w2 w3 -> quiet w1 w3.
Proof. intros [A B] [C D]. split; congruence. Qed.

Lemma quiet_log l s : frame quiet (log l s).
Proof. intros w. split; reflexivity. Qed.

Lemma quiet_Date_now env : frame quiet (Date_now env).
Proof. intros w. split; reflexivity. Qed.

Lemma quiet_fetch env r : frame quiet (fetch env r).
Proof.
  intros w. unfold fetch. destruct (fetch_outcome env (ticks w) r); split; reflexivity.
Qed.

(** A tactic for frame goals: it follows the shape of the program. *)
Ltac frame_with refl trans basic :=
  repeat first
    [ apply (frame_ret _ refl)
    | apply (frame_lift _ refl)
    | apply (frame_throw _ refl)
    | basic
    | apply (frame_when _ refl)
    | apply (frame_bind _ trans); [|intros ?]
    | apply (frame_try_catch _ trans); [|intros ?]
    | match goal with
      | |- frame _ (if ?b then _ else _) => destruct b
      | |- frame _ (match ?x with _ => _ end) => destruct x
      | |- frame _ (let _ := _ in _) => cbv zeta
      end ].

Ltac quiet_basic :=
  first [ apply quiet_log | apply quiet_Date_now | apply quiet_fetch ].

Ltac quiet_auto := frame_with quiet_refl quiet_trans quiet_basic.

Lemma quiet_now_iso env : frame quiet (now_iso env).
Proof. unfold now_iso. quiet_auto. Qed.

Lemma quiet_getProjectId env apiKey : frame quiet (getProjectId env apiKey).
Proof. unfold getProjectId. quiet_auto. Qed.

Lemma quiet_new_Date_or_now env a b : frame quiet (new_Date_or_now env a b).
Proof. unfold new_Date_or_now. quiet_auto. Qed.

Lemma quiet_tryEventsApiEndpoint env host pid key method path userId :
  frame quiet (tryEventsApiEndpoint env host pid key method path userId).
Proof.
  unfold tryEventsApiEndpoint.
  frame_with quiet_refl quiet_trans
    ltac:(first [quiet_basic | apply quiet_new_Date_or_now]).
Qed.

Lemma quiet_getPreviousCallFromPostHog env method path userId :
  frame quiet (getPreviousCallFromPostHog env method path userId).
Proof.
  unfold getPreviousCallFromPostHog.
  frame_with quiet_refl quiet_trans
    ltac:(first [quiet_basic | apply quiet_new_Date_or_now
                | apply quiet_getProjectId | apply quiet_tryEventsApiEndpoint]).
Qed.

Lemma quiet_lookupPreviousCall env details :
  frame quiet (lookupPreviousCall env details).
Proof.
  unfold lookupPreviousCall.
  frame_with quiet_refl quiet_trans
    ltac:(first [quiet_basic | apply quiet_getPreviousCallFromPostHog]).
Qed.

(** ** The lookup of the previous call *)

Ltac run_m :=
  unfold try_catch, bind, when, ret, lift, log, fetch, Date_now, member;
  cbn -[String.append events_url queryBody query_url JSON.stringify
        string_of_Z status_line].

(** Split on a scrutinee that holds no further case analysis. *)
Ltac split_match :=
  match goal with
  | |- context [match ?x with _ => _ end] =>
      lazymatch x with
      | context [match _ with _ => _ end] => fail
      | _ => destruct x eqn:?
      end
  end.

Lemma tryEventsApiEndpoint_spec env host pid key method path userId w :
  let e := events_request host pid key method path userId in
  exists r w',
    tryEventsApiEndpoint env host pid key method path userId w = (Ok r, w') /\
    requests w' = requests w ++ [e] /\
    match fetch_outcome env (ticks w) e with
    | Rejected _ => r = None
    | Resolved response =>
        if ok response then
          match json response with
          | Throw _ => r = None
          | Ok data => get data "results" = VArr [] -> r = None
          end
        else r = None
    end.
Proof.
  unfold events_request, tryEventsApiEndpoint, new_Date_or_now. run_m.
  repeat (split_match; run_m);
    (eexists; eexists; split; [reflexivity|]);
    (split; [reflexivity|]);
    try reflexivity;
    intros; subst;
    repeat match goal with
           | H : (_, _) = (_, _) |- _ => inversion H; clear H; subst
           end;
    try discriminate; try reflexivity.
  all: try (match goal with
       | H : get ?d "results" = VArr [] |- _ => rewrite H in *
       end; simpl in *; discriminate).
Qed.

Ltac run_lookup :=
  unfold try_catch, bind, when, ret, lift, log, fetch, Date_now, member;
  cbn -[String.append events_url queryBody query_url JSON.stringify
        string_of_Z status_line tryEventsApiEndpoint events_request].

Ltac use_fallback_spec :=
  match goal with
  | |- context [tryEventsApiEndpoint ?a ?b ?c ?d ?e ?f ?g ?W] =>
      let E := fresh "E" in
      destruct (tryEventsApiEndpoint_spec a b c d e f g W)
        as (?r & ?w' & E & ? & ?);
      rewrite E; clear E
  end.

Lemma getPreviousCallFromPostHog_spec env method path userId w :
  exists r w',
    getPreviousCallFromPostHog env method path userId w = (Ok r, w') /\
    lookup_outcome env method path userId w w' r.
Proof.
  unfold lookup_outcome, no_event, query_target, query_key, project_of,
    query_request, getPreviousCallFromPostHog, getProjectId, new_Date_or_now.
  run_lookup.
  repeat (first [use_fallback_spec | split_match]; run_lookup).
  all: eexists; eexists; (split; [reflexivity|]).
  all: cbn -[String.append events_url queryBody query_url JSON.stringify
             events_request] in *.
  all: repeat match goal with
         | E : ?x = _, H : context [match ?x with _ => _ end] |- _ =>
             rewrite E in H;
             cbn -[String.append events_url queryBody query_url JSON.stringify
                   events_request] in H
         end.
  all: try (repeat split; (assumption || reflexivity || discriminate)).
  all: repeat match goal with
         | H : requests _ = (_ ++ _) ++ _ |- _ =>
             rewrite <- app_assoc in H; cbn [app] in H
         end.
  all: try (split; [assumption || reflexivity|]).
  all: try (assumption || reflexivity).
  all: intros;
       try match goal with
           | Hr : get ?a "results" = VArr [] |- _ =>
               rewrite Hr in *; cbn in *
           end;
       try discriminate; auto.
Qed.

(** C5: [getPreviousCallFromPostHog] never throws.  For every input and
    every behaviour of the remote store it returns a call record or null.
    Without a usable key or project id it returns null and asks nothing;
    it asks the query endpoint first and the events endpoint only after a
    refusal of the first; a rejected request, an unreadable answer, a
    refusal of both endpoints and an answer without events all give
    null. *)
Theorem getPreviousCall_never_throws env method path userId w :
  exists r w',
    getPreviousCallFromPostHog env method path userId w = (Ok r, w')
    /\ lookup_outcome env method path userId w w' r
    /\ (requests w' = requests w
        \/ exists host pid key,
             query_target env = Some (host, pid, key)
             /\ (requests w' = requests w ++ [query_request host pid key method path]
                 \/ requests w'
                    = requests w ++ [query_request host pid key method path;
                                     events_request host pid key method path userId])).
Proof.
  destruct (getPreviousCallFromPostHog_spec env method path userId w)
    as (r & w' & E & H).
  exists r, w'. split; [exact E|]. split; [exact H|].
  unfold lookup_outcome in H.
  destruct (query_target env) as [[[host pid] key]|]; [|left; apply H].
  right. exists host, pid, key. split; [reflexivity|].
  cbv zeta in H.
  destruct (fetch_outcome env (ticks w) (query_request host pid key method path))
    as [response|e].
  - destruct (ok response).
    + left. apply H.
    + destruct (text response); [right | left]; apply H.
  - left. apply H.
Qed.

(** The lookup on the sample stores: nothing is asked without a key; a
    refusal of the query endpoint is followed by the events endpoint; a
    failed connection ends the lookup; a stored call is found. *)
Example lookup_samples :
  let lookup env :=
    getPreviousCallFromPostHog env "POST" "/items" (Some "7") Envs.nothing in
  (fst (lookup Envs.no_key) = Ok None
   /\ requests (snd (lookup Envs.no_key)) = [])
  /\ (fst (lookup Envs.empty_store) = Ok None
      /\ map req_method (requests (snd (lookup Envs.empty_store))) = ["POST"])
  /\ (fst (lookup Envs.refusing) = Ok None
      /\ map req_method (requests (snd (lookup Envs.refusing))) = ["POST"; "GET"])
  /\ (fst (lookup Envs.unreachable) = Ok None
      /\ map req_method (requests (snd (lookup Envs.unreachable))) = ["POST"])
  /\ (exists record,
        fst (lookup Envs.with_history) = Ok (Some record)
        /\ requestBody record = old_item).
Proof. vm_compute. repeat split. eexists. split; reflexivity. Qed.

(** ** Emissions *)

Lemma key_unconfigured_spec env :
  key_unconfigured env <->
  unconfigured (env_or (POSTHOG_API_KEY env) placeholder) = true.
Proof.
  unfold key_unconfigured, unconfigured, env_or.
  destruct (POSTHOG_API_KEY env) as [s|].
  - destruct (String.eqb s EmptyString) eqn:E1.
    + apply String.eqb_eq in E1; subst s.
      split; [intros _; reflexivity | auto].
    + rewrite E1. simpl. destruct (String.eqb s placeholder) eqn:E2.
      * apply String.eqb_eq in E2; subst s.
        split; [intros _; reflexivity | auto].
      * split; [|intros H; discriminate H].
        intros [H|[H|H]]; inversion H; subst s; discriminate.
  - split; [intros _; reflexivity | auto].
Qed.

Lemma slice_skipn {A} (start : Z) (l : list A) : exists k, slice start l = skipn k l.
Proof. unfold slice. eauto. Qed.

Lemma emitted_refl w : emitted_since w w [] [].
Proof.
  split; [now rewrite app_nil_r|]. exists 0. now rewrite app_nil_r.
Qed.

Lemma emitted_quiet w w1 w2 sent logged :
  quiet w w1 -> emitted_since w1 w2 sent logged -> emitted_since w w2 sent logged.
Proof.
  intros [E O] [Hs [k Hl]]. split; [congruence|]. exists k. congruence.
Qed.

Lemma track_unconfigured env id name props w :
  key_unconfigured env -> track env id name props w = (Ok tt, w).
Proof.
  intros H. apply key_unconfigured_spec in H. unfold track. now rewrite H.
Qed.

Lemma track_emits env id name props :
  emits (sent_as id name props) (logged_as id name props) (track env id name props).
Proof.
  intros w. unfold track.
  destruct (unconfigured (env_or (POSTHOG_API_KEY env) placeholder)).
  - exists [], []. split; [apply emitted_refl|]. simpl. auto.
  - unfold now_iso, try_catch, bind, ret, log, capture, Date_now,
      get_eventLog, set_eventLog, tick.
    cbn -[slice Nat.ltb assign MAX_LOG_SIZE].
    set (iso := Date_toISOString env (clock env (ticks w))).
    set (data := MkCapture id name _).
    destruct (capture_throws env (S (ticks w)) data);
      cbn -[slice Nat.ltb assign MAX_LOG_SIZE];
      set (event := MkTrackedEvent id name props _);
      [exists [], [event] | exists [data], [event]].
    all: destruct (MAX_LOG_SIZE <? List.length (eventLog w ++ [event]))%nat;
      cbn -[slice MAX_LOG_SIZE assign].
    all: split; [split; [now rewrite ?app_nil_r|]|].
    all: try apply slice_skipn; try (now exists 0).
    all: repeat split; simpl; auto; repeat constructor;
      unfold stamped; simpl; eauto.
Qed.

Lemma emits_of_quiet {A} S L (c : M A) : frame quiet c -> emits S L c.
Proof.
  intros Hq w. exists [], []. split.
  - eapply emitted_quiet; [apply Hq | apply emitted_refl].
  - simpl. auto.
Qed.

Lemma emits_bind {A B} S L (c : M A) (k : A -> M B) :
  frame quiet c -> (forall a, emits S L (k a)) -> emits S L (bind c k).
Proof.
  intros Hq Hk w. unfold bind. specialize (Hq w).
  destruct (c w) as [[a|e] w1]; simpl in Hq.
  - destruct (Hk a w1) as (sent & logged & He & Hrest).
    exists sent, logged. split; [|exact Hrest].
    eapply emitted_quiet; eassumption.
  - exists [], []. split.
    + eapply emitted_quiet; [exact Hq | apply emitted_refl].
    + simpl. auto.
Qed.

(** C10: with the ingestion key absent, empty or equal to the placeholder,
    [track] changes nothing: the outbox of the client and the event log,
    like the rest of the world, are what they were, and so is every later
    answer of [getRecentEvents]. *)
Theorem track_without_key_is_noop env id name props w :
  key_unconfigured env ->
  track env id name props w = (Ok tt, w)
  /\ outbox (snd (track env id name props w)) = outbox w
  /\ eventLog (snd (track env id name props w)) = eventLog w
  /\ forall limit,
       getRecentEvents (snd (track env id name props w)) limit
       = getRecentEvents w limit.
Proof.
  intros H. rewrite (track_unconfigured env id name props w H).
  repeat split.
Qed.

Lemma track_without_key_sample :
  key_unconfigured Envs.no_key
  /\ track Envs.no_key "7" "api_write_request" [] LogSamples.two_events
     = (Ok tt, LogSamples.two_events).
Proof.
  assert (H : key_unconfigured Envs.no_key) by (left; reflexivity).
  split; [exact H|].
  exact (proj1 (track_without_key_is_noop Envs.no_key "7" "api_write_request" []
                  LogSamples.two_events H)).
Defined.

(** With a key the same call reaches the client and the local log. *)
Example track_with_key_sample :
  let w := snd (track Envs.empty_store "7" "api_write_request" []
                  LogSamples.two_events) in
  map cap_event (outbox w) = ["api_write_request"]
  /\ map eventName (eventLog w)
     = ["api_write_request"; "error_occurred"; "api_write_request"].
Proof. vm_compute. split; reflexivity. Qed.

(** ** The write event *)

Lemma emits_weaken {A} (S S' : CaptureData -> Prop) (L L' : TrackedEvent -> Prop)
    (c : M A) :
  (forall d, S d -> S' d) -> (forall e, L e -> L' e) ->
  emits S L c -> emits S' L' c.
Proof.
  intros HS HL H w. destruct (H w) as (sent & logged & He & H1 & H2 & H3 & H4).
  exists sent, logged.
  split; [exact He|]. split; [exact H1|]. split; [exact H2|]. split.
  - eapply Forall_impl; [|exact H3]. exact HS.
  - eapply Forall_impl; [|exact H4]. exact HL.
Qed.

(** The lookup inside the tracker hands on what
    [getPreviousCallFromPostHog] returned, and it always returns. *)
Lemma lookupPreviousCall_result env details w :
  exists previousCall w0 w1,
    getPreviousCallFromPostHog env (wd_method details) (wd_path details)
      (Some (wd_userId details)) w = (Ok previousCall, w0)
    /\ lookupPreviousCall env details w = (Ok previousCall, w1).
Proof.
  unfold lookupPreviousCall, try_catch, bind.
  destruct (getPreviousCallFromPostHog_spec env (wd_method details)
              (wd_path details) (Some (wd_userId details)) w)
    as (r & w' & E & _).
  rewrite E. destruct r; cbn; eauto.
Qed.

Ltac other_keys :=
  repeat first
    [ rewrite obj_get_obj_set_other by reflexivity
    | rewrite lookup_obj_set_other by reflexivity ].





(** The write event on the sample stores: first call on the empty store
    and on the refusing one, a later call where history is found. *)
Example write_event_samples :
  let flags env :=
    map (fun data => (cap_event data,
                      obj_get (cap_properties data) "is_first_call",
                      obj_get (cap_properties data) "change_summary",
                      is_none (lookup "previous_call" (cap_properties data))))
        (outbox (snd (trackWriteRequestWithComparison env Envs.post_item
                        Envs.nothing))) in
  flags Envs.empty_store = [("api_write_request", VBool true, VUndefined, true)]
  /\ flags Envs.refusing = [("api_write_request", VBool true, VUndefined, true)]
  /\ flags Envs.with_history
     = [("api_write_request", VBool false, VStr "Request body changed", false)]
  /\ flags Envs.no_key = [].
Proof. vm_compute. repeat split. Qed.

(** ** The interceptor *)

Lemma emits_track_named env id name props :
  emits (sent_named name) (logged_named name) (track env id name props).
Proof.
  eapply emits_weaken; [| |apply track_emits].
  - intros d (_ & H & _). exact H.
  - intros e (_ & H & _). exact H.
Qed.

Ltac quiet_service :=
  frame_with quiet_refl quiet_trans
    ltac:(first [ quiet_basic
                | apply quiet_now_iso
                | apply quiet_getProjectId
                | apply quiet_lookupPreviousCall ]).

Ltac emits_steps :=
  repeat (apply emits_bind; [quiet_service | intros ?]).

Lemma emits_trackWrite env details :
  emits (sent_named "api_write_request") (logged_named "api_write_request")
        (trackWriteRequestWithComparison env details).
Proof.
  unfold trackWriteRequestWithComparison. emits_steps.
  apply emits_track_named.
Qed.

Lemma emits_trackError env details :
  emits (sent_named "error_occurred") (logged_named "error_occurred")
        (trackError env details).
Proof.
  unfold trackError. cbv zeta. emits_steps.
  apply emits_track_named.
Qed.

Lemma shouldTrack_In (method : string) :
  PosthogInterceptor.shouldTrack method = true
  <-> In method ["POST"; "PUT"; "PATCH"].
Proof. apply mem_In. Qed.

(** C7: for one intercepted call the interceptor emits at most one event
    (to the client, and to the local log).  An [api_write_request] event
    is emitted only when the method is POST, PUT or PATCH and the handler
    returned; when the handler failed, only [error_occurred] can be
    emitted. *)
Theorem write_event_only_after_successful_mutation
    env request statusCode handled w :
  exists sent logged,
    emitted_since w
      (snd (PosthogInterceptor.intercept env request statusCode handled w))
      sent logged
    /\ List.length sent <= 1 /\ List.length logged <= 1
    /\ Forall (fun data => allowed request handled (cap_event data)) sent
    /\ Forall (fun event => allowed request handled (eventName event)) logged.
Proof.
  revert w.
  change (emits (fun data => allowed request handled (cap_event data))
                (fun event => allowed request handled (eventName event))
                (PosthogInterceptor.intercept env request statusCode handled)).
  unfold PosthogInterceptor.intercept. cbv zeta.
  apply emits_bind; [quiet_service | intros startTime].
  apply emits_bind; [quiet_service | intros body].
  destruct handled as [responseData|error].
  - destruct (PosthogInterceptor.shouldTrack
                (PosthogInterceptor.http_method request)) eqn:T.
    + apply emits_bind; [quiet_service | intros now].
      apply emits_bind; [quiet_service | intros response].
      eapply emits_weaken; [| |apply emits_trackWrite].
      * intros d Hd. split.
        -- intros _. split; [now apply shouldTrack_In | eauto].
        -- intros error H. discriminate H.
      * intros e He. split.
        -- intros _. split; [now apply shouldTrack_In | eauto].
        -- intros error H. discriminate H.
    + apply emits_of_quiet. quiet_service.
  - apply emits_bind; [quiet_service | intros now].
    apply emits_bind; [quiet_service | intros iso].
    eapply emits_weaken; [| |apply emits_trackError].
    + intros d Hd. unfold sent_named in Hd. rewrite Hd. split.
      * intros H. discriminate H.
      * reflexivity.
    + intros e He. unfold logged_named in He. rewrite He. split.
      * intros H. discriminate H.
      * reflexivity.
Qed.

(** The interceptor on the sample store: one write event for a POST that
    succeeds, nothing for a GET or a DELETE, the error event alone for a
    POST that fails. *)
Example intercept_samples :
  let names method handled :=
    map cap_event
        (outbox (snd (PosthogInterceptor.intercept Envs.empty_store
                        (Envs.http method) (Some 201%Z) handled Envs.nothing))) in
  let created := PosthogInterceptor.Returns (VObj [("id", int 1)]) in
  names "POST" created = ["api_write_request"]
  /\ names "PUT" created = ["api_write_request"]
  /\ names "PATCH" created = ["api_write_request"]
  /\ names "GET" created = []
  /\ names "DELETE" created = []
  /\ names "POST" (PosthogInterceptor.Fails Envs.not_found) = ["error_occurred"]
  /\ names "GET" (PosthogInterceptor.Fails Envs.not_found) = ["error_occurred"].
Proof. vm_compute. repeat split. Qed.

(** *** [getRecentEvents] *)

Lemma slice_last {A} (n : Z) (l : list A) :
  (0 < n)%Z -> slice (- n) l = skipn (List.length l - Z.to_nat n) l.
Proof.
  intros Hn. unfold slice.
  destruct (Z.ltb_spec (- n) 0); [|lia].
  f_equal. lia.
Qed.

Lemma getRecentEvents_zero w :
  getRecentEvents w (Some 0%Z) = map to_dto (List.rev (eventLog w)).
Proof.
  unfold getRecentEvents, slice. simpl.
  rewrite Z.min_l by lia. reflexivity.
Qed.

(** For a positive limit the answer is the newest entries, newest first. *)
Lemma getRecentEvents_positive w (limit : Z) :
  (0 < limit)%Z ->
  getRecentEvents w (Some limit)
  = map to_dto (firstn (Z.to_nat limit) (List.rev (eventLog w))).
Proof.
  intros H. unfold getRecentEvents. rewrite (slice_last limit _ H).
  now rewrite firstn_rev.
Qed.

Lemma getRecentEvents_positive_length w (limit : Z) :
  (0 < limit)%Z ->
  List.length (getRecentEvents w (Some limit))
  = Nat.min (Z.to_nat limit) (List.length (eventLog w)).
Proof.
  intros H. rewrite (getRecentEvents_positive w limit H).
  now rewrite length_map, length_firstn, length_rev.
Qed.

(** C8 (the code departs from the claim): with limit 0 [getRecentEvents]
    does not return zero entries but the whole log, and with a negative
    limit it returns all but the oldest entries: the limit is not clamped
    from below. *)
Theorem getRecentEvents_limit_zero_returns_all :
  getRecentEvents LogSamples.two_events (Some 0%Z)
  = [to_dto LogSamples.second_event; to_dto LogSamples.first_event]
  /\ List.length (getRecentEvents LogSamples.two_events (Some 0%Z)) = 2
  /\ getRecentEvents LogSamples.two_events (Some (-1)%Z)
     = [to_dto LogSamples.second_event]
  /\ getRecentEvents LogSamples.two_events (Some 1%Z)
     = [to_dto LogSamples.second_event].
Proof. repeat split. Qed.

(** * Further properties *)

(** ** The event log *)

Lemma last_n_short {A} (n : nat) (l : list A) :
  List.length l <= n -> last_n n l = l.
Proof.
  intros H. unfold last_n. replace (List.length l - n) with 0 by lia. reflexivity.
Qed.

Lemma last_n_length {A} (n : nat) (l : list A) :
  List.length (last_n n l) = Nat.min n (List.length l).
Proof. unfold last_n. rewrite length_skipn. lia. Qed.

Lemma last_n_snoc {A} (n : nat) (l : list A) (x : A) :
  0 < n -> last_n n (l ++ [x]) = last_n (n - 1) l ++ [x].
Proof.
  intros Hn. unfold last_n. rewrite length_app. simpl.
  rewrite skipn_app.
  replace (List.length l + 1 - n - List.length l) with 0 by lia.
  simpl. f_equal. f_equal. lia.
Qed.

Lemma last_n_last_n {A} (n m : nat) (l : list A) :
  m <= n -> last_n m (last_n n l) = last_n m l.
Proof.
  intros H. unfold last_n. rewrite length_skipn, skipn_skipn.
  f_equal. lia.
Qed.

Lemma last_n_map {A B} (f : A -> B) (n : nat) (l : list A) :
  map f (last_n n l) = last_n n (map f l).
Proof. unfold last_n. now rewrite skipn_map, length_map. Qed.

Lemma slice_last_n {A} (l : list A) :
  (if (MAX_LOG_SIZE <? List.length l)%nat
   then slice (- Z.of_nat MAX_LOG_SIZE) l else l) = last_n MAX_LOG_SIZE l.
Proof.
  destruct (Nat.ltb_spec MAX_LOG_SIZE (List.length l)) as [H|H].
  - rewrite slice_last by (unfold MAX_LOG_SIZE; lia).
    unfold last_n. f_equal; lia.
  - now rewrite last_n_short.
Qed.

(** What [track] does with a usable key: it never throws, and the log
    becomes the last hundred of the old entries and the new one. *)
Lemma track_configured env id name props w :
  ~ key_unconfigured env ->
  exists w' t,
    track env id name props w = (Ok tt, w')
    /\ eventLog w'
       = last_n MAX_LOG_SIZE (eventLog w ++ [MkTrackedEvent id name props t])
    /\ (outbox w' = outbox w
        \/ exists iso, outbox w' = outbox w ++ [MkCapture id name (stamped props iso)])
    /\ requests w' = requests w.
Proof.
  intros H. rewrite key_unconfigured_spec in H.
  unfold track.
  destruct (unconfigured (env_or (POSTHOG_API_KEY env) placeholder));
    [now elim H|].
  unfold now_iso, try_catch, bind, ret, log, capture, Date_now,
    get_eventLog, set_eventLog, tick.
  cbn -[slice Nat.ltb assign MAX_LOG_SIZE].
  match goal with
  | |- context [capture_throws env ?n ?d] => destruct (capture_throws env n d)
  end; cbn -[slice Nat.ltb assign MAX_LOG_SIZE].
  all: match goal with
       | |- context [MkTrackedEvent _ _ _ ?t] =>
           pose proof (slice_last_n (eventLog w ++ [MkTrackedEvent id name props t]))
             as Hs;
           destruct (MAX_LOG_SIZE <? List.length
                       (eventLog w ++ [MkTrackedEvent id name props t]))%nat;
           eexists; exists t; (split; [reflexivity|]);
           (split; [exact Hs|])
       end.
  all: split; [|reflexivity]; cbn; unfold stamped; eauto.
Qed.

(** X1: with a usable key [track] never throws and keeps the log a
    ring buffer: afterwards the log is the last 100 entries of the old log
    followed by the new event, so it never holds more than 100 entries and
    the oldest are the ones dropped. *)
Theorem track_keeps_last_hundred env id name props w :
  ~ key_unconfigured env ->
  exists w' t,
    track env id name props w = (Ok tt, w')
    /\ eventLog w'
       = last_n 100 (eventLog w ++ [MkTrackedEvent id name props t])
    /\ List.length (eventLog w') <= 100
    /\ List.length (eventLog w') = Nat.min 100 (S (List.length (eventLog w))).
Proof.
  intros H.
  destruct (track_configured env id name props w H) as (w' & t & E & L & _).
  exists w', t. split; [exact E|]. split; [exact L|].
  rewrite L, last_n_length, length_app. unfold MAX_LOG_SIZE.
  cbn [List.length]. split; lia.
Qed.

Lemma last_n_app_last_n {A} (n : nat) (l r : list A) :
  last_n n (last_n n l ++ r) = last_n n (l ++ r).
Proof.
  unfold last_n. rewrite !length_app, length_skipn, !skipn_app, skipn_skipn,
    length_skipn.
  f_equal; f_equal; lia.
Qed.

Lemma track_all_configured env calls : forall w,
  ~ key_unconfigured env ->
  List.length (eventLog w) <= 100 ->
  exists w',
    track_all env calls w = (Ok tt, w')
    /\ map call_of (eventLog w') = last_n 100 (map call_of (eventLog w) ++ calls).
Proof.
  induction calls as [|[[id name] props] rest IH]; intros w H Hlen.
  - exists w. split; [reflexivity|].
    rewrite app_nil_r, last_n_short; [reflexivity | now rewrite length_map].
  - destruct (track_configured env id name props w H) as (w1 & t & E & L & _).
    destruct (IH w1 H) as (w' & E' & L').
    { rewrite L, last_n_length. unfold MAX_LOG_SIZE. lia. }
    exists w'. split.
    + cbn [track_all]. unfold bind. now rewrite E.
    + rewrite L', L, last_n_map, map_app. cbn [map call_of distinctId eventName
        properties]. unfold MAX_LOG_SIZE.
      rewrite last_n_app_last_n, <- app_assoc. reflexivity.
Qed.

(** X2: a run of calls of [track] with a usable key, from a log of at
    most 100 entries, leaves the last 100 of the old entries and the new
    calls, in order; so 105 calls on an empty log leave exactly the last
    100, the 5 oldest being dropped. *)
Theorem track_all_keeps_newest env calls w :
  ~ key_unconfigured env ->
  List.length (eventLog w) <= 100 ->
  exists w',
    track_all env calls w = (Ok tt, w')
    /\ map call_of (eventLog w') = last_n 100 (map call_of (eventLog w) ++ calls)
    /\ List.length (eventLog w')
       = Nat.min 100 (List.length (eventLog w) + List.length calls).
Proof.
  intros H Hlen.
  destruct (track_all_configured env calls w H Hlen) as (w' & E & L).
  exists w'. split; [exact E|]. split; [exact L|].
  rewrite <- (length_map call_of), L, last_n_length, length_app, length_map.
  reflexivity.
Qed.

(** ** [getRecentEvents] on every limit *)

Lemma rev_skipn {A} (m : nat) (l : list A) :
  List.rev (skipn m l) = firstn (List.length l - m) (List.rev l).
Proof.
  destruct (Nat.le_gt_cases m (List.length l)) as [H|H].
  - rewrite firstn_rev. f_equal. f_equal. lia.
  - rewrite skipn_all2 by lia.
    replace (List.length l - m) with 0 by lia. reflexivity.
Qed.

Lemma getRecentEvents_closed_form w limit :
  getRecentEvents w limit
  = map to_dto (firstn (returned (List.length (eventLog w)) limit)
                       (List.rev (eventLog w))).
Proof.
  unfold getRecentEvents, returned, slice.
  set (n := match limit with Some n => n | None => 50%Z end).
  set (l := eventLog w).
  f_equal. rewrite rev_skipn.
  destruct (Z.ltb_spec 0 n) as [Hn|Hn].
  - destruct (Z.ltb_spec (- n) 0) as [_|H0]; [|lia].
    f_equal. lia.
  - destruct (Z.ltb_spec (- n) 0) as [H0|_]; [lia|].
    f_equal. lia.
Qed.

(** X3: for every limit [getRecentEvents] returns a newest-first prefix of
    the log: the [limit] newest entries when the limit is positive (50
    when it is left out), the whole log when it is 0, and all but the
    [-limit] oldest entries when it is negative. *)
Theorem getRecentEvents_newest_first_prefix w limit :
  getRecentEvents w limit
  = map to_dto (firstn (returned (List.length (eventLog w)) limit)
                       (List.rev (eventLog w)))
  /\ List.length (getRecentEvents w limit)
     = returned (List.length (eventLog w)) limit
  /\ List.length (getRecentEvents w limit) <= List.length (eventLog w).
Proof.
  rewrite getRecentEvents_closed_form. split; [reflexivity|].
  rewrite length_map, length_firstn, length_rev.
  unfold returned.
  destruct (0 <? match limit with Some n => n | None => 50%Z end)%Z; lia.
Qed.

(** X4: with a usable key, the event just tracked is the first entry of
    [getRecentEvents] for every positive limit. *)
Theorem tracked_event_is_most_recent env id name props w (limit : Z) :
  ~ key_unconfigured env ->
  (0 < limit)%Z ->
  exists t rest,
    getRecentEvents (snd (track env id name props w)) (Some limit)
    = MkDto id name props t :: rest.
Proof.
  intros H Hl.
  destruct (track_configured env id name props w H) as (w' & t & E & L & _).
  rewrite E. cbn [snd].
  rewrite getRecentEvents_closed_form, L.
  unfold MAX_LOG_SIZE. rewrite last_n_snoc by lia.
  rewrite rev_app_distr. cbn [List.rev List.app].
  unfold returned. destruct (Z.ltb_spec 0 limit) as [_|Hn]; [|lia].
  rewrite length_app. cbn [List.length].
  destruct (Nat.min (Z.to_nat limit) (List.length (last_n (100 - 1) (eventLog w)) + 1))
    as [|k] eqn:K; [lia|].
  cbn [firstn map]. exists t. eexists. reflexivity.
Qed.

Lemma tracked_event_is_most_recent_sample :
  ~ key_unconfigured Envs.empty_store
  /\ (0 < 1)%Z
  /\ exists t rest,
       getRecentEvents
         (snd (track Envs.empty_store "7" "item_created" [] LogSamples.two_events))
         (Some 1%Z)
       = MkDto "7" "item_created" [] t :: rest.
Proof.
  assert (H : ~ key_unconfigured Envs.empty_store).
  { intros [H|[H|H]]; discriminate H. }
  split; [exact H|]. split; [reflexivity|].
  exact (tracked_event_is_most_recent Envs.empty_store "7" "item_created" []
           LogSamples.two_events 1 H eq_refl).
Defined.

Lemma track_keeps_last_hundred_sample :
  ~ key_unconfigured Envs.empty_store
  /\ exists w' t,
       track Envs.empty_store "7" "item_created" [] LogSamples.two_events
       = (Ok tt, w')
       /\ eventLog w'
          = last_n 100 (eventLog LogSamples.two_events
                        ++ [MkTrackedEvent "7" "item_created" [] t])
       /\ List.length (eventLog w') <= 100
       /\ List.length (eventLog w')
          = Nat.min 100 (S (List.length (eventLog LogSamples.two_events))).
Proof.
  assert (H : ~ key_unconfigured Envs.empty_store).
  { intros [H|[H|H]]; discriminate H. }
  split; [exact H|].
  exact (track_keeps_last_hundred Envs.empty_store "7" "item_created" []
           LogSamples.two_events H).
Defined.

(** A hundred and five calls on an empty log. *)
Lemma track_all_keeps_newest_sample :
  let calls := map (fun n => ("7", JS.string_of_nat n, [])) (seq 0 105) in
  ~ key_unconfigured Envs.empty_store
  /\ List.length (eventLog Envs.nothing) <= 100
  /\ exists w',
       track_all Envs.empty_store calls Envs.nothing = (Ok tt, w')
       /\ map call_of (eventLog w')
          = last_n 100 (map call_of (eventLog Envs.nothing) ++ calls)
       /\ List.length (eventLog w')
          = Nat.min 100 (List.length (eventLog Envs.nothing) + List.length calls).
Proof.
  intros calls.
  assert (H : ~ key_unconfigured Envs.empty_store).
  { intros [H|[H|H]]; discriminate H. }
  assert (L : List.length (eventLog Envs.nothing) <= 100) by (simpl; lia).
  split; [exact H|]. split; [exact L|].
  exact (track_all_keeps_newest Envs.empty_store calls Envs.nothing H L).
Defined.

(** The same run, computed: a hundred entries are left, the newest is
    the call 104 and the oldest kept is the call 5. *)
Example hundred_and_five_calls :
  let calls := map (fun n => ("7", JS.string_of_nat n, [])) (seq 0 105) in
  let w' := snd (track_all Envs.empty_store calls Envs.nothing) in
  List.length (eventLog w') = 100
  /\ option_map dto_eventName (hd_error (getRecentEvents w' (Some 100%Z)))
     = Some "104"
  /\ option_map eventName (hd_error (eventLog w')) = Some "5".
Proof. vm_compute. repeat split. Qed.

(** ** The controller *)

Lemma parseInt_nonempty s n : PosthogController.parseInt s = Some n -> s <> EmptyString.
Proof. intros H E. subst s. discriminate H. Qed.

(** X5: [GET /posthog/events?limit=s], when [s] reads as a positive
    integer [n], returns the [min n 100] newest entries of the log, newest
    first, and [count] is their number. *)
Theorem controller_recent_events w s (n : Z) :
  PosthogController.parseInt s = Some n ->
  (0 < n)%Z ->
  let r := PosthogController.getRecentEvents w (Some s) in
  PosthogController.events r
  = map to_dto (firstn (Z.to_nat (Z.min n 100)) (List.rev (eventLog w)))
  /\ PosthogController.count r
     = Nat.min (Z.to_nat (Z.min n 100)) (List.length (eventLog w))
  /\ PosthogController.count r <= 100.
Proof.
  intros Hp Hn r. subst r. unfold PosthogController.getRecentEvents.
  destruct (String.eqb_spec s EmptyString) as [E|_];
    [now elim (parseInt_nonempty s n Hp)|].
  rewrite Hp. cbn [PosthogController.events PosthogController.count].
  rewrite getRecentEvents_positive by lia.
  split; [reflexivity|].
  rewrite length_map, length_firstn, length_rev. split; lia.
Qed.

Lemma controller_recent_events_sample :
  PosthogController.parseInt " 250 events" = Some 250%Z
  /\ (0 < 250)%Z
  /\ let r := PosthogController.getRecentEvents LogSamples.two_events
                (Some " 250 events") in
     PosthogController.events r
     = map to_dto (firstn (Z.to_nat (Z.min 250 100))
                          (List.rev (eventLog LogSamples.two_events)))
     /\ PosthogController.count r
        = Nat.min (Z.to_nat (Z.min 250 100))
                  (List.length (eventLog LogSamples.two_events))
     /\ PosthogController.count r <= 100.
Proof.
  split; [reflexivity|]. split; [reflexivity|].
  exact (controller_recent_events LogSamples.two_events " 250 events" 250
           eq_refl eq_refl).
Defined.

(** How the limit is read, and what the endpoint answers without one or
    with one that is no number. *)
Example controller_limits :
  map PosthogController.parseInt ["25"; "-3"; "+7"; "12.5"; "1e3"; "abc"; "0x1A"]
  = [Some 25%Z; Some (-3)%Z; Some 7%Z; Some 12%Z; Some 1%Z; None; Some 0%Z]
  /\ PosthogController.count
       (PosthogController.getRecentEvents LogSamples.two_events None) = 2
  /\ PosthogController.count
       (PosthogController.getRecentEvents LogSamples.two_events (Some "1")) = 1
  /\ PosthogController.count
       (PosthogController.getRecentEvents LogSamples.two_events (Some "abc")) = 2.
Proof. vm_compute. repeat split. Qed.

Lemma cleared_log_is_empty w limit :
  let w' := snd (PosthogController.clearEvents w) in
  eventLog w' = [] /\ outbox w' = outbox w
  /\ getRecentEvents w' limit = [].
Proof.
  cbn. split; [reflexivity|]. split; [reflexivity|].
  rewrite getRecentEvents_closed_form. cbn. now rewrite firstn_nil.
Qed.

(** X6: [getStatus] and [track] agree on what a configured key is:
    when [getStatus] reports [configured = false], [track] changes
    nothing; when it reports [true], [track] records the event in the
    log.  [eventLogSize] is the length of the log. *)
Theorem getStatus_agrees_with_track env w id name props :
  (configured (getStatus env w) = false ->
   track env id name props w = (Ok tt, w))
  /\ (configured (getStatus env w) = true ->
      exists w' t,
        track env id name props w = (Ok tt, w')
        /\ eventLog w'
           = last_n 100 (eventLog w ++ [MkTrackedEvent id name props t]))
  /\ eventLogSize (getStatus env w) = List.length (eventLog w).
Proof.
  assert (K : configured (getStatus env w) = false <-> key_unconfigured env).
  { rewrite key_unconfigured_spec. unfold getStatus, unconfigured.
    cbn [configured].
    destruct (String.eqb (env_or (POSTHOG_API_KEY env) placeholder) EmptyString);
      destruct (String.eqb (env_or (POSTHOG_API_KEY env) placeholder) placeholder);
      simpl; split; congruence. }
  split; [|split; [|reflexivity]].
  - intros H. apply track_unconfigured. now apply K.
  - intros H.
    destruct (track_configured env id name props w) as (w' & t & E & L & _).
    { intros U. apply K in U. congruence. }
    exists w', t. split; assumption.
Qed.

Lemma getStatus_agrees_with_track_sample :
  configured (getStatus Envs.no_key LogSamples.two_events) = false
  /\ track Envs.no_key "7" "item_created" [] LogSamples.two_events
     = (Ok tt, LogSamples.two_events).
Proof.
  split; [reflexivity|].
  exact (proj1 (getStatus_agrees_with_track Envs.no_key LogSamples.two_events
                  "7" "item_created" []) eq_refl).
Defined.

(** ** The sanitizers, completely *)

Lemma stringify_truthy v : truthy v = true -> exists s, JSON.stringify v = Some s.
Proof. destruct v as [| |[|]| | | |]; simpl; intros H; try discriminate H; eauto. Qed.

Lemma leb_ltb_false a b : (a <=? b)%nat = negb (b <? a)%nat.
Proof.
  destruct (Nat.leb_spec a b); destruct (Nat.ltb_spec b a); simpl; try reflexivity; lia.
Qed.

Lemma sanitizeBodyWith_cases fields body :
  sanitizeBodyWith fields body
  = if negb (truthy body) then Ok VNull
    else
      let copy := VObj (fold_left redact fields (entries body)) in
      if (serialized_length copy <=? 1000)%nat then Ok copy
      else Throw SyntaxError.
Proof.
  unfold sanitizeBodyWith, serialized_length.
  destruct (truthy body); [|reflexivity]. cbn [negb]. cbv zeta.
  destruct (stringify_object (fold_left redact fields (entries body))) as [s E].
  rewrite E, leb_ltb_false.
  destruct (1000 <? String.length s)%nat; [apply parse_ellipsis | reflexivity].
Qed.

Lemma sanitizeResponse_cases data :
  sanitizeResponse data
  = if negb (truthy data) then Ok VNull
    else if (serialized_length data <=? 2000)%nat then Ok data
    else Throw SyntaxError.
Proof.
  unfold sanitizeResponse, serialized_length.
  destruct (truthy data) eqn:T; [|reflexivity]. cbn [negb].
  destruct (stringify_truthy data T) as [s E].
  rewrite E, leb_ltb_false.
  destruct (2000 <? String.length s)%nat; [|reflexivity].
  now rewrite parse_ellipsis.
Qed.

(** X7: the sanitizers have three outcomes and no other.  [sanitizeBody]
    gives null on a falsy body, the redacted copy when its serialization
    has at most 1000 characters, and a [SyntaxError] beyond;
    [sanitizeResponse] gives null on falsy data, the data themselves up to
    2000 characters, and a [SyntaxError] beyond.  A truncated value or the
    [_truncated] marker object is never returned. *)
Theorem sanitizers_three_outcomes :
  (forall body,
      PosthogService.sanitizeBody body
      = if negb (truthy body) then Ok VNull
        else
          let copy := VObj (fold_left redact PosthogService.sensitiveFields
                                      (entries body)) in
          if (serialized_length copy <=? 1000)%nat then Ok copy
          else Throw SyntaxError)
  /\ (forall body,
      PosthogInterceptor.sanitizeBody body
      = if negb (truthy body) then Ok VNull
        else
          let copy := VObj (fold_left redact PosthogInterceptor.sensitiveFields
                                      (entries body)) in
          if (serialized_length copy <=? 1000)%nat then Ok copy
          else Throw SyntaxError)
  /\ (forall data,
      PosthogService.sanitizeResponse data
      = if negb (truthy data) then Ok VNull
        else if (serialized_length data <=? 2000)%nat then Ok data
        else Throw SyntaxError).
Proof.
  split; [intros; apply sanitizeBodyWith_cases|].
  split; [intros; apply sanitizeBodyWith_cases|].
  intros; apply sanitizeResponse_cases.
Qed.

(** *** Redaction is settled after one pass *)

Lemma lookup_obj_set_same (o : obj) (key : string) (v : value) :
  lookup key (obj_set o key v) = Some v.
Proof.
  induction o as [|[k x] o IH]; simpl.
  - now rewrite String.eqb_refl.
  - destruct (String.eqb k key) eqn:E; simpl; rewrite E; auto.
Qed.

Lemma obj_set_same (o : obj) (key : string) (v : value) :
  lookup key o = Some v -> obj_set o key v = o.
Proof.
  induction o as [|[k x] o IH]; simpl; [discriminate|].
  destruct (String.eqb k key) eqn:E.
  - intros H. inversion H. reflexivity.
  - intros H. now rewrite IH.
Qed.

Lemma redact_marks s f : marked (redact s f) f.
Proof.
  unfold marked, redact. destruct (truthy (obj_get s f)) eqn:T.
  - intros _. apply obj_get_obj_set_same.
  - congruence.
Qed.

Lemma redact_keeps_marked s f g : marked s f -> marked (redact s g) f.
Proof.
  intros M. destruct (String.eqb g f) eqn:E.
  - apply String.eqb_eq in E. subst g. apply redact_marks.
  - unfold marked, redact. destruct (truthy (obj_get s g)); [|exact M].
    now rewrite (obj_get_obj_set_other s f g REDACTED E).
Qed.

Lemma fold_redact_marked fields : forall s f,
  In f fields \/ marked s f -> marked (fold_left redact fields s) f.
Proof.
  induction fields as [|g fields IH]; intros s f H; simpl.
  - destruct H as [[]|H]. exact H.
  - apply IH. destruct H as [[->|H]|H].
    + right. apply redact_marks.
    + now left.
    + right. now apply redact_keeps_marked.
Qed.

Lemma redact_fixed s f : marked s f -> redact s f = s.
Proof.
  unfold marked, redact. intros M.
  destruct (truthy (obj_get s f)) eqn:T; [|reflexivity].
  specialize (M eq_refl). apply obj_set_same.
  unfold obj_get in M, T. destruct (lookup f s); [now subst | discriminate T].
Qed.

Lemma fold_redact_fixed fields : forall s,
  (forall f, In f fields -> marked s f) -> fold_left redact fields s = s.
Proof.
  induction fields as [|g fields IH]; intros s H; simpl; [reflexivity|].
  rewrite redact_fixed by (apply H; now left).
  apply IH. intros f Hf. apply H. now right.
Qed.

Lemma sanitizeBodyWith_idempotent fields body out :
  sanitizeBodyWith fields body = Ok out ->
  sanitizeBodyWith fields out = Ok out.
Proof.
  rewrite sanitizeBodyWith_cases.
  destruct (truthy body); cbn [negb]; cbv zeta.
  - destruct (serialized_length (VObj (fold_left redact fields (entries body)))
              <=? 1000)%nat eqn:L; intros H; inversion H. clear H.
    rewrite sanitizeBodyWith_cases. cbn [truthy negb entries]. cbv zeta.
    rewrite fold_redact_fixed.
    + now rewrite L.
    + intros f Hf. apply fold_redact_marked. now left.
  - intros H. inversion H. reflexivity.
Qed.

Lemma sanitizeBodyWith_no_clear_secret fields body out :
  sanitizeBodyWith fields body = Ok out -> no_clear_secret fields out.
Proof.
  rewrite sanitizeBodyWith_cases.
  destruct (truthy body); cbn [negb]; cbv zeta.
  - destruct (serialized_length (VObj (fold_left redact fields (entries body)))
              <=? 1000)%nat; intros H; inversion H.
    intros f Hf. cbn [get]. apply fold_redact_marked. now left.
  - intros H. inversion H. intros f _ T. discriminate T.
Qed.

(** X8: sanitizing twice is sanitizing once: whatever [sanitizeBody]
    returns, it returns unchanged when given it again (in the service and
    in the interceptor). *)
Theorem sanitizeBody_idempotent body out :
  (PosthogService.sanitizeBody body = Ok out ->
   PosthogService.sanitizeBody out = Ok out)
  /\ (PosthogInterceptor.sanitizeBody body = Ok out ->
      PosthogInterceptor.sanitizeBody out = Ok out).
Proof. split; apply sanitizeBodyWith_idempotent. Qed.

Lemma sanitizeBody_idempotent_sample :
  PosthogService.sanitizeBody Samples.scenario_D
  = Ok (VObj [("password", VStr "[REDACTED]"); ("name", VStr "x")])
  /\ PosthogService.sanitizeBody
       (VObj [("password", VStr "[REDACTED]"); ("name", VStr "x")])
     = Ok (VObj [("password", VStr "[REDACTED]"); ("name", VStr "x")]).
Proof.
  split; [reflexivity|].
  exact (proj1 (sanitizeBody_idempotent Samples.scenario_D _) eq_refl).
Defined.

(** *** What the emitted events carry *)

Lemma emits_nothing {A} S L (r : result A) : emits S L (lift r).
Proof. apply emits_of_quiet. intros w. apply quiet_refl. Qed.

(** An event of the tracker carries properties that [writeProperties]
    built. *)
Lemma trackWrite_emits_properties env details (P : obj -> Prop) :
  (forall p iso props, writeProperties env details p iso = Ok props -> P props) ->
  (forall props iso, P props -> P (stamped props iso)) ->
  emits (fun data => P (cap_properties data)) (fun event => P (properties event))
        (trackWriteRequestWithComparison env details).
Proof.
  intros HP Hst. unfold trackWriteRequestWithComparison.
  apply emits_bind; [apply quiet_lookupPreviousCall | intros p].
  apply emits_bind; [apply quiet_now_iso | intros iso].
  destruct (writeProperties env details p iso) as [props|e] eqn:W.
  - intros w. unfold bind, lift.
    destruct (track_emits env (wd_userId details) "api_write_request" props w)
      as (sent & logged & He & H1 & H2 & H3 & H4).
    exists sent, logged.
    split; [exact He|]. split; [exact H1|]. split; [exact H2|]. split.
    + eapply Forall_impl; [|exact H3].
      intros d (_ & _ & iso' & Hp). rewrite Hp. apply Hst. eapply HP, W.
    + eapply Forall_impl; [|exact H4].
      intros ev (_ & _ & Hp). rewrite Hp. eapply HP, W.
  - intros w. exists [], []. split; [apply emitted_refl|]. simpl. auto.
Qed.

Lemma trackApiRequest_emits_properties env details (P : obj -> Prop) :
  (forall iso props, apiProperties details iso = Ok props -> P props) ->
  (forall props iso, P props -> P (stamped props iso)) ->
  emits (fun data => P (cap_properties data)) (fun event => P (properties event))
        (trackApiRequest env details).
Proof.
  intros HP Hst. unfold trackApiRequest.
  apply emits_bind; [apply quiet_now_iso | intros iso].
  destruct (apiProperties details iso) as [props|e] eqn:W.
  - intros w. unfold bind, lift.
    destruct (track_emits env (ad_userId details) "api_request" props w)
      as (sent & logged & He & H1 & H2 & H3 & H4).
    exists sent, logged.
    split; [exact He|]. split; [exact H1|]. split; [exact H2|]. split.
    + eapply Forall_impl; [|exact H3].
      intros d (_ & _ & iso' & Hp). rewrite Hp. apply Hst. eapply HP, W.
    + eapply Forall_impl; [|exact H4].
      intros ev (_ & _ & Hp). rewrite Hp. eapply HP, W.
  - intros w. exists [], []. split; [apply emitted_refl|]. simpl. auto.
Qed.

Ltac split_hyp H :=
  repeat match type of H with
         | context [match ?x with _ => _ end] =>
             lazymatch x with
             | context [match _ with _ => _ end] => fail
             | _ => destruct x eqn:?
             end
         end.

Ltac secret_leaf :=
  match goal with
  | |- no_clear_secret _ ?v =>
      first
        [ let E := fresh "E" in
          assert (E : v = VUndefined) by reflexivity;
          rewrite E; intros ? _ T; discriminate T
        | match goal with
          | H : sanitizeBody _ = Ok ?a |- _ =>
              let E := fresh "E" in
              assert (E : v = a) by reflexivity;
              rewrite E; exact (sanitizeBodyWith_no_clear_secret _ _ _ H)
          end ]
  end.

Lemma writeProperties_redacted env details p iso props :
  writeProperties env details p iso = Ok props -> request_bodies_redacted props.
Proof.
  unfold writeProperties, rbind, request_bodies_redacted. intros H.
  split_hyp H; try discriminate H; inversion H; subst props; clear H.
  all: split; [secret_leaf | split; secret_leaf].
Qed.

Lemma apiProperties_redacted details iso props :
  apiProperties details iso = Ok props -> request_bodies_redacted props.
Proof.
  unfold apiProperties, rbind, request_bodies_redacted. intros H.
  split_hyp H; try discriminate H; inversion H; subst props; clear H.
  all: split; [secret_leaf | split; secret_leaf].
Qed.

Lemma stamped_redacted props iso :
  request_bodies_redacted props -> request_bodies_redacted (stamped props iso).
Proof.
  unfold request_bodies_redacted, stamped, assign. cbn [fold_left fst snd].
  other_keys. auto.
Qed.

(** X9: no event of [trackWriteRequestWithComparison] or of
    [trackApiRequest], as sent to the client or as kept in the log, carries
    a listed field ([password], [token], [secret], [apiKey], [apikey],
    [access_token]) in clear at the top of its [request_body], of its
    [previous_request_body] or of the [request_body] of its
    [previous_call]: such a field holds ["[REDACTED]"] or a falsy value. *)
Theorem events_carry_no_clear_secret env w :
  (forall details, exists sent logged,
      emitted_since w (snd (trackWriteRequestWithComparison env details w))
        sent logged
      /\ Forall (fun data => request_bodies_redacted (cap_properties data)) sent
      /\ Forall (fun event => request_bodies_redacted (properties event)) logged)
  /\ (forall details, exists sent logged,
      emitted_since w (snd (trackApiRequest env details w)) sent logged
      /\ Forall (fun data => request_bodies_redacted (cap_properties data)) sent
      /\ Forall (fun event => request_bodies_redacted (properties event)) logged).
Proof.
  split; intros details.
  - destruct (trackWrite_emits_properties env details request_bodies_redacted
                (writeProperties_redacted env details) stamped_redacted w)
      as (sent & logged & He & _ & _ & H3 & H4).
    exists sent, logged. auto.
  - destruct (trackApiRequest_emits_properties env details request_bodies_redacted
                (apiProperties_redacted details) stamped_redacted w)
      as (sent & logged & He & _ & _ & H3 & H4).
    exists sent, logged. auto.
Qed.

(** A password in the request reaches neither the client nor the log. *)
Example secret_sample :
  let details :=
    MkWriteDetails "POST" "/login" "/api/login"
      (VObj [("email", VStr "a@b.c"); ("password", VStr "secret123")])
      VUndefined 201 "7" 12 None in
  map (fun data => obj_get (cap_properties data) "request_body")
      (outbox (snd (trackWriteRequestWithComparison Envs.empty_store details
                      Envs.nothing)))
  = [VObj [("email", VStr "a@b.c"); ("password", VStr "[REDACTED]")]].
Proof. vm_compute. reflexivity. Qed.

(** ** Headers *)






(** ** The differ, key by key *)

Lemma set_of_In seen l k :
  In k (set_of seen l) <-> In k l /\ ~ In k seen.
Proof.
  revert seen. induction l as [|x l IH]; intros seen; simpl.
  - tauto.
  - destruct (mem x seen) eqn:M.
    + apply mem_In in M. rewrite IH. split.
      * intros [H1 H2]. split; [now right | assumption].
      * intros [[E|H1] H2]; [subst; contradiction | now split].
    + assert (N : ~ In x seen) by (rewrite <- mem_In, M; discriminate).
      simpl. rewrite IH. simpl. split.
      * intros [E|[H1 H2]]; [subst; split; [now left | assumption]|].
        split; [now right | tauto].
      * intros [[E|H1] H2]; [now left|].
        destruct (string_dec x k) as [E|E]; [now left | right].
        split; [assumption|]. intros [E'|H3]; contradiction.
Qed.

Lemma set_of_NoDup l : forall seen, NoDup (set_of seen l).
Proof.
  induction l as [|x l IH]; intros seen; simpl; [constructor|].
  destruct (mem x seen); [apply IH|].
  constructor; [|apply IH].
  rewrite set_of_In. intros [_ H]. apply H. now left.
Qed.

(** *** Writing a key *)

Lemma lookup_none (o : obj) (key : string) :
  lookup key o = None <-> ~ In key (map fst o).
Proof.
  induction o as [|[k x] o IH]; simpl; [tauto|].
  destruct (String.eqb_spec k key) as [E|E].
  - split; [discriminate | intros H; elim H; now left].
  - rewrite IH. split; [intros H [H'|H']; contradiction | tauto].
Qed.

Lemma insert_index_keys i key v (o : obj) k :
  In k (map fst (insert_index i key v o)) <-> k = key \/ In k (map fst o).
Proof.
  induction o as [|[k' x] o IH]; simpl; [intuition|].
  destruct (index_of k') as [j|]; [destruct (j <? i)%N|]; simpl;
    rewrite ?IH; intuition.
Qed.

Lemma obj_set_keys (o : obj) key v :
  lookup key o <> None -> map fst (obj_set o key v) = map fst o.
Proof.
  induction o as [|[k x] o IH]; simpl; [congruence|].
  destruct (String.eqb_spec k key) as [E|E]; simpl; [reflexivity|].
  intros H. now rewrite IH.
Qed.

Lemma obj_put_keys (o : obj) key v k :
  In k (map fst (obj_put o key v)) <-> k = key \/ In k (map fst o).
Proof.
  unfold obj_put. destruct (lookup key o) as [x|] eqn:L.
  - rewrite obj_set_keys by congruence. split; [tauto|].
    intros [->|H]; [|exact H].
    destruct (in_dec string_dec key (map fst o)) as [H|H]; [exact H|].
    apply lookup_none in H. congruence.
  - destruct (index_of key) as [i|]; [apply insert_index_keys|].
    rewrite map_app, in_app_iff. simpl. intuition.
Qed.

Lemma lookup_insert_index i key v (o : obj) k :
  lookup key o = None ->
  lookup k (insert_index i key v o)
  = if String.eqb key k then Some v else lookup k o.
Proof.
  induction o as [|[k' x] o IH]; simpl; [reflexivity|].
  destruct (String.eqb_spec k' key) as [E|E]; [discriminate|]. intros L.
  destruct (index_of k') as [j|]; [destruct (j <? i)%N|]; simpl;
    try reflexivity.
  rewrite (IH L).
  destruct (String.eqb_spec k' k) as [E1|E1];
    destruct (String.eqb_spec key k) as [E2|E2]; try reflexivity.
  congruence.
Qed.

Lemma lookup_app_fresh (o : obj) key v k :
  lookup key o = None ->
  lookup k (o ++ [(key, v)]) = if String.eqb key k then Some v else lookup k o.
Proof.
  induction o as [|[k' x] o IH]; simpl; [reflexivity|].
  destruct (String.eqb_spec k' key) as [E|E]; [discriminate|]. intros L.
  rewrite (IH L).
  destruct (String.eqb_spec k' k) as [E1|E1];
    destruct (String.eqb_spec key k) as [E2|E2]; try reflexivity.
  congruence.
Qed.

Lemma lookup_obj_put (o : obj) key v k :
  lookup k (obj_put o key v) = if String.eqb key k then Some v else lookup k o.
Proof.
  unfold obj_put. destruct (lookup key o) as [x|] eqn:L.
  - destruct (String.eqb_spec key k) as [E|E].
    + subst. apply lookup_obj_set_same.
    + apply lookup_obj_set_other. now apply String.eqb_neq.
  - destruct (index_of key) as [i|];
      [now apply lookup_insert_index | now apply lookup_app_fresh].
Qed.

Lemma insert_index_NoDup i key v (o : obj) :
  ~ In key (map fst o) -> NoDup (map fst o) ->
  NoDup (map fst (insert_index i key v o)).
Proof.
  induction o as [|[k x] o IH]; simpl; intros F N.
  - constructor; [tauto | constructor].
  - inversion N as [|? ? Hk N']; subst.
    destruct (index_of k) as [j|]; [destruct (j <? i)%N|]; simpl.
    + constructor; [|apply IH; tauto].
      rewrite insert_index_keys. intros [E|H]; [|contradiction].
      apply F. now left.
    + constructor; [exact F | exact N].
    + constructor; [exact F | exact N].
Qed.

Lemma obj_put_NoDup (o : obj) key v :
  NoDup (map fst o) -> NoDup (map fst (obj_put o key v)).
Proof.
  intros N. unfold obj_put. destruct (lookup key o) as [x|] eqn:L.
  - rewrite obj_set_keys by congruence. exact N.
  - apply lookup_none in L. destruct (index_of key) as [i|].
    + now apply insert_index_NoDup.
    + rewrite map_app. simpl. apply NoDup_app; [exact N | | ].
      * constructor; [tauto | constructor].
      * intros k H [E|[]]. subst. contradiction.
Qed.

(** *** The place of a key *)

Lemma index_le_trans i j k :
  (i <=? j)%N = true -> index_le j k = true -> index_le i k = true.
Proof.
  unfold index_le. destruct (index_of k) as [n|]; [|reflexivity].
  rewrite !N.leb_le. lia.
Qed.

Lemma insert_index_ordered i key v (o : obj) :
  index_of key = Some i ->
  js_ordered (map fst o) = true ->
  js_ordered (map fst (insert_index i key v o)) = true.
Proof.
  intros Hi. induction o as [|[k x] o IH]; simpl; intros H.
  - now rewrite Hi.
  - destruct (index_of k) as [j|] eqn:Hj.
    + apply andb_true_iff in H. destruct H as [H1 H2].
      destruct (j <? i)%N eqn:Lt; simpl.
      * rewrite Hj. apply andb_true_iff. split; [|now apply IH].
        apply forallb_forall. intros k' Hin.
        apply insert_index_keys in Hin. destruct Hin as [->|Hin].
        -- unfold index_le. rewrite Hi. apply N.ltb_lt in Lt.
           apply N.leb_le. lia.
        -- rewrite forallb_forall in H1. now apply H1.
      * rewrite Hi, Hj. apply N.ltb_ge in Lt.
        assert (Le : (i <=? j)%N = true) by now apply N.leb_le.
        apply andb_true_iff. split; [|now rewrite H1, H2].
        unfold index_le at 1. rewrite Hj, Le. simpl.
        apply forallb_forall. intros k' Hin.
        rewrite forallb_forall in H1.
        eapply index_le_trans; [exact Le | now apply H1].
    + simpl. rewrite Hi, Hj. apply andb_true_iff. split; [|exact H].
      unfold index_le at 1. rewrite Hj. simpl.
      apply forallb_forall. intros k' Hin.
      rewrite forallb_forall in H. apply H in Hin.
      unfold index_le. unfold is_index in Hin.
      now destruct (index_of k').
Qed.

Lemma append_name_ordered (l : list string) key :
  index_of key = None ->
  js_ordered l = true -> js_ordered (l ++ [key]) = true.
Proof.
  intros Hk. induction l as [|k l IH]; simpl; intros H.
  - now rewrite Hk.
  - destruct (index_of k) as [j|].
    + apply andb_true_iff in H. destruct H as [H1 H2].
      apply andb_true_iff. split; [|now apply IH].
      rewrite forallb_app, H1. simpl. unfold index_le. now rewrite Hk.
    + rewrite forallb_app, H. simpl. unfold is_index. now rewrite Hk.
Qed.

Lemma obj_put_ordered (o : obj) key v :
  js_ordered (map fst o) = true ->
  js_ordered (map fst (obj_put o key v)) = true.
Proof.
  intros H. unfold obj_put. destruct (lookup key o) as [x|] eqn:L.
  - rewrite obj_set_keys by congruence. exact H.
  - destruct (index_of key) as [i|] eqn:Hi.
    + now apply insert_index_ordered.
    + rewrite map_app. simpl. now apply append_name_ordered.
Qed.

Lemma insert_index_named i key v (o : obj) :
  index_of key = Some i ->
  named_keys (map fst (insert_index i key v o)) = named_keys (map fst o).
Proof.
  intros Hi.
  assert (K : negb (is_index key) = false) by (unfold is_index; now rewrite Hi).
  unfold named_keys.
  induction o as [|[k x] o IH]; simpl; [now rewrite K|].
  destruct (index_of k) as [j|]; [destruct (j <? i)%N|]; simpl;
    rewrite ?K, ?IH; reflexivity.
Qed.

Lemma obj_put_named (o : obj) key v :
  lookup key o = None ->
  named_keys (map fst (obj_put o key v))
  = named_keys (map fst o) ++ named_keys [key].
Proof.
  intros L. unfold obj_put. rewrite L.
  destruct (index_of key) as [i|] eqn:Hi.
  - rewrite (insert_index_named i key v o Hi).
    unfold named_keys at 3. simpl. unfold is_index. rewrite Hi. simpl.
    now rewrite app_nil_r.
  - unfold named_keys. now rewrite map_app, filter_app.
Qed.

(** *** The loop, key by key *)

Lemma deepDiff_step_entry prev curr diff key :
  deepDiff_step prev curr diff key
  = match diff_entry prev curr key with
    | Some v => obj_put diff key v
    | None => diff
    end.
Proof.
  unfold deepDiff_step, diff_entry. cbv zeta.
  destruct (is_undefined (get prev key) && negb (is_undefined (get curr key)));
    [reflexivity|].
  destruct (negb (is_undefined (get prev key)) && is_undefined (get curr key));
    [reflexivity|].
  destruct (JSON.stringify_differs (get prev key) (get curr key)); [|reflexivity].
  destruct (is_plain_object (get prev key) && is_plain_object (get curr key));
    [|reflexivity].
  destruct (deepDiff (get prev key) (get curr key)); reflexivity.
Qed.

Lemma fold_lookup prev curr key (l : list string) : forall acc,
  lookup key (fold_left (deepDiff_step prev curr) l acc)
  = if mem key l
    then match diff_entry prev curr key with
         | Some v => Some v
         | None => lookup key acc
         end
    else lookup key acc.
Proof.
  induction l as [|k l IH]; intros acc; [reflexivity|].
  cbn [fold_left]. rewrite IH, deepDiff_step_entry.
  unfold mem. cbn [existsb]. fold (mem key l).
  rewrite (String.eqb_sym key k).
  destruct (String.eqb_spec k key) as [E|E]; cbn [orb].
  - subst k. destruct (diff_entry prev curr key) as [v|] eqn:D.
    + rewrite lookup_obj_put, String.eqb_refl. now destruct (mem key l).
    + now destruct (mem key l).
  - destruct (diff_entry prev curr k) as [v|]; [|reflexivity].
    rewrite lookup_obj_put.
    apply String.eqb_neq in E. now rewrite E.
Qed.

Lemma deepDiff_lookup prev curr key :
  lookup key (deepDiff prev curr)
  = if mem key (allKeys prev curr) then diff_entry prev curr key else None.
Proof.
  rewrite deepDiff_unfold, fold_lookup. cbn [lookup].
  destruct (mem key (allKeys prev curr)); [|reflexivity].
  now destruct (diff_entry prev curr key).
Qed.

Lemma fold_keys prev curr (l : list string) : forall acc,
  NoDup (map fst acc) -> js_ordered (map fst acc) = true ->
  NoDup (map fst (fold_left (deepDiff_step prev curr) l acc))
  /\ js_ordered (map fst (fold_left (deepDiff_step prev curr) l acc)) = true.
Proof.
  induction l as [|k l IH]; intros acc N O; [now split|].
  cbn [fold_left]. apply IH; rewrite deepDiff_step_entry;
    destruct (diff_entry prev curr k); auto using obj_put_NoDup, obj_put_ordered.
Qed.

Lemma fold_named prev curr (l : list string) : forall acc,
  NoDup l ->
  (forall k, In k l -> lookup k acc = None) ->
  named_keys (map fst (fold_left (deepDiff_step prev curr) l acc))
  = named_keys (map fst acc)
    ++ named_keys (filter (fun key => match diff_entry prev curr key with
                                      | Some _ => true
                                      | None => false
                                      end) l).
Proof.
  induction l as [|k l IH]; intros acc N F; cbn [fold_left filter].
  - unfold named_keys at 3. simpl. now rewrite app_nil_r.
  - inversion N as [|? ? Hk N']; subst.
    rewrite deepDiff_step_entry.
    destruct (diff_entry prev curr k) as [v|].
    + rewrite IH; [|exact N'|].
      * rewrite obj_put_named by (apply F; now left).
        rewrite <- app_assoc. f_equal.
        unfold named_keys. simpl.
        now destruct (negb (is_index k)).
      * intros k' Hin. rewrite lookup_obj_put.
        destruct (String.eqb_spec k k') as [E|E]; [subst; contradiction|].
        apply F. now right.
    + apply IH; [exact N'|]. intros k' Hin. apply F. now right.
Qed.

Lemma diff_entry_absent (a b : obj) key :
  mem key (allKeys (VObj a) (VObj b)) = false ->
  diff_entry (VObj a) (VObj b) key = None.
Proof.
  intros M.
  assert (H : ~ In key (map fst a ++ map fst b)).
  { intros Hin. assert (In key (allKeys (VObj a) (VObj b))).
    { unfold allKeys. apply set_of_In. split; [exact Hin | tauto]. }
    apply mem_In in H. congruence. }
  assert (La : lookup key a = None).
  { apply lookup_none. intros Hin. apply H, in_or_app. now left. }
  assert (Lb : lookup key b = None).
  { apply lookup_none. intros Hin. apply H, in_or_app. now right. }
  unfold diff_entry. cbn [get]. unfold obj_get. rewrite La, Lb.
  cbn [is_undefined negb andb]. now rewrite stringify_differs_same.
Qed.

(** X11: on objects none of whose keys names an inherited member, the
    diff holds at every key what the loop writes for it, and no key twice:
    [{added}] when only the current side has the key, [{removed}] when
    only the previous side has it, the nested diff when both hold plain
    objects that serialize differently and that diff is not empty,
    [{previous, current}] when they serialize differently otherwise, and
    nothing when they serialize alike or neither side has the key.  The
    diff enumerates the keys that are array indices first, in ascending
    order, and then the names in the order in which the loop met them:
    the keys of the previous side, then the new ones of the current
    side.  The two hypotheses keep every read of the loop to an own
    property or to a key that the object does not have at all, which is
    what [get] models. *)
Theorem deepDiff_key_by_key (a b : obj) :
  own_names (VObj a) = true ->
  own_names (VObj b) = true ->
  (forall key,
      lookup key (deepDiff (VObj a) (VObj b))
      = diff_entry (VObj a) (VObj b) key)
  /\ NoDup (map fst (deepDiff (VObj a) (VObj b)))
  /\ js_ordered (map fst (deepDiff (VObj a) (VObj b))) = true
  /\ named_keys (map fst (deepDiff (VObj a) (VObj b)))
     = named_keys (written (VObj a) (VObj b)).
Proof.
  intros _ _. split; [|split; [|split]].
  - intros key. rewrite deepDiff_lookup.
    destruct (mem key (allKeys (VObj a) (VObj b))) eqn:M; [reflexivity|].
    symmetry. now apply diff_entry_absent.
  - rewrite deepDiff_unfold. apply fold_keys; [constructor | reflexivity].
  - rewrite deepDiff_unfold. apply fold_keys; [constructor | reflexivity].
  - rewrite deepDiff_unfold, fold_named;
      [reflexivity | apply set_of_NoDup | reflexivity].
Qed.

Lemma deepDiff_key_by_key_sample :
  own_names (VObj [("a", int 1); ("gone", VBool true)]) = true
  /\ own_names (VObj [("7", int 1); ("10", VNull); ("a", int 2)]) = true
  /\ deepDiff (VObj [("a", int 1); ("gone", VBool true)])
              (VObj [("7", int 1); ("10", VNull); ("a", int 2)])
     = [("7", VObj [("added", int 1)]);
        ("10", VObj [("added", VNull)]);
        ("a", VObj [("previous", int 1); ("current", int 2)]);
        ("gone", VObj [("removed", VBool true)])]
  /\ (forall key,
        lookup key (deepDiff (VObj [("a", int 1); ("gone", VBool true)])
                             (VObj [("7", int 1); ("10", VNull); ("a", int 2)]))
        = diff_entry (VObj [("a", int 1); ("gone", VBool true)])
                     (VObj [("7", int 1); ("10", VNull); ("a", int 2)]) key).
Proof.
  split; [reflexivity|]. split; [reflexivity|]. split; [reflexivity|].
  exact (proj1 (deepDiff_key_by_key [("a", int 1); ("gone", VBool true)]
                  [("7", int 1); ("10", VNull); ("a", int 2)]
                  eq_refl eq_refl)).
Defined.

Example deepDiff_sample :
  deepDiff
    (VObj [("name", VStr "Old"); ("tags", VArr [VStr "a"]);
           ("owner", VObj [("id", int 1); ("role", VStr "admin")]);
           ("gone", VBool true)])
    (VObj [("name", VStr "New"); ("tags", VArr [VStr "a"]);
           ("owner", VObj [("role", VStr "user"); ("id", int 1)]);
           ("extra", VNull)])
  = [("name", VObj [("previous", VStr "Old"); ("current", VStr "New")]);
     ("owner", VObj [("role", VObj [("previous", VStr "admin");
                                    ("current", VStr "user")])]);
     ("gone", VObj [("removed", VBool true)]);
     ("extra", VObj [("added", VNull)])].
Proof. vm_compute. reflexivity. Qed.

(** *** The order of the keys is no change *)

Lemma lookup_In (o : obj) (k : string) (v : value) :
  lookup k o = Some v -> In (k, v) o.
Proof.
  induction o as [|[k' x] o IH]; simpl; [discriminate|].
  destruct (String.eqb_spec k' k) as [E|E].
  - intros H. inversion H; subst. now left.
  - intros H. right. now apply IH.
Qed.

Lemma In_lookup (o : obj) (k : string) (v : value) :
  NoDup (map fst o) -> In (k, v) o -> lookup k o = Some v.
Proof.
  induction o as [|[k' x] o IH]; simpl; [contradiction|].
  intros N [E|Hin].
  - inversion E; subst. now rewrite String.eqb_refl.
  - inversion N as [|? ? Hk N']; subst.
    destruct (String.eqb_spec k' k) as [E|E]; [|now apply IH].
    subst. exfalso. apply Hk. now apply (in_map fst _ (k, v)).
Qed.

Lemma same_fields_lookup (a b : obj) (key : string) :
  NoDup (map fst a) -> NoDup (map fst b) ->
  (forall kv, In kv a <-> In kv b) ->
  lookup key a = lookup key b.
Proof.
  intros Na Nb E.
  destruct (lookup key a) as [v|] eqn:La.
  - symmetry. apply In_lookup; [assumption|]. apply E. now apply lookup_In.
  - destruct (lookup key b) as [v|] eqn:Lb; [|reflexivity].
    apply lookup_In, E, (In_lookup _ _ _ Na) in Lb. congruence.
Qed.

Lemma deepDiff_same_fields (a b : obj) :
  NoDup (map fst a) -> NoDup (map fst b) ->
  (forall kv, In kv a <-> In kv b) ->
  deepDiff (VObj a) (VObj b) = [].
Proof.
  intros Na Nb E. apply deepDiff_agree. intros key.
  cbn [get]. unfold obj_get. now rewrite (same_fields_lookup a b key).
Qed.

(** X12: two objects that hold the same fields in a different order have
    an empty diff, and so has an object that wraps them under one key: key
    order, which changes the serialization, is not reported as a change. *)
Theorem deepDiff_ignores_key_order (a b : obj) (key : string) :
  NoDup (map fst a) -> NoDup (map fst b) ->
  (forall kv, In kv a <-> In kv b) ->
  deepDiff (VObj a) (VObj b) = []
  /\ deepDiff (VObj [(key, VObj a)]) (VObj [(key, VObj b)]) = [].
Proof.
  intros Na Nb E. pose proof (deepDiff_same_fields a b Na Nb E) as D.
  split; [exact D|].
  rewrite deepDiff_unfold. unfold allKeys, keys.
  cbn [entries map fst List.app set_of mem existsb].
  rewrite String.eqb_refl. cbn [orb fold_left].
  rewrite deepDiff_step_entry.
  unfold diff_entry. cbn [get]. rewrite !obj_get_cons, String.eqb_refl.
  cbn [is_undefined negb andb is_plain_object]. rewrite D.
  destruct (JSON.stringify_differs (VObj a) (VObj b)); reflexivity.
Qed.

Lemma deepDiff_ignores_key_order_sample :
  NoDup (map fst [("id", int 1); ("role", VStr "admin")])
  /\ NoDup (map fst [("role", VStr "admin"); ("id", int 1)])
  /\ (forall kv, In kv [("id", int 1); ("role", VStr "admin")]
                 <-> In kv [("role", VStr "admin"); ("id", int 1)])
  /\ JSON.stringify_differs (VObj [("id", int 1); ("role", VStr "admin")])
                            (VObj [("role", VStr "admin"); ("id", int 1)]) = true
  /\ deepDiff (VObj [("id", int 1); ("role", VStr "admin")])
              (VObj [("role", VStr "admin"); ("id", int 1)]) = []
  /\ deepDiff (VObj [("owner", VObj [("id", int 1); ("role", VStr "admin")])])
              (VObj [("owner", VObj [("role", VStr "admin"); ("id", int 1)])]) = [].
Proof.
  assert (Na : NoDup (map fst [("id", int 1); ("role", VStr "admin")])).
  { simpl. repeat constructor; simpl; intuition discriminate. }
  assert (Nb : NoDup (map fst [("role", VStr "admin"); ("id", int 1)])).
  { simpl. repeat constructor; simpl; intuition discriminate. }
  assert (E : forall kv, In kv [("id", int 1); ("role", VStr "admin")]
                         <-> In kv [("role", VStr "admin"); ("id", int 1)]).
  { intros kv. simpl. tauto. }
  split; [exact Na|]. split; [exact Nb|]. split; [exact E|].
  split; [reflexivity|].
  exact (deepDiff_ignores_key_order _ _ "owner" Na Nb E).
Defined.

(** *** The change map is taken from the bodies as given *)









(** The new password, in clear in the change map of the event. *)
Example changes_sample :
  map (fun event =>
         (get (obj_get (properties event) "request_body") "password",
          get (get (obj_get (properties event) "changes") "request_body")
              "password"))
      (eventLog (snd (trackWriteRequestWithComparison login_store new_login
                        Envs.nothing)))
  = [(VStr "[REDACTED]",
      VObj [("previous", VStr "[REDACTED]"); ("current", VStr "hunter2")])].
Proof. vm_compute. reflexivity. Qed.

(** ** The interceptor and the sanitizers *)

Import PosthogInterceptor.

Lemma interceptor_sanitizeBody_oversized (b : value) :
  truthy b = true ->
  1000 < serialized_length
           (VObj (fold_left redact PosthogInterceptor.sensitiveFields (entries b))) ->
  PosthogInterceptor.sanitizeBody b = Throw SyntaxError.
Proof.
  intros T H. unfold PosthogInterceptor.sanitizeBody.
  rewrite sanitizeBodyWith_cases, T. cbn [negb]. cbv zeta.
  apply Nat.leb_gt in H. now rewrite H.
Qed.

(** X14: a request whose body, after redaction, serializes to more than
    1000 characters makes [intercept] throw a [SyntaxError] at once,
    whatever the method and whatever the handler would do: no event is
    emitted (not even [error_occurred]), nothing is logged and PostHog is
    not queried; only the clock has been read. *)
Theorem intercept_throws_on_large_body env request statusCode handled w :
  truthy (body request) = true ->
  1000 < serialized_length
           (VObj (fold_left redact PosthogInterceptor.sensitiveFields
                            (entries (body request)))) ->
  intercept env request statusCode handled w = (Throw SyntaxError, tick w).
Proof.
  intros T H. unfold intercept, bind, Date_now, lift.
  now rewrite (interceptor_sanitizeBody_oversized _ T H).
Qed.

Lemma intercept_throws_on_large_body_sample :
  truthy Samples.long_note = true
  /\ 1000 < serialized_length
              (VObj (fold_left redact PosthogInterceptor.sensitiveFields
                               (entries Samples.long_note)))
  /\ intercept Envs.empty_store
       (MkHttpRequest "POST" "/api/items" (Some "/items") "/items" (VObj [])
                      Samples.long_note [] (Some "7"))
       (Some 201%Z) (Fails Envs.not_found) Envs.nothing
     = (Throw SyntaxError, tick Envs.nothing).
Proof.
  assert (T : truthy Samples.long_note = true) by reflexivity.
  assert (H : 1000 < serialized_length
                (VObj (fold_left redact PosthogInterceptor.sensitiveFields
                                 (entries Samples.long_note)))).
  { vm_compute. repeat constructor. }
  split; [exact T|]. split; [exact H|].
  exact (intercept_throws_on_large_body Envs.empty_store
           (MkHttpRequest "POST" "/api/items" (Some "/items") "/items" (VObj [])
                          Samples.long_note [] (Some "7"))
           (Some 201%Z) (Fails Envs.not_found) Envs.nothing T H).
Defined.

(** X15: a call whose method is not POST, PUT or PATCH and whose handler
    returns leaves no trace: no event, no log line and no request to
    PostHog, only the clock has been read; the call returns unless the
    sanitizer rejects the request body. *)
Theorem intercept_read_request_leaves_no_trace env request statusCode
    responseData w :
  shouldTrack (http_method request) = false ->
  intercept env request statusCode (Returns responseData) w
  = (match PosthogInterceptor.sanitizeBody (body request) with
     | Ok _ => Ok tt
     | Throw e => Throw e
     end, tick w).
Proof.
  intros H. unfold intercept, bind, Date_now, lift, ret. rewrite H.
  destruct (PosthogInterceptor.sanitizeBody (body request)); reflexivity.
Qed.

Lemma intercept_read_request_leaves_no_trace_sample :
  shouldTrack "DELETE" = false
  /\ intercept Envs.empty_store (Envs.http "DELETE") (Some 200%Z)
       (Returns (VObj [("deleted", VBool true)])) Envs.nothing
     = (Ok tt, tick Envs.nothing).
Proof.
  split; [reflexivity|].
  exact (intercept_read_request_leaves_no_trace Envs.empty_store
           (Envs.http "DELETE") (Some 200%Z) (VObj [("deleted", VBool true)])
           Envs.nothing eq_refl).
Defined.

(** X16: when the handler of a POST, PUT or PATCH returns a value that
    serializes to more than 2000 characters, [intercept] throws a
    [SyntaxError] before it reaches the tracker: the call is not recorded,
    nothing is logged and PostHog is not queried. *)
Theorem intercept_drops_large_response env request statusCode responseData w b :
  shouldTrack (http_method request) = true ->
  PosthogInterceptor.sanitizeBody (body request) = Ok b ->
  truthy responseData = true ->
  2000 < serialized_length responseData ->
  intercept env request statusCode (Returns responseData) w
  = (Throw SyntaxError, tick (tick w)).
Proof.
  intros H B T L. unfold intercept, bind, Date_now, lift. rewrite B, H.
  cbn [fst snd]. unfold PosthogInterceptor.sanitizeResponse.
  rewrite sanitizeResponse_cases, T. cbn [negb].
  apply Nat.leb_gt in L. now rewrite L.
Qed.

Lemma intercept_drops_large_response_sample :
  shouldTrack "POST" = true
  /\ PosthogInterceptor.sanitizeBody (body (Envs.http "POST")) = Ok new_item
  /\ truthy Samples.long_text = true
  /\ 2000 < serialized_length Samples.long_text
  /\ intercept Envs.empty_store (Envs.http "POST") (Some 201%Z)
       (Returns Samples.long_text) Envs.nothing
     = (Throw SyntaxError, tick (tick Envs.nothing)).
Proof.
  assert (L : 2000 < serialized_length Samples.long_text).
  { vm_compute. repeat constructor. }
  split; [reflexivity|]. split; [reflexivity|]. split; [reflexivity|].
  split; [exact L|].
  exact (intercept_drops_large_response Envs.empty_store (Envs.http "POST")
           (Some 201%Z) Samples.long_text Envs.nothing new_item
           eq_refl eq_refl eq_refl L).
Defined.

(** ** When the tracker fails *)

Lemma track_returns env id name props w :
  fst (track env id name props w) = Ok tt.
Proof.
  unfold track.
  destruct (unconfigured (env_or (POSTHOG_API_KEY env) placeholder));
    [reflexivity|].
  unfold now_iso, try_catch, bind, ret, log, capture, Date_now,
    get_eventLog, set_eventLog, tick.
  cbn -[slice Nat.ltb assign MAX_LOG_SIZE].
  match goal with
  | |- context [capture_throws env ?n ?d] => destruct (capture_throws env n d)
  end; cbn -[slice Nat.ltb assign MAX_LOG_SIZE].
  all: match goal with
       | |- context [if ?c then _ else _] => destruct c
       end; reflexivity.
Qed.

Lemma sanitizeBody_throws b e :
  PosthogService.sanitizeBody b = Throw e -> e = SyntaxError.
Proof.
  unfold PosthogService.sanitizeBody. rewrite sanitizeBodyWith_cases.
  destruct (negb (truthy b)); [discriminate|]. cbv zeta.
  match goal with |- context [if ?c then _ else _] => destruct c end;
    congruence.
Qed.

Lemma sanitizeResponse_throws b e :
  PosthogService.sanitizeResponse b = Throw e -> e = SyntaxError.
Proof.
  rewrite sanitizeResponse_cases.
  destruct (negb (truthy b)); [discriminate|].
  match goal with |- context [if ?c then _ else _] => destruct c end;
    congruence.
Qed.

Lemma toISOString_throws env t e :
  toISOString env t = Throw e -> e = RangeError.
Proof. destruct t; simpl; congruence. Qed.

Lemma writeProperties_throws env details p iso e :
  writeProperties env details p iso = Throw e ->
  e = SyntaxError \/ e = RangeError.
Proof.
  unfold writeProperties, rbind. intros H.
  split_hyp H; try discriminate H; inversion H; subst e; clear H.
  all: repeat match goal with
         | E : PosthogService.sanitizeBody _ = Throw _ |- _ =>
             apply sanitizeBody_throws in E
         | E : PosthogService.sanitizeResponse _ = Throw _ |- _ =>
             apply sanitizeResponse_throws in E
         | E : toISOString _ _ = Throw _ |- _ =>
             apply toISOString_throws in E
         end; auto.
Qed.

(** X17: [trackWriteRequestWithComparison] returns, or throws a
    [SyntaxError] (a body that the sanitizers reject) or a [RangeError]
    (a previous call whose time stamp is no date); the lookup of the
    previous call and the PostHog client never make it fail.  When it
    throws, no event has been emitted. *)
Theorem trackWrite_outcomes env details w :
  (fst (trackWriteRequestWithComparison env details w) = Ok tt
   \/ fst (trackWriteRequestWithComparison env details w) = Throw SyntaxError
   \/ fst (trackWriteRequestWithComparison env details w) = Throw RangeError)
  /\ (fst (trackWriteRequestWithComparison env details w) <> Ok tt ->
      quiet w (snd (trackWriteRequestWithComparison env details w))).
Proof.
  pose proof (quiet_lookupPreviousCall env details w) as Q.
  destruct (lookupPreviousCall_result env details w) as (p & w0 & w1 & _ & E).
  unfold trackWriteRequestWithComparison, now_iso.
  unfold bind, Date_now, ret, lift.
  rewrite E in *. cbn [fst snd] in Q. cbv beta iota.
  destruct (writeProperties env details p
              (Date_toISOString env (clock env (ticks w1)))) as [props|e] eqn:W.
  - split; [left; apply track_returns|].
    intros N. elim N. apply track_returns.
  - cbn [fst snd]. split.
    + right. destruct (writeProperties_throws _ _ _ _ _ W); subst; auto.
    + intros _. exact Q.
Qed.

Lemma trackWrite_outcomes_sample :
  fst (trackWriteRequestWithComparison Envs.empty_store large_write Envs.nothing)
  = Throw SyntaxError
  /\ quiet Envs.nothing
       (snd (trackWriteRequestWithComparison Envs.empty_store large_write
               Envs.nothing)).
Proof.
  assert (E : fst (trackWriteRequestWithComparison Envs.empty_store large_write
                     Envs.nothing) = Throw SyntaxError)
    by (vm_compute; reflexivity).
  split; [exact E|].
  apply (trackWrite_outcomes Envs.empty_store large_write Envs.nothing).
  rewrite E. discriminate.
Defined.

(** ** The error event *)

(** [trackError] is [track] on the properties [errorProperties] computes,
    after steps that emit nothing. *)
Lemma trackError_run env details w :
  exists w1,
    quiet w w1
    /\ trackError env details w
       = match errorProperties env details
                 (Date_toISOString env (clock env (ticks w))) with
         | Ok props => track env (err_userId details) "error_occurred" props w1
         | Throw e => (Throw e, w1)
         end.
Proof.
  unfold trackError, errorProperties, getProjectId, project_of, now_iso, rbind.
  unfold bind, Date_now, ret, lift, log.
  cbn -[String.append track sanitizeBody sanitizeHeaders obj_set obj_get
        match_phc all_digits env_or not_anonymous].
  repeat (split_match;
          cbn -[String.append track sanitizeBody sanitizeHeaders obj_set obj_get
                match_phc all_digits env_or not_anonymous]).
  all: eexists; split; [|reflexivity]; split; reflexivity.
Qed.

Lemma trackError_emits_properties env details (P : obj -> Prop) :
  (forall iso props, errorProperties env details iso = Ok props -> P props) ->
  (forall props iso, P props -> P (stamped props iso)) ->
  emits (fun data => P (cap_properties data)) (fun event => P (properties event))
        (trackError env details).
Proof.
  intros HP Hst w.
  destruct (trackError_run env details w) as (w1 & Q & E). rewrite E.
  destruct (errorProperties env details
              (Date_toISOString env (clock env (ticks w)))) as [props|e] eqn:W.
  - destruct (track_emits env (err_userId details) "error_occurred" props w1)
      as (sent & logged & He & H1 & H2 & H3 & H4).
    exists sent, logged.
    split; [eapply emitted_quiet; eassumption|].
    split; [exact H1|]. split; [exact H2|]. split.
    + eapply Forall_impl; [|exact H3].
      intros d (_ & _ & iso' & Hp). rewrite Hp. apply Hst. eapply HP, W.
    + eapply Forall_impl; [|exact H4].
      intros ev (_ & _ & Hp). rewrite Hp. eapply HP, W.
  - exists [], []. split; [eapply emitted_quiet; [exact Q | apply emitted_refl]|].
    simpl. auto.
Qed.

(** What the interceptor emits after a failure is what [trackError]
    emits on the details it builds. *)
Lemma intercept_failure_emits env request statusCode error
    (S : CaptureData -> Prop) (L : TrackedEvent -> Prop) :
  (forall details,
      err_sessionId details = session_id (headers request) ->
      emits S L (trackError env details)) ->
  emits S L (intercept env request statusCode (Fails error)).
Proof.
  intros H. unfold intercept. cbv zeta.
  apply emits_bind; [apply quiet_Date_now | intros startTime].
  apply emits_bind; [intros w; apply quiet_refl | intros b].
  apply emits_bind; [apply quiet_Date_now | intros now].
  apply emits_bind; [apply quiet_now_iso | intros iso].
  apply H. reflexivity.
Qed.

Lemma errorProperties_replay env details iso props :
  errorProperties env details iso = Ok props ->
  replay_link env (err_sessionId details) props.
Proof.
  unfold errorProperties, rbind, replay_link, replay_url, no_replay_link.
  intros H.
  split_hyp H; try discriminate H; inversion H; subst props; clear H.
  all: cbn -[String.append]; other_keys;
    repeat split; try reflexivity;
    try apply obj_get_obj_set_same.
Qed.

Lemma stamped_replay env sid props iso :
  replay_link env sid props -> replay_link env sid (stamped props iso).
Proof.
  unfold replay_link, no_replay_link, stamped, assign. cbn [fold_left fst snd].
  other_keys. auto.
Qed.

(** X18: an error event links to the replay of the session it came with.
    Every [error_occurred] event of [trackError], and every one the
    interceptor emits after a failure (where the session is the
    [x-session-id] header), carries [$session_id], the flag
    [$error_with_session_replay] and [session_replay_url], which is
    [<host>/project/<id>/replay/<session>] when the project id is known
    and [<host>/replay/<session>] otherwise; with no session, or an empty
    one, it carries none of the three. *)
Theorem error_events_link_the_session_replay env w :
  (forall details, exists sent logged,
      emitted_since w (snd (trackError env details w)) sent logged
      /\ Forall (fun data =>
                   replay_link env (err_sessionId details) (cap_properties data))
                sent
      /\ Forall (fun event =>
                   replay_link env (err_sessionId details) (properties event))
                logged)
  /\ (forall request statusCode error, exists sent logged,
      emitted_since w (snd (intercept env request statusCode (Fails error) w))
        sent logged
      /\ Forall (fun data =>
                   replay_link env (session_id (headers request))
                               (cap_properties data))
                sent
      /\ Forall (fun event =>
                   replay_link env (session_id (headers request))
                               (properties event))
                logged).
Proof.
  assert (G : forall details,
             emits (fun data =>
                      replay_link env (err_sessionId details) (cap_properties data))
                   (fun event =>
                      replay_link env (err_sessionId details) (properties event))
                   (trackError env details)).
  { intros details.
    apply (trackError_emits_properties env details
             (replay_link env (err_sessionId details))).
    - apply errorProperties_replay.
    - intros props iso. apply stamped_replay. }
  split.
  - intros details.
    destruct (G details w) as (sent & logged & He & _ & _ & H3 & H4).
    exists sent, logged. auto.
  - intros request statusCode error.
    destruct (intercept_failure_emits env request statusCode error
                (fun data => replay_link env (session_id (headers request))
                                         (cap_properties data))
                (fun event => replay_link env (session_id (headers request))
                                          (properties event))) with (w := w)
      as (sent & logged & He & _ & _ & H3 & H4).
    + intros details E. rewrite <- E. apply G.
    + exists sent, logged. auto.
Qed.

Example replay_link_sample :
  map (fun event => obj_get (properties event) "session_replay_url")
      (eventLog (snd (intercept Envs.empty_store (Envs.http "POST") None
                        (Fails Envs.not_found) Envs.nothing)))
  = [VStr "https://app.posthog.com/project/42/replay/s1"].
Proof. vm_compute. reflexivity. Qed.

(** *** The context of an error event *)

Lemma get_falsy (v : value) (key : string) :
  truthy v = false -> truthy (get v key) = false.
Proof.
  destruct v as [| |b|n|s|vs|fs]; simpl; try reflexivity; try discriminate.
  destruct s; [|discriminate]. intros _. simpl.
  destruct (String.eqb key "length"); reflexivity.
Qed.

Lemma no_clear_secret_falsy fields (v : value) :
  truthy v = false -> no_clear_secret fields v.
Proof.
  intros F f _ T. rewrite (get_falsy v f F) in T. discriminate T.
Qed.

Lemma get_falsy_header (v : value) (name : string) :
  truthy v = false ->
  mem (toLowerCase name) sensitiveHeaders = true ->
  get v name = VUndefined.
Proof.
  destruct v as [| |b|n|s|vs|fs]; simpl; try reflexivity; try discriminate.
  destruct s; [|discriminate]. intros _ H. simpl.
  destruct (String.eqb_spec name "length") as [E|E]; [|reflexivity].
  subst name. vm_compute in H. discriminate H.
Qed.

Lemma fold_headers_hidden names (name : string) (l : obj) :
  mem (toLowerCase name) names = true ->
  forall acc,
    (obj_get acc name = VUndefined \/ obj_get acc name = REDACTED) ->
    let out :=
      fold_left
        (fun sanitized kv =>
           if mem (toLowerCase (fst kv)) names
           then obj_set sanitized (fst kv) REDACTED
           else obj_set sanitized (fst kv) (snd kv)) l acc in
    obj_get out name = VUndefined \/ obj_get out name = REDACTED.
Proof.
  intros H. induction l as [|[k v] l IH]; intros acc I; simpl; [exact I|].
  apply IH. cbn [fst snd].
  destruct (String.eqb_spec k name) as [E|E].
  - subst k. rewrite H. right. apply obj_get_obj_set_same.
  - apply String.eqb_neq in E.
    destruct (mem (toLowerCase k) names);
      now rewrite obj_get_obj_set_other.
Qed.

Lemma sanitizeHeadersWith_hides names (h : value) (name : string) :
  mem (toLowerCase name) names = true ->
  get (sanitizeHeadersWith names h) name = VUndefined
  \/ get (sanitizeHeadersWith names h) name = REDACTED.
Proof.
  intros H. unfold sanitizeHeadersWith.
  destruct (negb (truthy h)); [now left|].
  cbn [get]. apply (fold_headers_hidden names name (entries h) H []).
  now left.
Qed.

Lemma errorProperties_context env details iso props :
  errorProperties env details iso = Ok props -> context_sanitized props.
Proof.
  unfold errorProperties, rbind, context_sanitized. cbv zeta.
  intros H.
  split_hyp H; try discriminate H; inversion H; subst props; clear H.
  all: cbn -[PosthogService.sanitizeHeaders PosthogService.sanitizeBody toLowerCase mem obj_set
             sensitiveHeaders PosthogService.sensitiveFields].
  all: split;
    [ first
        [ apply no_clear_secret_falsy; assumption
        | rewrite obj_get_obj_set_same;
          match goal with
          | E : PosthogService.sanitizeBody _ = Ok _ |- _ =>
              exact (sanitizeBodyWith_no_clear_secret _ _ _ E)
          end
        | intros f _ T; discriminate T ]
    | intros name Hn;
      first
        [ left; apply get_falsy_header; assumption
        | other_keys;
          first
            [ left; apply get_falsy_header; assumption
            | rewrite obj_get_obj_set_same;
              exact (sanitizeHeadersWith_hides _ _ _ Hn) ]
        | left; reflexivity ] ].
Qed.

Lemma stamped_context props iso :
  context_sanitized props -> context_sanitized (stamped props iso).
Proof.
  unfold context_sanitized, stamped, assign. cbn [fold_left fst snd]. cbv zeta.
  other_keys. auto.
Qed.

(** X19: the context of an error event is sanitized.  In every
    [error_occurred] event of [trackError], and in every one the
    interceptor emits after a failure, [context.requestBody] holds no
    truthy value other than ["[REDACTED]"] under [password], [token],
    [secret], [apiKey], [apikey] or [access_token], and
    [context.requestHeaders] holds nothing but ["[REDACTED]"] under a name
    that is, in lower case, [authorization], [cookie], [x-api-key] or
    [x-session-id]. *)
Theorem error_events_carry_sanitized_context env w :
  (forall details, exists sent logged,
      emitted_since w (snd (trackError env details w)) sent logged
      /\ Forall (fun data => context_sanitized (cap_properties data)) sent
      /\ Forall (fun event => context_sanitized (properties event)) logged)
  /\ (forall request statusCode error, exists sent logged,
      emitted_since w (snd (intercept env request statusCode (Fails error) w))
        sent logged
      /\ Forall (fun data => context_sanitized (cap_properties data)) sent
      /\ Forall (fun event => context_sanitized (properties event)) logged).
Proof.
  assert (G : forall details,
             emits (fun data => context_sanitized (cap_properties data))
                   (fun event => context_sanitized (properties event))
                   (trackError env details)).
  { intros details.
    apply (trackError_emits_properties env details context_sanitized).
    - apply errorProperties_context.
    - apply stamped_context. }
  split.
  - intros details.
    destruct (G details w) as (sent & logged & He & _ & _ & H3 & H4).
    exists sent, logged. auto.
  - intros request statusCode error.
    destruct (intercept_failure_emits env request statusCode error
                (fun data => context_sanitized (cap_properties data))
                (fun event => context_sanitized (properties event)))
      with (w := w) as (sent & logged & He & _ & _ & H3 & H4).
    + intros details _. apply G.
    + exists sent, logged. auto.
Qed.

Example error_context_sample :
  map (fun event =>
         (get (obj_get (properties event) "context") "requestBody",
          get (obj_get (properties event) "context") "requestHeaders"))
      (eventLog
         (snd (intercept Envs.empty_store
                 (MkHttpRequest "POST" "/api/login" (Some "/login") "/login"
                    (VObj [])
                    (VObj [("user", VStr "ann"); ("access_token", VStr "t0k")])
                    [("Authorization", VStr "Bearer abc");
                     ("X-Session-Id", VStr "s1")]
                    None)
                 None (Fails Envs.not_found) Envs.nothing)))
  = [(VObj [("user", VStr "ann"); ("access_token", VStr "[REDACTED]")],
      VObj [("Authorization", VStr "[REDACTED]");
            ("X-Session-Id", VStr "[REDACTED]")])].
Proof. vm_compute. reflexivity. Qed.

(** ** The project id *)

Lemma substring_all (s : string) : substring 0 (String.length s) s = s.
Proof. induction s as [|c s IH]; simpl; [reflexivity | now rewrite IH]. Qed.

Lemma prefix_phc (s : string) :
  prefix "phc_" s = true ->
  s = "phc_" +++ substring 4 (String.length s - 4) s.
Proof.
  intros H.
  destruct s as [|c0 [|c1 [|c2 [|c3 t]]]]; cbn [prefix] in H;
    repeat match type of H with
           | context [ascii_dec ?a ?b] =>
               destruct (ascii_dec a b) as [E|E]; [subst|]
           end; try discriminate H.
  simpl. now rewrite Nat.sub_0_r, substring_all.
Qed.

Lemma take_until_underscore_split (r : string) :
  exists after,
    r = take_until_underscore r +++ after
    /\ (after = EmptyString \/ exists rest, after = String "_"%char rest).
Proof.
  induction r as [|c r (after & E & H)]; simpl.
  - exists EmptyString. split; [reflexivity | now left].
  - destruct (Ascii.eqb_spec c "_"%char) as [->|N].
    + exists (String "_"%char r). split; [reflexivity | right; now exists r].
    + exists after. split; [simpl; now rewrite <- E | exact H].
Qed.

Lemma match_phc_occurs (s g : string) :
  match_phc s = Some g ->
  g <> EmptyString
  /\ exists before after,
       s = before +++ "phc_" +++ g +++ after
       /\ (after = EmptyString \/ exists rest, after = String "_"%char rest).
Proof.
  induction s as [|c s IH]; [discriminate|].
  cbn [match_phc].
  assert (R : match_phc s = Some g ->
              g <> EmptyString
              /\ exists before after,
                   String c s = before +++ "phc_" +++ g +++ after
                   /\ (after = EmptyString
                       \/ exists rest, after = String "_"%char rest)).
  { intros H. destruct (IH H) as (Hg & before & after & E & Ha).
    split; [exact Hg|]. exists (String c before), after.
    split; [rewrite E; reflexivity | exact Ha]. }
  destruct (prefix "phc_" (String c s)) eqn:P; [|exact R].
  cbv zeta.
  destruct (String.eqb_spec
              (take_until_underscore
                 (substring 4 (String.length (String c s) - 4) (String c s)))
              EmptyString) as [E|E]; [exact R|].
  intros H. injection H as G. subst g. split; [exact E|].
  destruct (take_until_underscore_split
              (substring 4 (String.length (String c s) - 4) (String c s)))
    as (after & Hr & Ha).
  exists EmptyString, after. split; [|exact Ha].
  rewrite (prefix_phc _ P) at 1. cbn [String.append].
  rewrite Hr at 1. reflexivity.
Qed.

Lemma getProjectId_result env apiKey w :
  fst (getProjectId env apiKey w) = Ok (project_of env apiKey)
  /\ (logs (snd (getProjectId env apiKey w)) = logs w
      <-> project_of env apiKey <> None).
Proof.
  unfold getProjectId, project_of, bind, ret, log.
  destruct (env_set (POSTHOG_PROJECT_ID env)) eqn:S.
  - split; [reflexivity|]. split; [|reflexivity].
    intros _. destruct (POSTHOG_PROJECT_ID env); [discriminate | discriminate S].
  - assert (N : forall l : list (level * string) , forall x, l ++ [x] <> l).
    { intros l x E. apply (f_equal (@List.length _)) in E.
      rewrite length_app in E. simpl in E. lia. }
    destruct (match_phc apiKey) as [g|]; [destruct (all_digits g)|]; simpl.
    + split; [reflexivity|]. split; [discriminate | reflexivity].
    + split; [reflexivity|]. split; [intros E; now apply N in E | congruence].
    + split; [reflexivity|]. split; [intros E; now apply N in E | congruence].
Qed.

(** X20: with no [POSTHOG_PROJECT_ID] configured, an id that
    [getProjectId] returns is a non-empty run of digits that stands in the
    key right after [phc_] and runs to the end of the key or to the next
    underscore; and no warning is logged when an id is returned. *)
Theorem getProjectId_reads_digits_after_phc env apiKey w id :
  env_set (POSTHOG_PROJECT_ID env) = false ->
  fst (getProjectId env apiKey w) = Ok (Some id) ->
  all_digits id = true
  /\ (exists before after,
        apiKey = before +++ "phc_" +++ id +++ after
        /\ (after = EmptyString \/ exists rest, after = String "_"%char rest))
  /\ logs (snd (getProjectId env apiKey w)) = logs w.
Proof.
  destruct (getProjectId_result env apiKey w) as [R L]. rewrite R.
  intros S H. injection H as P.
  split; [|split].
  - unfold project_of in P. rewrite S in P.
    destruct (match_phc apiKey) as [g|]; [|discriminate P].
    destruct (all_digits g) eqn:D; [|discriminate P].
    now injection P as <-.
  - unfold project_of in P. rewrite S in P.
    destruct (match_phc apiKey) as [g|] eqn:M; [|discriminate P].
    destruct (all_digits g) eqn:D; [|discriminate P].
    injection P as <-. now destruct (match_phc_occurs _ _ M).
  - apply L. rewrite P. discriminate.
Qed.

Lemma getProjectId_reads_digits_after_phc_sample :
  env_set (POSTHOG_PROJECT_ID no_project) = false
  /\ fst (getProjectId no_project "phc_12345_live" Envs.nothing)
     = Ok (Some "12345")
  /\ all_digits "12345" = true
  /\ (exists before after,
        "phc_12345_live" = before +++ "phc_" +++ "12345" +++ after
        /\ (after = EmptyString \/ exists rest, after = String "_"%char rest))
  /\ logs (snd (getProjectId no_project "phc_12345_live" Envs.nothing))
     = logs Envs.nothing.
Proof.
  split; [reflexivity|]. split; [reflexivity|].
  exact (getProjectId_reads_digits_after_phc no_project "phc_12345_live"
           Envs.nothing "12345" eq_refl eq_refl).
Defined.

Example getProjectId_samples :
  map (fun key => fst (getProjectId no_project key Envs.nothing))
      ["phc_12345"; "phc_12345_live"; "phc_abc123"; "phc__phc_77"; "x_phc_9";
       "phc_abc_phc_123"; "12345"]
  = [Ok (Some "12345"); Ok (Some "12345"); Ok None; Ok (Some "77");
     Ok (Some "9"); Ok None; Ok None].
Proof. vm_compute. reflexivity. Qed.

(** ** Arrays *)

Lemma string_of_nat_not_length (i : nat) :
  String.eqb (string_of_nat i) "length" = false.
Proof.
  unfold string_of_nat. destruct (Nat.to_uint i); reflexivity.
Qed.

Lemma at_index_length {A} (l : list A) : forall i, at_index "length" i l = None.
Proof.
  induction l as [|x l IH]; intros i; simpl; [reflexivity|].
  now rewrite string_of_nat_not_length.
Qed.

Lemma get_length (l : list value) : get (VArr l) "length" = nat_num (List.length l).
Proof. unfold get. now rewrite at_index_length. Qed.

Lemma gt0_length env (x : value) (l : list value) :
  gt0 env (get (VArr (x :: l)) "length") = true.
Proof.
  rewrite get_length. unfold gt0, nat_num, int. cbn [mant List.length].
  apply Z.ltb_lt. lia.
Qed.

Lemma get_first (x : value) (l : list value) : get (VArr (x :: l)) "0" = x.
Proof. reflexivity. Qed.

Lemma or_else_obj (o : obj) (v : value) : or_else (VObj o) v = VObj o.
Proof. reflexivity. Qed.

Lemma new_Date_or_now_returns env a b w :
  exists t w',
    new_Date_or_now env a b w = (Ok t, w')
    /\ requests w' = requests w.
Proof.
  unfold new_Date_or_now, bind, ret, Date_now.
  destruct (truthy (or_else a b)); eexists; eexists; split; reflexivity.
Qed.

Ltac run_cheap H :=
  unfold try_catch, bind, when, ret, lift, log, fetch, member in H;
  cbn [ticks requests logs eventLog outbox fst snd negb andb truthy
       is_nullish] in H.

(** ** The lookup, when the store answers *)

(** X21: the lookup reads back what the tracker stored.  When querying is
    configured and the Query API answers with a first result (a row whose
    first column is the event, or the event itself) that has [properties],
    [getPreviousCallFromPostHog] returns a record whose request body,
    response body, status code, duration, method, path and url are the
    [request_body], [response_body], [status_code], [duration_ms],
    [method], [path] and [url] of those properties, after that one request
    and without calling the events endpoint. *)
Theorem lookup_reads_back_the_stored_call env method path userId w host pid key resp data
    row rest (props : obj) :
  query_target env = Some (host, pid, key) ->
  fetch_outcome env (ticks w) (query_request host pid key method path)
  = Resolved resp ->
  ok resp = true ->
  json resp = Ok data ->
  get data "results" = VArr (row :: rest) ->
  get (if isArray row then get row "0" else row) "properties" = VObj props ->
  exists record w',
    getPreviousCallFromPostHog env method path userId w = (Ok (Some record), w')
    /\ requestBody record = obj_get props "request_body"
    /\ responseBody record = obj_get props "response_body"
    /\ statusCode record = obj_get props "status_code"
    /\ duration record = obj_get props "duration_ms"
    /\ PosthogService.method record = obj_get props "method"
    /\ PosthogService.path record = obj_get props "path"
    /\ url record = obj_get props "url"
    /\ requests w' = requests w ++ [query_request host pid key method path].
Proof.
  intros Ht Hf Hok Hj Hr Hp.
  assert (Hn : is_nullish data = false).
  { destruct data; try reflexivity; discriminate Hr. }
  remember (getPreviousCallFromPostHog env method path userId w) as R eqn:ER.
  unfold query_target, query_key, project_of in Ht.
  split_hyp Ht; try discriminate Ht; inversion Ht; subst host pid key; clear Ht.
  all: unfold getPreviousCallFromPostHog, getProjectId, query_request in *.
  all: cbv zeta in ER.
  all: repeat (first
                 [ progress (repeat match goal with
                                    | E : ?l = _ |- _ =>
                                        tryif is_var l then fail
                                        else rewrite E in ER
                                    end;
                             rewrite ?gt0_length, ?get_first, ?or_else_obj in ER)
                 | progress run_cheap ER
                 | match type of ER with
                   | context [if env_set ?k then _ else _] =>
                       destruct (env_set k)
                   end ]).
  all: match type of ER with
       | context [new_Date_or_now ?e ?a ?b ?W] =>
           destruct (new_Date_or_now_returns e a b W) as (t & w' & Et & Rt);
           rewrite Et in ER; cbn [requests] in Rt
       end.
  all: subst R; eexists; eexists; (split; [reflexivity|]).
  all: cbn [requestBody responseBody statusCode duration PosthogService.method
            PosthogService.path url get].
  all: repeat split; try reflexivity; exact Rt.
Qed.


Lemma lookup_reads_back_the_stored_call_sample :
  exists record w',
    getPreviousCallFromPostHog Envs.with_history "POST" "/items" None Envs.nothing
    = (Ok (Some record), w')
    /\ requestBody record = obj_get stored_properties "request_body"
    /\ responseBody record = obj_get stored_properties "response_body"
    /\ statusCode record = obj_get stored_properties "status_code"
    /\ duration record = obj_get stored_properties "duration_ms"
    /\ PosthogService.method record = obj_get stored_properties "method"
    /\ PosthogService.path record = obj_get stored_properties "path"
    /\ url record = obj_get stored_properties "url"
    /\ requests w'
       = requests Envs.nothing
         ++ [query_request default_host "42" "phc_test" "POST" "/items"].
Proof.
  apply (lookup_reads_back_the_stored_call Envs.with_history "POST" "/items" None
           Envs.nothing default_host "42" "phc_test"
           (MkResponse true 200 "OK" (Ok EmptyString) (Ok stored_answer))
           stored_answer
           (VArr [VObj [("properties", VObj stored_properties);
                        ("timestamp", VStr "2024-01-01")]])
           [] stored_properties); reflexivity.
Defined.

Example lookup_reads_back_sample :
  option_map requestBody
    (match fst (getPreviousCallFromPostHog Envs.with_history "POST" "/items" None
                  Envs.nothing) with
     | Ok r => r
     | Throw _ => None
     end)
  = Some old_item.
Proof. vm_compute. reflexivity. Qed.

(** ** Clearing the log, and limits that are no numbers *)

(** X22: [DELETE /posthog/events] empties the local log and nothing else:
    afterwards [getRecentEvents] returns no entry for every limit, the
    controller reports [count = 0] and [getStatus] a log of size 0, while
    what was handed to the PostHog client stays as it was and no request
    is made. *)
Theorem clearEvents_empties_the_local_log env w limit s :
  getRecentEvents (snd (PosthogController.clearEvents w)) limit = []
  /\ PosthogController.count
       (PosthogController.getRecentEvents
          (snd (PosthogController.clearEvents w)) s) = 0
  /\ eventLogSize (getStatus env (snd (PosthogController.clearEvents w))) = 0
  /\ outbox (snd (PosthogController.clearEvents w)) = outbox w
  /\ requests (snd (PosthogController.clearEvents w)) = requests w.
Proof.
  destruct (cleared_log_is_empty w limit) as (E & O & G).
  split; [exact G|]. split; [|split; [|split; [exact O | reflexivity]]].
  - unfold PosthogController.getRecentEvents.
    cbn [PosthogController.count].
    rewrite getRecentEvents_closed_form, length_map, length_firstn, length_rev.
    cbv zeta in E. rewrite E. cbn [List.length]. apply Nat.min_0_r.
  - unfold getStatus. cbn [eventLogSize]. cbv zeta in E. now rewrite E.
Qed.

(** X23: a [limit] that is not empty and does not read as a number, or
    reads as 0, makes [GET /posthog/events] return the whole log, newest
    first: [Math.min(NaN, 100)] is [NaN], and [slice(-NaN)], like
    [slice(-0)], keeps everything. *)
Theorem controller_unreadable_limit_returns_all w s :
  s <> EmptyString ->
  PosthogController.parseInt s = None
  \/ PosthogController.parseInt s = Some 0%Z ->
  PosthogController.events (PosthogController.getRecentEvents w (Some s))
  = map to_dto (List.rev (eventLog w))
  /\ PosthogController.count (PosthogController.getRecentEvents w (Some s))
     = List.length (eventLog w).
Proof.
  intros Hs Hp. unfold PosthogController.getRecentEvents.
  apply String.eqb_neq in Hs. rewrite Hs.
  cbn [PosthogController.events PosthogController.count].
  assert (E : match PosthogController.parseInt s with
              | Some n => Z.min n 100
              | None => 0%Z
              end = 0%Z).
  { destruct Hp as [-> | ->]; reflexivity. }
  rewrite E, getRecentEvents_zero.
  split; [reflexivity|]. now rewrite length_map, length_rev.
Qed.

Lemma controller_unreadable_limit_returns_all_sample :
  "all" <> EmptyString
  /\ (PosthogController.parseInt "all" = None
      \/ PosthogController.parseInt "all" = Some 0%Z)
  /\ PosthogController.events
       (PosthogController.getRecentEvents LogSamples.two_events (Some "all"))
     = map to_dto (List.rev (eventLog LogSamples.two_events))
  /\ PosthogController.count
       (PosthogController.getRecentEvents LogSamples.two_events (Some "all"))
     = List.length (eventLog LogSamples.two_events).
Proof.
  assert (Hs : "all" <> EmptyString) by discriminate.
  assert (Hp : PosthogController.parseInt "all" = None
               \/ PosthogController.parseInt "all" = Some 0%Z)
    by (left; reflexivity).
  split; [exact Hs|]. split; [exact Hp|].
  exact (controller_unreadable_limit_returns_all LogSamples.two_events "all"
           Hs Hp).
Defined.

(** ** When the error tracker and the interceptor fail *)

Lemma errorProperties_throws env details iso e :
  errorProperties env details iso = Throw e -> e = SyntaxError.
Proof.
  unfold errorProperties, rbind. intros H.
  split_hyp H; try discriminate H; inversion H; subst e; clear H.
  all: match goal with
       | E : PosthogService.sanitizeBody _ = Throw _ |- _ =>
           now apply sanitizeBody_throws in E
       end.
Qed.

Lemma trackError_result env details w :
  fst (trackError env details w) = Ok tt
  \/ (fst (trackError env details w) = Throw SyntaxError
      /\ quiet w (snd (trackError env details w))).
Proof.
  destruct (trackError_run env details w) as (w1 & Q & E). rewrite E.
  destruct (errorProperties env details
              (Date_toISOString env (clock env (ticks w)))) as [props|e] eqn:W.
  - left. apply track_returns.
  - right. apply errorProperties_throws in W. subst e. split; [reflexivity|].
    exact Q.
Qed.

Lemma trackWrite_result env details w :
  fst (trackWriteRequestWithComparison env details w) = Ok tt
  \/ fst (trackWriteRequestWithComparison env details w) = Throw SyntaxError
  \/ fst (trackWriteRequestWithComparison env details w) = Throw RangeError.
Proof.
  destruct (lookupPreviousCall_result env details w) as (p & w0 & w1 & _ & E).
  unfold trackWriteRequestWithComparison, now_iso.
  unfold bind, Date_now, ret, lift.
  rewrite E. cbv beta iota.
  destruct (writeProperties env details p
              (Date_toISOString env (clock env (ticks w1)))) as [props|e] eqn:W.
  - left. apply track_returns.
  - cbn [fst]. right.
    destruct (writeProperties_throws _ _ _ _ _ W); subst; auto.
Qed.

Lemma interceptor_sanitizeBody_throws b e :
  PosthogInterceptor.sanitizeBody b = Throw e -> e = SyntaxError.
Proof.
  unfold PosthogInterceptor.sanitizeBody. rewrite sanitizeBodyWith_cases.
  destruct (negb (truthy b)); [discriminate|]. cbv zeta.
  match goal with |- context [if ?c then _ else _] => destruct c end;
    congruence.
Qed.

(** X24: [trackError] returns, or throws a [SyntaxError] when the
    sanitizer rejects [context.requestBody]; neither the project id nor
    the PostHog client can make it fail, and when it throws no event has
    been emitted.  So the interception of a call, whatever the request,
    the handler and the answers of PostHog, ends in one of three ways: it
    completes, or fails with a [SyntaxError] (a sanitizer) or with a
    [RangeError] (the time stamp of the previous call). *)
Theorem tracking_fails_only_in_sanitizers env w :
  (forall details,
      fst (trackError env details w) = Ok tt
      \/ (fst (trackError env details w) = Throw SyntaxError
          /\ quiet w (snd (trackError env details w))))
  /\ (forall request statusCode handled,
        fst (intercept env request statusCode handled w) = Ok tt
        \/ fst (intercept env request statusCode handled w) = Throw SyntaxError
        \/ fst (intercept env request statusCode handled w) = Throw RangeError).
Proof.
  split; [intros details; apply trackError_result|].
  intros request statusCode handled.
  unfold intercept. unfold bind at 1. unfold Date_now at 1. cbv beta iota.
  unfold bind at 1, lift at 1.
  destruct (PosthogInterceptor.sanitizeBody (body request)) as [b|e] eqn:B.
  2:{ apply interceptor_sanitizeBody_throws in B. subst e. right. now left. }
  cbv beta iota zeta.
  destruct handled as [responseData|error].
  - destruct (shouldTrack (http_method request)); [|now left].
    unfold bind at 1. unfold Date_now at 1. cbv beta iota.
    unfold bind at 1, lift at 1.
    destruct (PosthogInterceptor.sanitizeResponse responseData) as [r|e] eqn:S.
    + apply trackWrite_result.
    + unfold PosthogInterceptor.sanitizeResponse in S.
      apply sanitizeResponse_throws in S. subst e. right. now left.
  - unfold bind at 1. unfold Date_now at 1. cbv beta iota.
    unfold bind at 1, now_iso at 1, bind at 1, Date_now at 1, ret at 1.
    cbv beta iota.
    match goal with
    | |- context [trackError ?e ?d ?W] =>
        destruct (trackError_result e d W) as [H|[H _]]; rewrite H; auto
    end.
Qed.

(** X25: the fallback reads back what the tracker stored.  When the events
    endpoint answers with a first result that has [properties],
    [tryEventsApiEndpoint] returns a record whose request body, response
    body, status code, duration, method, path and url are the
    [request_body], [response_body], [status_code], [duration_ms],
    [method], [path] and [url] of those properties, after that one
    request. *)
Theorem events_fallback_reads_back_the_stored_call env host pid key method path
    userId w resp data event rest (props : obj) :
  fetch_outcome env (ticks w) (events_request host pid key method path userId)
  = Resolved resp ->
  ok resp = true ->
  json resp = Ok data ->
  get data "results" = VArr (event :: rest) ->
  get event "properties" = VObj props ->
  exists record w',
    tryEventsApiEndpoint env host pid key method path userId w
    = (Ok (Some record), w')
    /\ requestBody record = obj_get props "request_body"
    /\ responseBody record = obj_get props "response_body"
    /\ statusCode record = obj_get props "status_code"
    /\ duration record = obj_get props "duration_ms"
    /\ PosthogService.method record = obj_get props "method"
    /\ PosthogService.path record = obj_get props "path"
    /\ url record = obj_get props "url"
    /\ requests w'
       = requests w ++ [events_request host pid key method path userId].
Proof.
  intros Hf Hok Hj Hr Hp.
  assert (Hn : is_nullish data = false).
  { destruct data; try reflexivity; discriminate Hr. }
  assert (Hn' : is_nullish event = false).
  { destruct event; try reflexivity; discriminate Hp. }
  remember (tryEventsApiEndpoint env host pid key method path userId w)
    as R eqn:ER.
  unfold tryEventsApiEndpoint, events_request in *.
  cbv zeta in ER.
  repeat (first
            [ progress (repeat match goal with
                               | E : ?l = _ |- _ =>
                                   tryif is_var l then fail
                                   else rewrite E in ER
                               end;
                        rewrite ?gt0_length, ?get_first, ?or_else_obj in ER)
            | progress run_cheap ER ]).
  match type of ER with
  | context [new_Date_or_now ?e ?a ?b ?W] =>
      destruct (new_Date_or_now_returns e a b W) as (t & w' & Et & Rt);
      rewrite Et in ER; cbn [requests] in Rt
  end.
  subst R; eexists; eexists; (split; [reflexivity|]).
  cbn [requestBody responseBody statusCode duration PosthogService.method
       PosthogService.path url get].
  repeat split; try reflexivity; exact Rt.
Qed.

Lemma events_fallback_reads_back_the_stored_call_sample :
  exists record w',
    tryEventsApiEndpoint events_store default_host "42" "phc_test" "POST" "/items"
      (Some "7") Envs.nothing
    = (Ok (Some record), w')
    /\ requestBody record = obj_get stored_properties "request_body"
    /\ responseBody record = obj_get stored_properties "response_body"
    /\ statusCode record = obj_get stored_properties "status_code"
    /\ duration record = obj_get stored_properties "duration_ms"
    /\ PosthogService.method record = obj_get stored_properties "method"
    /\ PosthogService.path record = obj_get stored_properties "path"
    /\ url record = obj_get stored_properties "url"
    /\ requests w'
       = requests Envs.nothing
         ++ [events_request default_host "42" "phc_test" "POST" "/items"
               (Some "7")].
Proof.
  apply (events_fallback_reads_back_the_stored_call events_store default_host
           "42" "phc_test" "POST" "/items" (Some "7") Envs.nothing
           (MkResponse true 200 "OK" (Ok EmptyString) (Ok stored_events))
           stored_events
           (VObj [("properties", VObj stored_properties);
                  ("timestamp", VStr "2024-01-01")])
           [] stored_properties); reflexivity.
Defined.
